(** * container-diff: the apk and rpm package analyzers

    A shallow embedding of [differs/apk_diff.go] (the world-file reader), of
    the second definition of the apk analyzer (the installed-database reader)
    and of [differs/rpm_diff.go], with the properties of the package parsers
    and of the daemon gate ([lock] / [unlock]). *)

From Stdlib Require Import ZArith String Ascii DecimalString List Lia.
From stdpp Require Import base option list gmap strings.

Open Scope string_scope.
Open Scope Z_scope.

(** ** Go strings

    A Go string is a sequence of bytes, and so is a [string] here. *)

Module strings.

(** [cons_head a r] puts the byte [a] in front of the first field of [r]. *)
Definition cons_head (a : ascii) (r : list string) : list string :=
  match r with
  | [] => [String a ""]
  | h :: t => String a h :: t
  end.

(** The fields of [s] between the occurrences of a non-empty [sep], found
    from the left and not overlapping; [skip] counts the bytes of a
    separator still to be stepped over. *)
Fixpoint split_from (sep s : string) (skip : nat) : list string :=
  match s with
  | "" => [""]
  | String a s' =>
      match skip with
      | S k => split_from sep s' k
      | O =>
          if String.prefix sep s
          then "" :: split_from sep s' (String.length sep - 1)
          else cons_head a (split_from sep s' 0)
      end
  end.

(** One string per byte: what [strings.Split] does for an empty separator
    (per UTF-8 sequence in Go, the same on ASCII text). *)
Fixpoint explode (s : string) : list string :=
  match s with
  | "" => []
  | String a s' => String a "" :: explode s'
  end.

(** [strings.Split(s, sep)] *)
Definition Split (s sep : string) : list string :=
  match sep with
  | "" => explode s
  | _ => split_from sep s 0
  end.

(** [strings.HasPrefix(s, prefix)] *)
Definition HasPrefix (s pre : string) : bool := String.prefix pre s.

(** [s] has the byte [c] somewhere. *)
Fixpoint contains_byte (c : ascii) (s : string) : bool :=
  match s with
  | "" => false
  | String a s' => if Ascii.eqb a c then true else contains_byte c s'
  end.

(** The number of occurrences of the byte [c] in [s]. *)
Fixpoint count_byte (c : ascii) (s : string) : nat :=
  match s with
  | "" => O
  | String a s' => (if Ascii.eqb a c then 1 else 0) + count_byte c s'
  end%nat.

(** The white space of [unicode.IsSpace] in the ASCII range (the table
    [asciiSpace]): tab, line feed, vertical tab, form feed, carriage return
    and space. *)
Definition asciiSpace (c : ascii) : bool :=
  let n := nat_of_ascii c in
  ((9 <=? n) && (n <=? 13) || (n =? 32))%nat.

(** The other white space of [unicode.IsSpace], by its UTF-8 encoding:
    U+0085 and U+00A0 in two bytes; U+1680, U+2000 to U+200A, U+2028,
    U+2029, U+202F, U+205F and U+3000 in three. *)
Definition space2 (a b : ascii) : bool :=
  let a := nat_of_ascii a in
  let b := nat_of_ascii b in
  ((a =? 194) && ((b =? 133) || (b =? 160)))%nat.

Definition space3 (a b c : ascii) : bool :=
  let a := nat_of_ascii a in
  let b := nat_of_ascii b in
  let c := nat_of_ascii c in
  ((a =? 225) && (b =? 154) && (c =? 128)
   || (a =? 226) && (b =? 128) &&
      ((128 <=? c) && (c <=? 138) || (c =? 168) || (c =? 169) || (c =? 175))
   || (a =? 226) && (b =? 129) && (c =? 159)
   || (a =? 227) && (b =? 128) && (c =? 128))%nat.

(** The number of bytes of the white-space character [s] starts with, 0
    when it starts with none. A byte that is not part of one of the
    encodings above is no white space, also when it is not valid UTF-8. *)
Definition space_width (s : string) : nat :=
  match s with
  | String a (String b (String c _)) =>
      if asciiSpace a then 1 else if space2 a b then 2
      else if space3 a b c then 3 else 0
  | String a (String b "") =>
      if asciiSpace a then 1 else if space2 a b then 2 else 0
  | String a "" => if asciiSpace a then 1 else 0
  | "" => 0
  end%nat.

(** The same for the white-space character a string ends with, on the
    string read from its end. *)
Definition space_width_back (s : string) : nat :=
  match s with
  | String a (String b (String c _)) =>
      if asciiSpace a then 1 else if space2 b a then 2
      else if space3 c b a then 3 else 0
  | String a (String b "") =>
      if asciiSpace a then 1 else if space2 b a then 2 else 0
  | String a "" => if asciiSpace a then 1 else 0
  | "" => 0
  end%nat.

Fixpoint trim_right (p : ascii -> bool) (s : string) : string :=
  match s with
  | "" => ""
  | String a s' =>
      match trim_right p s' with
      | "" => if p a then "" else String a ""
      | r => String a r
      end
  end.

(** [s] without the characters at its start that [width] measures;
    [skip] counts the bytes of a character still to be stepped over. *)
Fixpoint trim_start (width : string -> nat) (s : string) (skip : nat) : string :=
  match s with
  | "" => ""
  | String a s' =>
      match skip with
      | S k => trim_start width s' k
      | O =>
          match width s with
          | O => s
          | S k => trim_start width s' k
          end
      end
  end.

Definition reverse (s : string) : string :=
  string_of_list_ascii (rev (list_ascii_of_string s)).

(** [strings.TrimSpace(s)]: [s] without the white space at its start and
    at its end. *)
Definition TrimSpace (s : string) : string :=
  reverse (trim_start space_width_back (reverse (trim_start space_width s 0)) 0).

(** [strings.TrimRight(s, cutset)], for a cutset of ASCII bytes. *)
Definition TrimRight (s cutset : string) : string :=
  trim_right (fun a => contains_byte a cutset) s.

(** The pieces of [s] between its white-space characters, the empty
    pieces included. *)
Fixpoint split_spaces (s : string) (skip : nat) : list string :=
  match s with
  | "" => [""]
  | String a s' =>
      match skip with
      | S k => split_spaces s' k
      | O =>
          match space_width s with
          | O => cons_head a (split_spaces s' 0)
          | S k => "" :: split_spaces s' k
          end
      end
  end.

(** [strings.Fields(s)]: the maximal runs of characters that are not
    white space. *)
Definition Fields (s : string) : list string :=
  List.filter (fun f => negb (String.eqb f "")) (split_spaces s 0).

End strings.

Module strconv.

Definition digit (c : ascii) : option Z :=
  let n := Z.of_nat (nat_of_ascii c) in
  if (48 <=? n) && (n <=? 57) then Some (n - 48) else None.

Fixpoint digits (s : string) (acc : Z) : option Z :=
  match s with
  | "" => Some acc
  | String c s' =>
      match digit c with
      | Some d => digits s' (acc * 10 + d)
      | None => None
      end
  end.

(** [strconv.ParseUint(s, 10, 64)]: [None] is a syntax or range error. *)
Definition ParseUint (s : string) : option Z :=
  match s with
  | "" => None
  | _ => match digits s 0 with
         | Some n => if n <? 2 ^ 64 then Some n else None
         | None => None
         end
  end.

(** [strconv.ParseInt(s, 10, 64)]: an optional sign, then decimal digits,
    and the value has to fit an int64. [None] is the error result. *)
Definition ParseInt (s : string) : option Z :=
  match s with
  | "" => None
  | String c s' =>
      let neg := Ascii.eqb c "-" in
      let body := if Ascii.eqb c "+" || neg then s' else s in
      match ParseUint body with
      | None => None
      | Some un =>
          let cutoff := 2 ^ 63 in
          if negb neg && (cutoff <=? un) then None
          else if neg && (cutoff <? un) then None
          else Some (if neg then - un else un)
      end
  end.

(** [strconv.FormatInt(n, 10)], the text that [%d] prints for [n]. *)
Definition FormatInt (n : Z) : string := NilZero.string_of_int (Z.to_int n).

End strconv.


(** ** Results of Go calls *)

(** A Go [error] value; [option error] is Go's [error] with [None] for
    [nil]. *)
Inductive error : Type :=
| PathError (op path : string)   (* a failed [os.Stat] or [os.Open] *)
| ExecError (cmd : string)       (* a failed [exec.Command] *)
| DaemonError (msg : string)     (* an error of the docker client *)
| Errorf (msg : string).         (* [fmt.Errorf] and [errors.New] *)

(** A call either returns or stops the program with a run-time panic. *)
Inductive outcome (A : Type) : Type :=
| Returns (a : A)
| Panics (msg : string).
Arguments Returns {A} a.
Arguments Panics {A} msg.

(** ** The unpacked image on disk *)

Module os.

(** What a path names. A [File] carries the tokens [bufio.Scanner] yields
    for its content, that is its lines without their line ends; [NoAccess]
    is a file that exists and cannot be opened. *)
Inductive node : Type :=
| Dir
| File (lines : list string)
| NoAccess.

(** The file system, by clean path. *)
Abbreviation FS := (gmap string node).

(** [os.Stat(path)], its error only: every caller drops the file info. *)
Definition Stat (fs : FS) (path : string) : option error :=
  match path with
  | "" => Some (PathError "stat" path)
  | _ => match fs !! path with
         | Some _ => None
         | None => Some (PathError "stat" path)
         end
  end.

(** [os.Open(path)] followed by a scan of the whole file. A directory opens
    and then fails to read: the scanner yields nothing. *)
Definition Open (fs : FS) (path : string) : error + list string :=
  match fs !! path with
  | Some (File lines) => inr lines
  | Some Dir => inr []
  | Some NoAccess => inl (PathError "open" path)
  | None => inl (PathError "open" path)
  end.

End os.

Module filepath.

(** The elements of a clean path, with [out] the elements kept so far, the
    last one first: empty elements and [.] are dropped; [..] removes the
    element before it, is dropped at the root, and is kept at the start of
    a path that is not rooted. *)
Fixpoint clean_elems (rooted : bool) (elems out : list string) : list string :=
  match elems with
  | [] => rev out
  | e :: rest =>
      if String.eqb e "" || String.eqb e "." then clean_elems rooted rest out
      else if String.eqb e ".." then
        match out with
        | top :: out' =>
            if String.eqb top ".." then clean_elems rooted rest (e :: out)
            else clean_elems rooted rest out'
        | [] =>
            if rooted then clean_elems rooted rest out
            else clean_elems rooted rest [e]
        end
      else clean_elems rooted rest (e :: out)
  end.

Fixpoint join_elems (elems : list string) : string :=
  match elems with
  | [] => ""
  | [e] => e
  | e :: rest => e +:+ "/" +:+ join_elems rest
  end.

(** [filepath.Clean(path)]: the shortest path name equivalent to [path] by
    lexical processing. *)
Definition Clean (path : string) : string :=
  let rooted := strings.HasPrefix path "/" in
  let elems := clean_elems rooted (strings.Split path "/") [] in
  match (if rooted then "/" else "") +:+ join_elems elems with
  | "" => "."
  | cleaned => cleaned
  end.

(** [filepath.Join(dir, rel)]: the elements that are not empty, joined by
    a separator, and the result cleaned; the empty string when both are
    empty. *)
Definition Join (dir rel : string) : string :=
  match dir, rel with
  | "", "" => ""
  | "", _ => Clean rel
  | _, _ => Clean (dir +:+ "/" +:+ rel)
  end.

End filepath.

(** ** The data model *)

Module util.

Record PackageInfo : Type := mkPackageInfo { Version : string; Size : Z }.

#[export] Instance PackageInfo_eq_dec : EqDecision PackageInfo.
Proof. solve_decision. Defined.

(** [map[string]util.PackageInfo] *)
Abbreviation PackageMap := (gmap string PackageInfo).

(** The zero value [util.PackageInfo{}]. *)
Definition zero : PackageInfo := {| Version := ""; Size := 0 |}.

(** [info, ok := packages[name]; if !ok { info = util.PackageInfo{} }] *)
Definition lookup_or_zero (packages : PackageMap) (name : string) : PackageInfo :=
  default zero (packages !! name).

End util.

Module pkgutil.

(** Modelled from the spec: the declarations of [pkgutil.Layer] and
    [pkgutil.Image] are not among the sources; the fields are those of the
    spec's data model. [Image] is the handle of the registry image. *)
Record Layer : Type := mkLayer {
  Index : Z;
  LayerDigest : string;
  LayerFSPath : string;
  LayerSize : Z
}.

Record Image : Type := mkImage {
  Source : string;
  Digest : string;
  FSPath : string;
  Layers : list Layer;
  Image_ : string
}.

End pkgutil.

Import strings strconv os util pkgutil.

(** ** The apk analyzer of differs/apk_diff.go: the world file *)

Module ApkWorld.

(** APK package database location *)
Definition apkWorldFile : string := "etc/apk/world".

(** [parseApkInfo]: the map is updated in place in Go, and is returned with
    the package name here. [line[1]] is out of range when the split has one
    field. *)
Definition parseApkInfo (text currPackage : string) (packages : PackageMap)
  : outcome (string * PackageMap) :=
  let line := Split text "=" in
  match line !! 0%nat, line !! 1%nat with
  | Some currPackage, Some currPackageVersion =>
      let currPackageInfo := lookup_or_zero packages currPackage in
      Returns (currPackage,
               <[currPackage := {| Version := currPackageVersion;
                                   Size := Size currPackageInfo |}]> packages)
  | _, _ => Panics "index out of range"
  end.

(** [for scanner.Scan() { currPackage = parseApkInfo(...) }] *)
Fixpoint scan (lines : list string) (currPackage : string) (packages : PackageMap)
  : outcome (string * PackageMap) :=
  match lines with
  | [] => Returns (currPackage, packages)
  | text :: rest =>
      match parseApkInfo text currPackage packages with
      | Returns (curr, pkgs) => scan rest curr pkgs
      | Panics msg => Panics msg
      end
  end.

Definition readWorldFile (fs : FS) (root : string)
  : outcome (PackageMap * option error) :=
  let packages : PackageMap := ∅ in
  match Stat fs root with
  | Some err => Returns (packages, Some err)
  | None =>
      let worldFile := filepath.Join root apkWorldFile in
      match Stat fs worldFile with
      | Some _ => Returns (packages, None)
      | None =>
          match Open fs worldFile with
          | inr lines =>
              match scan lines "" packages with
              | Returns (_, pkgs) => Returns (pkgs, None)
              | Panics msg => Panics msg
              end
          | inl err => Returns (packages, Some err)
          end
      end
  end.

Definition ApkAnalyzer_Name : string := "ApkAnalyzer".

Definition ApkAnalyzer_getPackages (fs : FS) (image : Image)
  : outcome (PackageMap * option error) :=
  readWorldFile fs (FSPath image).

Definition ApkLayerAnalyzer_Name : string := "ApkLayerAnalyzer".

(** [for _, layer := range image.Layers], with [readStatusFile] given. *)
Fixpoint layers_loop (readStatusFile : string -> PackageMap * option error)
    (layers : list Layer) (packages : list PackageMap)
  : list PackageMap * option error :=
  match layers with
  | [] => (packages, None)
  | layer :: rest =>
      match readStatusFile (LayerFSPath layer) with
      | (_, Some err) => (packages, Some err)
      | (layerPackages, None) =>
          layers_loop readStatusFile rest (packages ++ [layerPackages])
      end
  end.

(** [ApkLayerAnalyzer.getPackages]. It calls [readStatusFile], a function
    of the package that is declared in another file: it is a parameter. *)
Definition ApkLayerAnalyzer_getPackages
    (readStatusFile : string -> PackageMap * option error)
    (fs : FS) (image : Image) : list PackageMap * option error :=
  let packages : list PackageMap := [] in
  match Stat fs (FSPath image) with
  | Some err => (packages, Some err)
  | None =>
      let worldFile := filepath.Join (FSPath image) apkWorldFile in
      match Stat fs worldFile with
      | Some _ => (packages, None)
      | None => layers_loop readStatusFile (Layers image) packages
      end
  end.

End ApkWorld.

(** ** The second definition of the apk analyzer: the installed database *)

Module ApkInstalled.

(** APK installed package database location *)
Definition apkInstalledPackagesFile : string := "lib/apk/db/installed".

Definition parseApkInfo (text currPackage : string) (packages : PackageMap)
  : string * PackageMap :=
  let line := Split text ":" in
  match line with
  | [key; value] =>
      if String.eqb key "P" then (value, packages)
      else if String.eqb key "V" then
        let currPackageInfo := lookup_or_zero packages currPackage in
        (currPackage,
         <[currPackage := {| Version := value;
                             Size := Size currPackageInfo |}]> packages)
      else if String.eqb key "I" then
        let currPackageInfo := lookup_or_zero packages currPackage in
        let size := match ParseInt value with
                    | Some size => size
                    | None => -1
                    end in
        (currPackage,
         <[currPackage := {| Version := Version currPackageInfo;
                             Size := size |}]> packages)
      else (currPackage, packages)
  | _ => (currPackage, packages)
  end.

Fixpoint scan (lines : list string) (currPackage : string) (packages : PackageMap)
  : string * PackageMap :=
  match lines with
  | [] => (currPackage, packages)
  | text :: rest =>
      let '(curr, pkgs) := parseApkInfo text currPackage packages in
      scan rest curr pkgs
  end.

Definition readWorldFile (fs : FS) (root : string) : PackageMap * option error :=
  let packages : PackageMap := ∅ in
  match Stat fs root with
  | Some err => (packages, Some err)
  | None =>
      let installedPackagesFile := filepath.Join root apkInstalledPackagesFile in
      match Stat fs installedPackagesFile with
      | Some _ => (packages, None)
      | None =>
          match Open fs installedPackagesFile with
          | inr lines => ((scan lines "" packages).2, None)
          | inl err => (packages, Some err)
          end
      end
  end.

Definition ApkAnalyzer_Name : string := "ApkAnalyzer".

Definition ApkAnalyzer_getPackages (fs : FS) (image : Image)
  : PackageMap * option error :=
  readWorldFile fs (FSPath image).

Definition ApkLayerAnalyzer_Name : string := "ApkLayerAnalyzer".

(** [ApkLayerAnalyzer.getPackages], with the same loop over the layers and
    the same call of [readStatusFile] as in differs/apk_diff.go. *)
Definition ApkLayerAnalyzer_getPackages
    (readStatusFile : string -> PackageMap * option error)
    (fs : FS) (image : Image) : list PackageMap * option error :=
  let packages : list PackageMap := [] in
  match Stat fs (FSPath image) with
  | Some err => (packages, Some err)
  | None =>
      let installedPackagesFile :=
        filepath.Join (FSPath image) apkInstalledPackagesFile in
      match Stat fs installedPackagesFile with
      | Some _ => (packages, None)
      | None => ApkWorld.layers_loop readStatusFile (Layers image) packages
      end
  end.

End ApkInstalled.

(** ** The dpkg status reader called by the apk layer analyzers *)

Module apt.

Section StatusFile.

(** The parser of one line of the dpkg status file: same shape as the apk
    parsers, its body is in differs/apt_diff.go. *)
Variable parseLine : string -> string -> PackageMap -> string * PackageMap.

(** Modelled from the spec: [readStatusFile] is declared in
    differs/apt_diff.go, which is not among the sources. The spec gives the
    database of the dpkg/apt family as [var/lib/dpkg/status] relative to the
    layer or flat root, and says that an absent package database is
    reported as an empty map, not as an error. *)
Definition dpkgStatusFile : string := "var/lib/dpkg/status".

Fixpoint scan (lines : list string) (currPackage : string) (packages : PackageMap)
  : string * PackageMap :=
  match lines with
  | [] => (currPackage, packages)
  | text :: rest =>
      let '(curr, pkgs) := parseLine text currPackage packages in
      scan rest curr pkgs
  end.

Definition readStatusFile (fs : FS) (root : string) : PackageMap * option error :=
  let packages : PackageMap := ∅ in
  match Stat fs root with
  | Some err => (packages, Some err)
  | None =>
      let statusFile := filepath.Join root dpkgStatusFile in
      match Stat fs statusFile with
      | Some _ => (packages, None)
      | None =>
          match Open fs statusFile with
          | inr lines => ((scan lines "" packages).2, None)
          | inl err => (packages, Some err)
          end
      end
  end.

End StatusFile.

End apt.

(** ** The package diff engine *)

Module PackageDiffEngine.

(** Modelled from the spec: [singleVersionDiff] and the map diff it calls
    are declared in files that are not among the sources. The spec's
    classification: a name in A but not in B goes to [Image1Only] with A's
    info, a name in B but not in A to [Image2Only] with B's info, and a name
    in both whose infos differ field-wise to [Modified] with both infos. The
    buckets are finite maps by name, so no order of emission is modelled. *)
Record PackageDiff : Type := mkPackageDiff {
  Image1Only : PackageMap;
  Image2Only : PackageMap;
  Modified : gmap string (PackageInfo * PackageInfo)
}.

Definition changed (ab : PackageInfo * PackageInfo)
  : option (PackageInfo * PackageInfo) :=
  if decide (ab.1 = ab.2) then None else Some ab.

Definition packageDiff (A B : PackageMap) : PackageDiff :=
  {| Image1Only := filter (fun kv => B !! kv.1 = None) A;
     Image2Only := filter (fun kv => A !! kv.1 = None) B;
     Modified := omap changed (map_zip A B) |}.

(** The envelope of a diff: the two sources, the analyzer and the payload. *)
Record DiffResult : Type := mkDiffResult {
  Image1 : string;
  Image2 : string;
  DiffType : string;
  Diff : PackageDiff
}.

Definition emptyDiff : PackageDiff :=
  {| Image1Only := ∅; Image2Only := ∅; Modified := ∅ |}.

Definition emptyResult : DiffResult :=
  {| Image1 := ""; Image2 := ""; DiffType := ""; Diff := emptyDiff |}.

(** Modelled from the spec: the backbone of the package-shape analyzers
    calls [getPackages] on both images and hands the two maps to the diff
    engine; an error of [getPackages] is the error of the diff. *)
Definition singleVersionDiff (name : string)
    (getPackages : Image -> outcome (PackageMap * option error))
    (image1 image2 : Image) : outcome (DiffResult * option error) :=
  match getPackages image1 with
  | Panics msg => Panics msg
  | Returns (_, Some err) => Returns (emptyResult, Some err)
  | Returns (pack1, None) =>
      match getPackages image2 with
      | Panics msg => Panics msg
      | Returns (_, Some err) => Returns (emptyResult, Some err)
      | Returns (pack2, None) =>
          Returns ({| Image1 := Source image1; Image2 := Source image2;
                      DiffType := name; Diff := packageDiff pack1 pack2 |},
                   None)
      end
  end.

End PackageDiffEngine.

(** [ApkAnalyzer.Diff] of differs/apk_diff.go *)
Definition ApkWorld_Diff (fs : FS) (image1 image2 : Image)
  : outcome (PackageDiffEngine.DiffResult * option error) :=
  PackageDiffEngine.singleVersionDiff ApkWorld.ApkAnalyzer_Name
    (ApkWorld.ApkAnalyzer_getPackages fs) image1 image2.


(** ** differs/rpm_diff.go *)

Module rpm.

Definition tab : string := String (ascii_of_nat 9) "".
Definition newline : string := String (ascii_of_nat 10) "".
Definition cr : string := String (ascii_of_nat 13) "".

(** RPM macros file location *)
Definition rpmMacros : string := "/usr/lib/rpm/macros".

(** RPM command to extract packages from the rpm database *)
Definition rpmCmd : list string :=
  [ "rpm"; "--nodigest"; "--nosignature"; "-qa"; "--qf";
    "%{NAME}" +:+ tab +:+ "%{VERSION}-%{RELEASE}" +:+ tab +:+ "%{SIZE}" +:+ newline ].

(** [for _, output := range rpmOutput] of [parsePackageData] *)
Fixpoint parse_loop (rpmOutput : list string) (packages : PackageMap)
  : PackageMap * option error :=
  match rpmOutput with
  | [] => (packages, None)
  | output :: rest =>
      match Split output tab with
      | [name; version; size] =>
          match ParseInt size with
          | None =>
              (packages, Some (Errorf ("error converting package size: " +:+ size)))
          | Some n =>
              parse_loop rest (<[name := {| Version := version; Size := n |}]> packages)
          end
      | _ => parse_loop rest packages   (* ignore the empty (last) line *)
      end
  end.

(** [parsePackageData] parses the package data of each line in
    [rpmOutput] and returns a map of packages. *)
Definition parsePackageData (rpmOutput : list string) : PackageMap * option error :=
  parse_loop rpmOutput ∅.

(** *** The world outside the program

    The gate, the docker daemon and the host's rpm binary are collaborators.
    Every interaction is recorded as an event, and the environment decides
    its result by the number of interactions made so far. *)

(** What [lockfile.TryLock] returns: [nil], a [lockfile.TemporaryError], or
    any other error. *)
Inductive TryLockResult : Type := LockOk | LockTemporary | LockFatal.

Inductive event : Type :=
| EvMutexLock                        (* daemonMutex.Lock() *)
| EvMutexUnlock                      (* daemonMutex.Unlock() *)
| EvGetLockfile (ok : bool)          (* lockfile.New *)
| EvTryLock (r : TryLockResult)      (* lock.TryLock() *)
| EvSleep (seconds : Z)              (* time.Sleep *)
| EvFileUnlock (ok : bool)           (* lock.Unlock() *)
| EvNewClient (ok : bool)            (* godocker.NewClientFromEnv *)
| EvDaemonImage (found : bool)       (* daemon.Image(tag) *)
| EvDaemonWrite (ok : bool)          (* daemon.Write(tag, img) *)
| EvRemoveImage (name : string)
| EvCreateContainer (ok : bool)
| EvStartContainer (ok : bool)
| EvWaitContainer (ok : bool)
| EvLogs (ok : bool)
| EvRemoveContainer (id : string)
| EvExec (args : list string) (ok : bool).

#[export] Instance TryLockResult_eq_dec : EqDecision TryLockResult.
Proof. solve_decision. Defined.

#[export] Instance event_eq_dec : EqDecision event.
Proof. solve_decision. Defined.

Record Env : Type := mkEnv {
  env_fs : FS;
  env_getLockfile : nat -> bool;
  env_tryLock : nat -> TryLockResult;
  env_fileUnlock : nat -> bool;
  env_lockFileLeft : nat -> bool;    (* a failed call left the lock file owned *)
  env_newClient : nat -> bool;
  env_collisions : nat -> nat;       (* random tags drawn that are in use *)
  env_tag : nat -> string;           (* [tag.Name()] of the tag that is free *)
  env_daemonWrite : nat -> bool;
  env_createContainer : nat -> option string;
  env_startContainer : nat -> bool;
  env_waitContainer : nat -> option Z;
  env_logs : nat -> option (string * string);
  env_exec : nat -> list string -> option string
}.

(** The state of the gate and the interactions so far, oldest first.
    [mutex]: [daemonMutex] is locked; [flock]: this process owns the lock
    file. *)
Record World : Type := mkWorld {
  mutex : bool;
  flock : bool;
  trace : list event
}.

Definition now (w : World) : nat := length (trace w).

(** A run returns, panics, or blocks for ever on the mutex (no other
    goroutine is modelled that could release it). *)
Inductive Run (A : Type) : Type :=
| Ret (a : A) (w : World)
| Crash (msg : string) (w : World)
| Blocked (w : World).
Arguments Ret {A} a w.
Arguments Crash {A} msg w.
Arguments Blocked {A} w.

Definition M (A : Type) : Type := World -> Run A.

#[export] Instance M_ret : MRet M := fun A a w => Ret a w.

#[export] Instance M_bind : MBind M := fun A B f m w =>
  match m w with
  | Ret a w' => f a w'
  | Crash msg w' => Crash msg w'
  | Blocked w' => Blocked w'
  end.


Definition emit (e : event) (w : World) : World :=
  {| mutex := mutex w; flock := flock w; trace := trace w ++ [e] |}.

(** [defer d] in front of [body]: [d] runs when [body] returns or panics. *)
Definition defer {A} (d : M unit) (body : M A) : M A := fun w =>
  match body w with
  | Ret a w' => match d w' with
                | Ret _ w'' => Ret a w''
                | Crash msg w'' => Crash msg w''
                | Blocked w'' => Blocked w''
                end
  | Crash msg w' => match d w' with
                    | Ret _ w'' => Crash msg w''
                    | Crash msg' w'' => Crash msg' w''
                    | Blocked w'' => Blocked w''
                    end
  | Blocked w' => Blocked w'
  end.

(** [sync.Mutex]: [Lock] waits while the mutex is locked, [Unlock] of an
    unlocked mutex is a fatal error. *)
Definition mutex_Lock : M unit := fun w =>
  if mutex w then Blocked w
  else Ret tt {| mutex := true; flock := flock w; trace := trace w ++ [EvMutexLock] |}.

Definition mutex_Unlock : M unit := fun w =>
  if mutex w
  then Ret tt {| mutex := false; flock := flock w; trace := trace w ++ [EvMutexUnlock] |}
  else Crash "sync: unlock of unlocked mutex" w.

Section Program.

Variable env : Env.

(** [time.Sleep] *)
Definition Sleep (seconds : Z) : M unit := fun w => Ret tt (emit (EvSleep seconds) w).

(** [getLockfile]: [lockfile.New] on the lock path in the temporary
    directory; [true] when it returns no error. *)
Definition getLockfile : M bool := fun w =>
  let ok := env_getLockfile env (now w) in
  Ret ok (emit (EvGetLockfile ok) w).

(** [lock.TryLock()]. After [nil] this process owns the lock file; after a
    temporary error (the file is owned by another process, or is gone) it
    does not. Any other error can come before the library touches the lock
    file (it first creates a temporary pid file) or after it has removed
    the owner's file to link it again: the environment says whether the
    process owns the lock file afterwards. *)
Definition TryLock : M TryLockResult := fun w =>
  let r := env_tryLock env (now w) in
  Ret r {| mutex := mutex w;
           flock := match r with
                    | LockOk => true
                    | LockTemporary => false
                    | LockFatal => env_lockFileLeft env (now w)
                    end;
           trace := trace w ++ [EvTryLock r] |}.

(** [lock.Unlock()]: [true] when it returns no error, and the lock file is
    then removed. It fails when the file is not owned by the process (it
    is gone, or another process has it) or when the file cannot be read or
    removed: the environment says whether a lock file that was owned is
    still owned afterwards. *)
Definition file_Unlock : M bool := fun w =>
  let ok := env_fileUnlock env (now w) in
  Ret ok {| mutex := mutex w;
            flock := if ok then false
                     else flock w && env_lockFileLeft env (now w);
            trace := trace w ++ [EvFileUnlock ok] |}.

(** How the attempt loop of [lock] is left: by the [return] inside it, or
    at its end with the value of [err]. *)
Inductive loop_exit : Type :=
| Returned (err : error)
| Finished (err : TryLockResult).

(** [for i := 0; i < 10; i++ { if err = lock.TryLock(); err != nil {...} }]
    with [n] iterations to go. *)
Fixpoint lock_loop (n : nat) (err : TryLockResult) : M loop_exit :=
  match n with
  | O => mret (Finished err)
  | S n' =>
      r ← TryLock;
      match r with
      | LockOk => lock_loop n' LockOk
      | LockTemporary => Sleep 2;; lock_loop n' LockTemporary
      | LockFatal =>
          mutex_Unlock;;
          mret (Returned (Errorf "[lock] error acquiring lock"))
      end
  end.

(** [lock] acquires the containerdiff file-system lock. *)
Definition lock : M (option error) :=
  mutex_Lock;;
  ok ← getLockfile;
  if ok : bool then
    x ← lock_loop 10 LockOk;
    match x with
    | Returned err => mret (Some err)
    | Finished LockOk => mret None
    | Finished _ =>
        mutex_Unlock;;
        mret (Some (Errorf "[lock] error acquiring lock: too many tries"))
    end
  else
    mutex_Unlock;;
    mret (Some (Errorf "[lock] cannot init lockfile")).

(** [unlock] releases the containerdiff file-system lock. *)
Definition unlock : M (option error) :=
  ok ← getLockfile;
  if ok : bool then
    released ← file_Unlock;
    if released : bool then
      mutex_Unlock;;
      mret None
    else mret (Some (Errorf "[unlock] error releasing lock"))
  else mret (Some (Errorf "[unlock] cannot init lockfile")).

(** *** The docker daemon and the host's rpm binary *)

Definition NewClientFromEnv : M bool := fun w =>
  let ok := env_newClient env (now w) in
  Ret ok (emit (EvNewClient ok) w).

(** The lookups [daemon.Image(tag)] that find the random tag in use. *)
Fixpoint draw_tags (collisions : nat) : M unit :=
  match collisions with
  | O => fun w => Ret tt (emit (EvDaemonImage false) w)
  | S k => fun w => draw_tags k (emit (EvDaemonImage true) w)
  end.

(** [generateValidImageTag]: random image names until one is not in use.
    The environment says how many names drawn are in use, so the loop ends,
    and gives the name of the tag that is free; [rpm_test_image:] followed
    by letters is always a valid tag. *)
Definition generateValidImageTag : M string := fun w =>
  let tag := env_tag env (now w) in
  (draw_tags (env_collisions env (now w));; mret tag) w.

Definition daemon_Write (tag image : string) : M bool := fun w =>
  let ok := env_daemonWrite env (now w) in
  Ret ok (emit (EvDaemonWrite ok) w).

(** [loadImageToDaemon] loads the image specified to the docker daemon. *)
Definition loadImageToDaemon (img : string) : M (error + string) :=
  tag ← generateValidImageTag;
  ok ← daemon_Write tag img;
  if ok : bool then mret (inr tag)
  else mret (inl (DaemonError "daemon.Write")).

Definition RemoveImage (name : string) : M unit := fun w =>
  Ret tt (emit (EvRemoveImage name) w).

Definition CreateContainer (entrypoint : list string) (image : string)
  : M (option string) := fun w =>
  let r := env_createContainer env (now w) in
  Ret r (emit (EvCreateContainer (bool_decide (is_Some r))) w).

Definition RemoveContainer (id : string) : M unit := fun w =>
  Ret tt (emit (EvRemoveContainer id) w).

Definition StartContainer (id : string) : M bool := fun w =>
  let ok := env_startContainer env (now w) in
  Ret ok (emit (EvStartContainer ok) w).

Definition WaitContainer (id : string) : M (option Z) := fun w =>
  let r := env_waitContainer env (now w) in
  Ret r (emit (EvWaitContainer (bool_decide (is_Some r))) w).

(** [client.Logs]: the container's standard output and standard error. *)
Definition Logs (id : string) : M (option (string * string)) := fun w =>
  let r := env_logs env (now w) in
  Ret r (emit (EvLogs (bool_decide (is_Some r))) w).

(** [exec.Command(args...).Output()] *)
Definition exec_Output (args : list string) : M (option string) := fun w =>
  let r := env_exec env (now w) args in
  Ret r (emit (EvExec args (bool_decide (is_Some r))) w).

(** The part of [rpmDataFromContainer] after the image is loaded and the
    two deferred calls are registered. *)
Definition run_query (imageName : string) : M (PackageMap * option error) :=
  let packages : PackageMap := ∅ in
  c ← CreateContainer rpmCmd imageName;
  match c with
  | None => mret (packages, Some (DaemonError "CreateContainer"))
  | Some id =>
      defer (RemoveContainer id)
        (started ← StartContainer id;
         if started : bool then
           code ← WaitContainer id;
           match code with
           | None => mret (packages, Some (DaemonError "WaitContainer"))
           | Some exitCode =>
               logs ← Logs id;
               match logs with
               | None => mret (packages, Some (DaemonError "Logs"))
               | Some (outBuf, errBuf) =>
                   if decide (exitCode ≠ 0)
                   then mret (packages,
                              Some (Errorf ("non-zero exit code " +:+
                                            FormatInt exitCode +:+ ": " +:+
                                            errBuf)))
                   else mret (parsePackageData (Split outBuf newline))
               end
           end
         else mret (packages, Some (DaemonError "StartContainer")))
  end.

(** [rpmDataFromContainer] runs image in a container, queries the data of
    installed rpm packages and returns a map of packages. *)
Definition rpmDataFromContainer (image : string) : M (PackageMap * option error) :=
  let packages : PackageMap := ∅ in
  client ← NewClientFromEnv;
  if client : bool then
    locked ← lock;
    match locked with
    | Some err => mret (packages, Some err)
    | None =>
        loaded ← loadImageToDaemon image;
        match loaded with
        | inl err => mret (packages, Some (Errorf "Error loading image"))
        | inr imageName =>
            unlock;;
            defer (RemoveImage imageName) (run_query imageName)
        end
    end
  else mret (packages, Some (DaemonError "NewClientFromEnv")).

(** The scan of the macros file in [rpmEnvCheck]. *)
Fixpoint macros_loop (rootFSPath : string) (lines : list string)
  : M (string * option error) :=
  match lines with
  | [] => mret ("", Some (Errorf "Failed parsing macros file"))
  | text :: rest =>
      let line := TrimSpace text in
      if HasPrefix line "%_dbpath" then
        match Fields line with
        | _ :: macro :: _ =>
            out ← exec_Output ["rpm"; "-E"; macro];
            match out with
            | None => mret ("", Some (ExecError "rpm -E"))
            | Some out =>
                let dbPath := TrimRight out (cr +:+ newline) in
                mret (dbPath, Stat (env_fs env) (filepath.Join rootFSPath dbPath))
            end
        | _ => mret ("", Some (Errorf "Failed parsing macros file"))
        end
      else macros_loop rootFSPath rest
  end.

(** [rpmEnvCheck] checks there is an rpm binary in the host and tries to
    get the RPM database path from the macros file in the image rootfs. *)
Definition rpmEnvCheck (rootFSPath : string) : M (string * option error) :=
  version ← exec_Output ["rpm"; "--version"];
  match version with
  | None => mret ("", Some (ExecError "rpm --version"))
  | Some _ =>
      match Open (env_fs env) (filepath.Join rootFSPath rpmMacros) with
      | inl err => mret ("", Some err)
      | inr lines => macros_loop rootFSPath lines
      end
  end.

(** [rpmDataFromFS] runs a local rpm binary to query the image rpmdb and
    returns a map of installed packages. *)
Definition rpmDataFromFS (fsPath dbPath : string) : M (PackageMap * option error) :=
  let packages : PackageMap := ∅ in
  match Stat (env_fs env) (filepath.Join fsPath dbPath) with
  | None =>
      let cmdArgs := (["--root"; fsPath; "--dbpath"; dbPath] ++ tail rpmCmd)%list in
      out ← exec_Output ("rpm" :: cmdArgs);
      match out with
      | None => mret (packages, Some (ExecError "rpm"))
      | Some out => mret (parsePackageData (Split out newline))
      end
  | Some _ => mret (packages, None)
  end.

(** [rpmDataFromImageFS] runs a local rpm binary, if any, to query the
    image rpmdb and returns a map of installed packages. *)
Definition rpmDataFromImageFS (image : Image) : M (PackageMap * option error) :=
  '(dbPath, err) ← rpmEnvCheck (FSPath image);
  match err with
  | Some err => mret (∅, Some err)
  | None => rpmDataFromFS (FSPath image) dbPath
  end.

Definition RPMAnalyzer_Name : string := "RPMAnalyzer".

(** [RPMAnalyzer.getPackages] returns a map of installed rpm package on
    image. *)
Definition RPMAnalyzer_getPackages (image : Image) : M (PackageMap * option error) :=
  let path := FSPath image in
  let packages : PackageMap := ∅ in
  match Stat (env_fs env) path with
  | Some err => mret (packages, Some err)
  | None =>
      (* try to find the rpm binary in bin/ or usr/bin/ *)
      match Stat (env_fs env) (filepath.Join path "bin/rpm"),
            Stat (env_fs env) (filepath.Join path "usr/bin/rpm") with
      | Some _, Some _ => mret (packages, None)
      | _, _ =>
          '(packages, err) ← rpmDataFromImageFS image;
          match err with
          | Some _ => rpmDataFromContainer (Image_ image)
          | None => mret (packages, None)
          end
      end
  end.

End Program.

End rpm.

(** ** The layer analyzer of rpm (differs/rpm_diff.go) *)

Module rpm_layers.

Import rpm.

Section Program.

Variable env : Env.

(** The registry library is outside the program: [random.Image(0, 0)],
    [image.Layers()] and [mutate.AppendLayers(base, layer)], each with its
    error result. Images and layers are handles, as [Image_] is. *)
Variable random_Image : error + string.
Variable image_Layers : string -> error + list string.
Variable mutate_AppendLayers : string -> string -> error + string.

Definition RPMLayerAnalyzer_Name : string := "RPMLayerAnalyzer".

(** [for _, layer := range image.Layers] of [rpmDataFromLayerFS]. *)
Fixpoint layer_fs_loop (dbPath : string) (layers : list Layer)
    (packages : list PackageMap) : M (list PackageMap * option error) :=
  match layers with
  | [] => mret (packages, None)
  | layer :: rest =>
      '(layerPackages, err) ← rpmDataFromFS env (LayerFSPath layer) dbPath;
      match err with
      | Some err => mret (packages, Some err)
      | None => layer_fs_loop dbPath rest (packages ++ [layerPackages])
      end
  end.

(** [rpmDataFromLayerFS] runs a local rpm binary, if any, to query the
    layer rpmdb and returns an array of maps of installed packages. *)
Definition rpmDataFromLayerFS (image : Image) : M (list PackageMap * option error) :=
  let packages : list PackageMap := [] in
  '(dbPath, err) ← rpmEnvCheck env (FSPath image);
  match err with
  | Some err => mret (packages, Some err)
  | None => layer_fs_loop dbPath (Layers image) packages
  end.

(** [for _, layer := range layers] of [rpmDataFromLayeredContainers]: the
    layers are appended one by one to [tmpImage], and the rpm database is
    queried on each iteration. *)
Fixpoint containers_loop (layers : list string) (tmpImage : string)
    (packages : list PackageMap) : M (list PackageMap * option error) :=
  match layers with
  | [] => mret (packages, None)
  | layer :: rest =>
      match mutate_AppendLayers tmpImage layer with
      | inl err => mret (packages, Some err)
      | inr tmpImage =>
          '(layerPackages, err) ← rpmDataFromContainer env tmpImage;
          match err with
          | Some err => mret (packages, Some err)
          | None => containers_loop rest tmpImage (packages ++ [layerPackages])
          end
      end
  end.

(** [rpmDataFromLayeredContainers] runs a tmp image in a container for each
    layer, queries the data of installed rpm packages and returns an array
    of maps of packages. *)
Definition rpmDataFromLayeredContainers (image : string)
  : M (list PackageMap * option error) :=
  let packages : list PackageMap := [] in
  match random_Image with
  | inl err => mret (packages, Some err)
  | inr tmpImage =>
      match image_Layers image with
      | inl err => mret (packages, Some err)
      | inr layers => containers_loop layers tmpImage packages
      end
  end.

(** [RPMLayerAnalyzer.getPackages] returns an array of maps of installed
    rpm packages on each layer. *)
Definition RPMLayerAnalyzer_getPackages (image : Image)
  : M (list PackageMap * option error) :=
  let path := FSPath image in
  let packages : list PackageMap := [] in
  match Stat (env_fs env) path with
  | Some err => mret (packages, Some err)
  | None =>
      (* try to find the rpm binary in bin/ or usr/bin/ *)
      match Stat (env_fs env) (filepath.Join path "bin/rpm"),
            Stat (env_fs env) (filepath.Join path "usr/bin/rpm") with
      | Some _, Some _ => mret (packages, None)
      | _, _ =>
          '(packages, err) ← rpmDataFromLayerFS image;
          match err with
          | Some _ => rpmDataFromLayeredContainers (Image_ image)
          | None => mret (packages, None)
          end
      end
  end.

End Program.

End rpm_layers.

(** * The vocabulary of the properties and the scenarios *)

(** A world file with a bare package name. *)
Definition bare_world : FS :=
  {[ "/img" := Dir;
     "/img/etc/apk/world" := File ["musl=1.2.5-r0"; "busybox"] ]}.

(** An installed database with an epoch in the version and a size that is
    not a number. *)
Definition epoch_db : FS :=
  {[ "/img" := Dir;
     "/img/lib/apk/db/installed" := File ["P:musl"; "V:1:2.3-r0"; "I:12kB"] ]}.

(** The two images of the apk world diff scenario: what their databases
    yield, and the world files on disk. *)
Definition worldA : PackageMap :=
  {[ "musl" := {| Version := "1.2.5-r0"; Size := 0 |};
     "busybox" := {| Version := "1.36.1-r29"; Size := 0 |} ]}.

Definition worldB : PackageMap :=
  {[ "musl" := {| Version := "1.2.5-r1"; Size := 0 |};
     "curl" := {| Version := "8.8.0-r0"; Size := 0 |} ]}.

Definition scenario_fs : FS :=
  {[ "/a" := Dir;
     "/a/etc/apk/world" := File ["musl=1.2.5-r0"; "busybox=1.36.1-r29"];
     "/b" := Dir;
     "/b/etc/apk/world" := File ["musl=1.2.5-r1"; "curl=8.8.0-r0"] ]}.

Definition imageA : Image :=
  {| Source := "a"; Digest := ""; FSPath := "/a"; Layers := []; Image_ := "a" |}.

Definition imageB : Image :=
  {| Source := "b"; Digest := ""; FSPath := "/b"; Layers := []; Image_ := "b" |}.

(** An environment in which every collaborator succeeds at once and the
    host has no rpm binary. *)
Definition quiet_env (fs : FS) : rpm.Env :=
  {| rpm.env_fs := fs;
     rpm.env_getLockfile := fun _ => true;
     rpm.env_tryLock := fun _ => rpm.LockOk;
     rpm.env_fileUnlock := fun _ => true;
     rpm.env_lockFileLeft := fun _ => true;
     rpm.env_newClient := fun _ => true;
     rpm.env_collisions := fun _ => O;
     rpm.env_tag := fun _ => "rpm_test_image:abcdefghijkl";
     rpm.env_daemonWrite := fun _ => true;
     rpm.env_createContainer := fun _ => Some "c0";
     rpm.env_startContainer := fun _ => true;
     rpm.env_waitContainer := fun _ => Some 0;
     rpm.env_logs := fun _ => Some ("", "");
     rpm.env_exec := fun _ _ => None |}.

(** The gate is free and nothing has happened yet. *)
Definition idle : rpm.World :=
  {| rpm.mutex := false; rpm.flock := false; rpm.trace := [] |}.

(** An image unpacked at [/img], without layers. *)
Definition bare_image : Image :=
  {| Source := "scratch"; Digest := ""; FSPath := "/img"; Layers := [];
     Image_ := "scratch" |}.




(** An Alpine image of one layer: the apk databases are in the flat root
    and in the layer, and there is no dpkg status file anywhere. *)
Definition layered_fs : FS :=
  {[ "/img" := Dir;
     "/img/etc/apk/world" := File ["musl=1.2.5-r0"];
     "/img/lib/apk/db/installed" := File ["P:musl"; "V:1.2.5-r0"; "I:634880"];
     "/layer0" := Dir;
     "/layer0/etc/apk/world" := File ["musl=1.2.5-r0"];
     "/layer0/lib/apk/db/installed" := File ["P:musl"; "V:1.2.5-r0"; "I:634880"] ]}.

Definition layered_image : Image :=
  {| Source := "alpine"; Digest := ""; FSPath := "/img";
     Layers := [ {| Index := 0; LayerDigest := ""; LayerFSPath := "/layer0";
                    LayerSize := 0 |} ];
     Image_ := "alpine" |}.

(** A line of three tab-separated fields. *)
Definition row (name version size : string) : string :=
  name +:+ rpm.tab +:+ version +:+ rpm.tab +:+ size.

(** No line of [rpmOutput] has three fields of which the first is [name]. *)
Definition no_entry (rpmOutput : list string) (name : string) : Prop :=
  forall line version size,
    In line rpmOutput -> Split line rpm.tab <> [name; version; size].

(** [info] is read off the last line of [rpmOutput] that has three fields
    of which the first is [name]. *)
Definition last_entry (rpmOutput : list string) (name : string)
    (info : PackageInfo) : Prop :=
  exists pre line post size,
    rpmOutput = (pre ++ line :: post)%list /\
    Split line rpm.tab = [name; Version info; size] /\
    ParseInt size = Some (Size info) /\
    no_entry post name.

(** The reading of "one entry per line": every line of three fields has
    its own entry in the map returned. *)
Definition one_entry_per_line : Prop :=
  forall (rpmOutput : list string) (packages : PackageMap),
    rpm.parsePackageData rpmOutput = (packages, None) ->
    forall line name version size,
      In line rpmOutput ->
      Split line rpm.tab = [name; version; size] ->
      exists n, ParseInt size = Some n /\
                packages !! name = Some {| Version := version; Size := n |}.

(** Two installed packages of one name, as [rpm -qa] prints them for
    kernels, and the empty last line. *)
Definition duplicate_rows : list string :=
  [ row "kernel" "5.14.0-1" "100"; row "kernel" "5.14.0-2" "200"; "" ].

Section GateVocabulary.

Import rpm.

(** The number of calls of [TryLock] among the events. *)
Fixpoint tries (es : list event) : nat :=
  match es with
  | [] => O
  | EvTryLock _ :: es' => S (tries es')
  | _ :: es' => tries es'
  end.

(** The events of the attempt loop with [n] iterations to go, and how the
    loop is left. *)
Inductive loop_trace : nat -> TryLockResult -> list event -> loop_exit -> Prop :=
| loop_end err :
    loop_trace 0 err [] (Finished err)
| loop_ok n err es x :
    loop_trace n LockOk es x ->
    loop_trace (S n) err (EvTryLock LockOk :: es) x
| loop_busy n err es x :
    loop_trace n LockTemporary es x ->
    loop_trace (S n) err (EvTryLock LockTemporary :: EvSleep 2 :: es) x
| loop_fatal n err :
    loop_trace (S n) err [EvTryLock LockFatal; EvMutexUnlock]
      (Returned (Errorf "[lock] error acquiring lock")).

(** The events of [lock] after [daemonMutex.Lock()], with its result. *)
Inductive lock_tail : list event -> option error -> Prop :=
| lock_no_lockfile :
    lock_tail [EvGetLockfile false; EvMutexUnlock]
      (Some (Errorf "[lock] cannot init lockfile"))
| lock_acquired es :
    loop_trace 10 LockOk es (Finished LockOk) ->
    lock_tail (EvGetLockfile true :: es) None
| lock_too_many es e :
    loop_trace 10 LockOk es (Finished e) -> e <> LockOk ->
    lock_tail (EvGetLockfile true :: es ++ [EvMutexUnlock])
      (Some (Errorf "[lock] error acquiring lock: too many tries"))
| lock_fatal es err :
    loop_trace 10 LockOk es (Returned err) ->
    lock_tail (EvGetLockfile true :: es) (Some err).

(** The pace of the attempts: a temporary failure is followed at once by a
    sleep of two seconds, nothing else sleeps, and a fatal failure is
    followed by the release of the mutex and by nothing more. *)
Definition well_paced (es : list event) : Prop :=
  (forall i : nat,
     es !! i = Some (EvTryLock LockTemporary) -> es !! S i = Some (EvSleep 2)) /\
  (forall (i : nat) (s : Z),
     es !! i = Some (EvSleep s) ->
     s = 2 /\ exists j : nat, i = S j /\ es !! j = Some (EvTryLock LockTemporary)) /\
  (forall i : nat,
     es !! i = Some (EvTryLock LockFatal) ->
     es !! S i = Some EvMutexUnlock /\ length es = S (S i)).

(** An event of the gate that is neither an attempt nor a sleep. *)
Definition neutral (e : event) : Prop :=
  match e with
  | EvTryLock _ | EvSleep _ => False
  | _ => True
  end.

End GateVocabulary.

(** An environment in which the lock file is busy for three attempts. *)
Definition busy_env : rpm.Env :=
  {| rpm.env_fs := ∅;
     rpm.env_getLockfile := fun _ => true;
     rpm.env_tryLock := fun t => if (t <? 7)%nat then rpm.LockTemporary else rpm.LockOk;
     rpm.env_fileUnlock := fun _ => true;
     rpm.env_lockFileLeft := fun _ => true;
     rpm.env_newClient := fun _ => true;
     rpm.env_collisions := fun _ => O;
     rpm.env_tag := fun _ => "rpm_test_image:abcdefghijkl";
     rpm.env_daemonWrite := fun _ => true;
     rpm.env_createContainer := fun _ => Some "c0";
     rpm.env_startContainer := fun _ => true;
     rpm.env_waitContainer := fun _ => Some 0;
     rpm.env_logs := fun _ => Some ("", "");
     rpm.env_exec := fun _ _ => None |}.

(** The gate is held. *)
Definition held : rpm.World :=
  {| rpm.mutex := true; rpm.flock := true; rpm.trace := [] |}.

(** The daemon refuses the image. *)
Definition load_fails_env : rpm.Env :=
  {| rpm.env_fs := ∅;
     rpm.env_getLockfile := fun _ => true;
     rpm.env_tryLock := fun _ => rpm.LockOk;
     rpm.env_fileUnlock := fun _ => true;
     rpm.env_lockFileLeft := fun _ => true;
     rpm.env_newClient := fun _ => true;
     rpm.env_collisions := fun _ => O;
     rpm.env_tag := fun _ => "rpm_test_image:abcdefghijkl";
     rpm.env_daemonWrite := fun _ => false;
     rpm.env_createContainer := fun _ => Some "c0";
     rpm.env_startContainer := fun _ => true;
     rpm.env_waitContainer := fun _ => Some 0;
     rpm.env_logs := fun _ => Some ("", "");
     rpm.env_exec := fun _ _ => None |}.

(** The image loads, and [lock.Unlock()] then fails. *)
Definition unlock_fails_env : rpm.Env :=
  {| rpm.env_fs := ∅;
     rpm.env_getLockfile := fun _ => true;
     rpm.env_tryLock := fun _ => rpm.LockOk;
     rpm.env_fileUnlock := fun _ => false;
     rpm.env_lockFileLeft := fun _ => true;
     rpm.env_newClient := fun _ => true;
     rpm.env_collisions := fun _ => O;
     rpm.env_tag := fun _ => "rpm_test_image:abcdefghijkl";
     rpm.env_daemonWrite := fun _ => true;
     rpm.env_createContainer := fun _ => Some "c0";
     rpm.env_startContainer := fun _ => true;
     rpm.env_waitContainer := fun _ => Some 0;
     rpm.env_logs := fun _ => Some ("", "");
     rpm.env_exec := fun _ _ => None |}.

(** The loop of [lock] when every attempt succeeds. *)
Definition ten_attempts : list rpm.event :=
  repeat (rpm.EvTryLock rpm.LockOk) 10.

(** ** More vocabulary: what the readers record *)

(** [info] is what the world-file reader records for [name]: the second
    field of the last line whose first field is [name], and no size. *)
Definition world_entry (lines : list string) (name : string)
    (info : PackageInfo) : Prop :=
  exists pre line post version rest,
    lines = (pre ++ line :: post)%list /\
    Split line "=" = name :: version :: rest /\
    info = {| Version := version; Size := 0 |} /\
    forall l, In l post -> head (Split l "=") <> Some name.

(** A world file of three packages, one of them pinned twice. *)
Definition pinned_world : FS :=
  {[ "/img" := Dir;
     "/img/etc/apk/world" :=
       File ["musl=1.2.5-r0"; "curl=8.8.0-r0"; "musl=1.2.5-r1"; "zlib=1.3=r1"] ]}.

(** No entry of [packages] has a size. *)
Definition sizeless (packages : PackageMap) : Prop :=
  forall name info, packages !! name = Some info -> Size info = 0.

(** A line the installed-database parser acts on: two fields, the first of
    them [P], [V] or [I]. *)
Definition relevant (line : string) : bool :=
  match Split line ":" with
  | [key; _] => String.eqb key "P" || String.eqb key "V" || String.eqb key "I"
  | _ => false
  end.

(** The values of an int64. *)
Definition int64 (n : Z) : Prop := - 2 ^ 63 <= n < 2 ^ 63.

(** Every size in [packages] is an int64. *)
Definition sizes_fit (packages : PackageMap) : Prop :=
  forall name info, packages !! name = Some info -> int64 (Size info).

(** An installed database as apk writes it: records of several keys,
    separated by empty lines. *)
Definition alpine_db : FS :=
  {[ "/img" := Dir;
     "/img/lib/apk/db/installed" :=
       File [ "C:Q1abc="; "P:musl"; "V:1.2.5-r0"; "A:x86_64"; "S:411323";
              "I:634880"; "T:the musl c library"; "t:1709000000"; "";
              "P:busybox"; "V:1.36.1-r29"; "I:925696"; "" ] ]}.

(** The output of the rpm query for [entries] of name, version and size:
    one line per entry in the format of [rpmCmd], each ended by a newline. *)
Fixpoint render_rows (entries : list (string * string * string)) : string :=
  match entries with
  | [] => ""
  | (name, version, size) :: rest =>
      row name version size +:+ rpm.newline +:+ render_rows rest
  end.

(** A field of the query output: no tab and no newline in it. *)
Definition plain (field : string) : Prop :=
  contains_byte (ascii_of_nat 9) field = false /\
  contains_byte (ascii_of_nat 10) field = false.

(** The fields of an entry are plain and its size is a number. *)
Definition well_formed_entry (entry : string * string * string) : Prop :=
  plain entry.1.1 /\ plain entry.1.2 /\ plain entry.2 /\
  is_Some (ParseInt entry.2).

(** Three packages as the query prints them. *)
Definition three_packages : list (string * string * string) :=
  [ ("bash", "5.1.8-9.el9", "7738634");
    ("glibc", "2.34-100.el9", "6468101");
    ("zlib", "1.2.11-40.el9", "202715") ].

Section ContainerVocabulary.

Import rpm.

(** The events of the gate, of the host's rpm binary, and of the daemon. *)
Definition gate_event (e : event) : Prop :=
  match e with
  | EvMutexLock | EvMutexUnlock | EvGetLockfile _ | EvTryLock _ | EvSleep _
  | EvFileUnlock _ => True
  | _ => False
  end.

Definition host_event (e : event) : Prop :=
  match e with
  | EvExec _ _ => True
  | _ => False
  end.

Definition daemon_event (e : event) : Prop :=
  match e with
  | EvNewClient _ | EvDaemonImage _ | EvDaemonWrite _ | EvRemoveImage _
  | EvCreateContainer _ | EvStartContainer _ | EvWaitContainer _ | EvLogs _
  | EvRemoveContainer _ => True
  | _ => False
  end.

(** [m] always returns, leaves the gate as it found it, and adds at most
    [n] events, all of them in [P]. *)
Definition within {A : Type} (P : event -> Prop) (n : nat) (m : M A) : Prop :=
  forall w,
    exists a w' es,
      m w = Ret a w' /\
      mutex w' = mutex w /\ flock w' = flock w /\
      trace w' = (trace w ++ es)%list /\
      Forall P es /\ (length es <= n)%nat.

(** The lookups of [generateValidImageTag] when [n] random tags are in use. *)
Definition draws (n : nat) : list event :=
  (repeat (EvDaemonImage true) n ++ [EvDaemonImage false])%list.

(** The events of [unlock], and whether it released the gate. *)
Inductive unlock_trace : list event -> bool -> Prop :=
| unlock_no_lockfile :
    unlock_trace [EvGetLockfile false] false
| unlock_not_released :
    unlock_trace [EvGetLockfile true; EvFileUnlock false] false
| unlock_released :
    unlock_trace [EvGetLockfile true; EvFileUnlock true; EvMutexUnlock] true.

(** The events of the container query, with its result. *)
Inductive query_trace : list event -> PackageMap * option error -> Prop :=
| query_not_created :
    query_trace [EvCreateContainer false]
      (∅, Some (DaemonError "CreateContainer"))
| query_not_started id :
    query_trace
      [EvCreateContainer true; EvStartContainer false; EvRemoveContainer id]
      (∅, Some (DaemonError "StartContainer"))
| query_wait_failed id :
    query_trace
      [EvCreateContainer true; EvStartContainer true; EvWaitContainer false;
       EvRemoveContainer id]
      (∅, Some (DaemonError "WaitContainer"))
| query_logs_failed id :
    query_trace
      [EvCreateContainer true; EvStartContainer true; EvWaitContainer true;
       EvLogs false; EvRemoveContainer id]
      (∅, Some (DaemonError "Logs"))
| query_exit_code id exitCode errBuf :
    query_trace
      [EvCreateContainer true; EvStartContainer true; EvWaitContainer true;
       EvLogs true; EvRemoveContainer id]
      (∅, Some (Errorf ("non-zero exit code " +:+ FormatInt exitCode +:+ ": " +:+
                        errBuf)))
| query_parsed id outBuf :
    query_trace
      [EvCreateContainer true; EvStartContainer true; EvWaitContainer true;
       EvLogs true; EvRemoveContainer id]
      (parsePackageData (Split outBuf newline)).

(** The events of [rpmDataFromContainer] from a free mutex, its result, and
    the mutex and the lock file when it returns ([held0] is the lock file
    before the call). After a release that failed the lock file is as the
    failure left it. *)
Inductive container_trace (held0 : bool)
  : list event -> PackageMap * option error -> bool -> bool -> Prop :=
| container_no_client :
    container_trace held0 [EvNewClient false]
      (∅, Some (DaemonError "NewClientFromEnv")) false held0
| container_lock_failed les err held :
    lock_tail les (Some err) ->
    container_trace held0 (EvNewClient true :: EvMutexLock :: les)
      (∅, Some err) false held
| container_load_failed les n :
    lock_tail les None ->
    container_trace held0
      (EvNewClient true :: EvMutexLock :: les ++ draws n ++ [EvDaemonWrite false])
      (∅, Some (Errorf "Error loading image")) true true
| container_queried les n ues released qes r name held :
    lock_tail les None ->
    unlock_trace ues released ->
    query_trace qes r ->
    (released = true -> held = false) ->
    container_trace held0
      (EvNewClient true :: EvMutexLock :: les ++ draws n ++
       [EvDaemonWrite true] ++ ues ++ qes ++ [EvRemoveImage name])
      r (negb released) held.

End ContainerVocabulary.

(** The number of sleeps among the events. *)
Fixpoint sleeps (es : list rpm.event) : nat :=
  match es with
  | [] => O
  | rpm.EvSleep _ :: es' => S (sleeps es')
  | _ :: es' => sleeps es'
  end.

(** The lock file is taken at the second attempt, and a later attempt
    fails for good. *)
Definition late_fatal_env : rpm.Env :=
  {| rpm.env_fs := ∅;
     rpm.env_getLockfile := fun _ => true;
     rpm.env_tryLock := fun t => if (t <? 3)%nat then rpm.LockTemporary
                                 else if (t <? 6)%nat then rpm.LockOk
                                 else rpm.LockFatal;
     rpm.env_fileUnlock := fun _ => true;
     rpm.env_lockFileLeft := fun _ => true;
     rpm.env_newClient := fun _ => true;
     rpm.env_collisions := fun _ => O;
     rpm.env_tag := fun _ => "rpm_test_image:abcdefghijkl";
     rpm.env_daemonWrite := fun _ => true;
     rpm.env_createContainer := fun _ => Some "c0";
     rpm.env_startContainer := fun _ => true;
     rpm.env_waitContainer := fun _ => Some 0;
     rpm.env_logs := fun _ => Some ("", "");
     rpm.env_exec := fun _ _ => None |}.

(** The no-break space U+00A0, in UTF-8. *)
Definition nbsp : string :=
  String (ascii_of_nat 194) (String (ascii_of_nat 160) "").

(** An openSUSE image unpacked at [/img], on a host with rpm: the macros
    file names the database path twice, the first time after a no-break
    space, and the host's rpm answers with a path that ends in a
    separator. *)
Definition suse_fs : FS :=
  {[ "/img" := Dir;
     "/img/usr/bin/rpm" := File [];
     "/img/usr/lib/rpm/macros" :=
       File [ "# per-platform macros";
              nbsp +:+ "%_dbpath                %{_usr}/lib/sysimage/rpm";
              "%_dbpath /var/lib/rpm" ];
     "/img/usr/lib/sysimage/rpm" := Dir ]}.

Definition host_rpm (args : list string) : option string :=
  if String.eqb (nth 1 args "") "--version" then Some "RPM version 4.16.1.3"
  else if String.eqb (nth 1 args "") "-E"
       then Some ("/usr/lib/sysimage/rpm/" +:+ rpm.newline)
       else Some (render_rows three_packages).

Definition suse_env : rpm.Env :=
  {| rpm.env_fs := suse_fs;
     rpm.env_getLockfile := fun _ => true;
     rpm.env_tryLock := fun _ => rpm.LockOk;
     rpm.env_fileUnlock := fun _ => true;
     rpm.env_lockFileLeft := fun _ => true;
     rpm.env_newClient := fun _ => true;
     rpm.env_collisions := fun _ => O;
     rpm.env_tag := fun _ => "rpm_test_image:abcdefghijkl";
     rpm.env_daemonWrite := fun _ => true;
     rpm.env_createContainer := fun _ => Some "c0";
     rpm.env_startContainer := fun _ => true;
     rpm.env_waitContainer := fun _ => Some 0;
     rpm.env_logs := fun _ => Some ("", "");
     rpm.env_exec := fun _ => host_rpm |}.

(** The same host, and an image whose macros file has no database path. *)
Definition plain_macros_fs : FS :=
  {[ "/img" := Dir;
     "/img/usr/bin/rpm" := File [];
     "/img/usr/lib/rpm/macros" := File [ "# macros"; "%_topdir /usr/src" ] ]}.

Definition plain_macros_env : rpm.Env :=
  {| rpm.env_fs := plain_macros_fs;
     rpm.env_getLockfile := fun _ => true;
     rpm.env_tryLock := fun _ => rpm.LockOk;
     rpm.env_fileUnlock := fun _ => true;
     rpm.env_lockFileLeft := fun _ => true;
     rpm.env_newClient := fun _ => true;
     rpm.env_collisions := fun _ => O;
     rpm.env_tag := fun _ => "rpm_test_image:abcdefghijkl";
     rpm.env_daemonWrite := fun _ => true;
     rpm.env_createContainer := fun _ => Some "c0";
     rpm.env_startContainer := fun _ => true;
     rpm.env_waitContainer := fun _ => Some 0;
     rpm.env_logs := fun _ => Some ("", "");
     rpm.env_exec := fun _ => host_rpm |}.

(** ** More vocabulary: images with layers *)

(** A dpkg line parser that records nothing. *)
Definition no_parse (text currPackage : string) (packages : PackageMap)
  : string * PackageMap := (currPackage, packages).

(** The Alpine image with three layers, of which the second was not
    unpacked. *)
Definition broken_layer_image : Image :=
  {| Source := "alpine"; Digest := ""; FSPath := "/img";
     Layers := [ {| Index := 0; LayerDigest := ""; LayerFSPath := "/layer0";
                    LayerSize := 0 |};
                 {| Index := 1; LayerDigest := ""; LayerFSPath := "/layer1";
                    LayerSize := 0 |};
                 {| Index := 2; LayerDigest := ""; LayerFSPath := "/layer0";
                    LayerSize := 0 |} ];
     Image_ := "alpine" |}.

(** The openSUSE image: its first layer is unpacked where the image is, the
    second has no rpm database. *)
Definition suse_image : Image :=
  {| Source := "opensuse"; Digest := ""; FSPath := "/img";
     Layers := [ {| Index := 0; LayerDigest := ""; LayerFSPath := "/img";
                    LayerSize := 0 |};
                 {| Index := 1; LayerDigest := ""; LayerFSPath := "/layer1";
                    LayerSize := 0 |} ];
     Image_ := "opensuse" |}.

(** A registry whose images have two layers, and in which appending a
    layer never fails. *)
Definition empty_image : error + string := inr "empty".

Definition two_layers (image : string) : error + list string :=
  inr ["sha256:aa"; "sha256:bb"].

Definition append_layer (base layer : string) : error + string :=
  inr (base +:+ "+" +:+ layer).


(** * Properties *)

Create HintDb gate.
#[local] Hint Constructors loop_trace lock_tail : gate.

(** Split a goal into its conjuncts. *)
Ltac conjuncts := repeat match goal with |- _ /\ _ => split end.

(** ** Splitting on one byte *)

Lemma append_nil (s : string) : "" +:+ s = s.
Proof. reflexivity. Qed.

Lemma append_cons (a : ascii) (s t : string) :
  String a s +:+ t = String a (s +:+ t).
Proof. reflexivity. Qed.

Section SplitByte.

Variable c : ascii.

Let sep : string := String c "".

Lemma split_from_step (a : ascii) (s : string) :
  split_from sep (String a s) 0 =
    if Ascii.eqb c a then "" :: split_from sep s 0
    else cons_head a (split_from sep s 0).
Proof.
  unfold sep. cbn [split_from String.prefix String.length Nat.sub].
  destruct (ascii_dec c a) as [->|Hne].
  - rewrite Ascii.eqb_refl. now destruct s.
  - apply Ascii.eqb_neq in Hne. now rewrite Hne.
Qed.

Lemma Split_byte (s : string) : Split s sep = split_from sep s 0.
Proof. reflexivity. Qed.

(** A string without the separator is its own single field. *)
Lemma split_from_none (s : string) :
  contains_byte c s = false -> split_from sep s 0 = [s].
Proof.
  induction s as [|a s IH]; [reflexivity|].
  intros H. rewrite split_from_step. cbn [contains_byte] in H.
  rewrite Ascii.eqb_sym.
  destruct (Ascii.eqb a c); [discriminate|].
  now rewrite IH.
Qed.

(** The first separator ends the first field. *)
Lemma split_from_app (a b : string) :
  contains_byte c a = false ->
  split_from sep (a +:+ String c b) 0 = a :: split_from sep b 0.
Proof.
  induction a as [|x a IH]; intros H.
  - rewrite append_nil, split_from_step. now rewrite Ascii.eqb_refl.
  - rewrite append_cons, split_from_step. cbn [contains_byte] in H.
    rewrite Ascii.eqb_sym.
    destruct (Ascii.eqb x c); [discriminate|].
    now rewrite IH.
Qed.

(** One field more than there are separators. *)
Lemma split_from_length (s : string) :
  length (split_from sep s 0) = S (count_byte c s).
Proof.
  induction s as [|a s IH]; [reflexivity|].
  rewrite split_from_step. cbn [count_byte]. rewrite Ascii.eqb_sym.
  destruct (Ascii.eqb a c); cbn [length].
  - now rewrite IH.
  - destruct (split_from sep s 0); cbn [cons_head length] in *; lia.
Qed.

Lemma count_byte_app (a b : string) :
  count_byte c (a +:+ b) = (count_byte c a + count_byte c b)%nat.
Proof.
  induction a as [|x a IH]; [reflexivity|].
  rewrite append_cons. cbn [count_byte]. rewrite IH. lia.
Qed.

Lemma contains_byte_count (s : string) :
  contains_byte c s = true -> (1 <= count_byte c s)%nat.
Proof.
  induction s as [|a s IH]; [discriminate|].
  cbn [contains_byte count_byte]. destruct (Ascii.eqb a c); [lia|].
  intros H. apply IH in H. lia.
Qed.

End SplitByte.

(** ** The world-file parser of differs/apk_diff.go *)

Lemma world_parseApkInfo_cases (text curr : string) (packages : PackageMap) :
  ApkWorld.parseApkInfo text curr packages = Panics "index out of range" \/
  exists r, ApkWorld.parseApkInfo text curr packages = Returns r.
Proof.
  unfold ApkWorld.parseApkInfo.
  destruct (Split text "=" !! 0%nat); [|now left].
  destruct (Split text "=" !! 1%nat); [right; eauto|now left].
Qed.

Lemma world_parseApkInfo_no_equals (text curr : string) (packages : PackageMap) :
  contains_byte "=" text = false ->
  ApkWorld.parseApkInfo text curr packages = Panics "index out of range".
Proof.
  intros H. unfold ApkWorld.parseApkInfo.
  rewrite (Split_byte "="), split_from_none by exact H. reflexivity.
Qed.

Lemma world_scan_no_equals (lines : list string) (text : string) :
  In text lines -> contains_byte "=" text = false ->
  forall (curr : string) (packages : PackageMap),
    ApkWorld.scan lines curr packages = Panics "index out of range".
Proof.
  intros Hin Hno. induction lines as [|l lines IH]; [destruct Hin|].
  intros curr packages. cbn [ApkWorld.scan].
  destruct Hin as [->|Hin].
  - now rewrite world_parseApkInfo_no_equals.
  - destruct (world_parseApkInfo_cases l curr packages) as [->|[[c p] ->]];
      [reflexivity|]. now apply IH.
Qed.

(** C9. A line of the world file without the byte '=' (an empty line, a
    bare package name) makes [parseApkInfo] read index 1 of a split of one
    field: the call panics, and so does [readWorldFile] on every world file
    that opens and has such a line. *)
Theorem world_line_without_equals_panics
    (fs : FS) (root : string) (lines : list string) (text : string) :
  Stat fs root = None ->
  Stat fs (filepath.Join root ApkWorld.apkWorldFile) = None ->
  Open fs (filepath.Join root ApkWorld.apkWorldFile) = inr lines ->
  In text lines ->
  contains_byte "=" text = false ->
  length (Split text "=") = 1%nat /\
  (forall (curr : string) (packages : PackageMap),
     ApkWorld.parseApkInfo text curr packages = Panics "index out of range") /\
  ApkWorld.readWorldFile fs root = Panics "index out of range".
Proof.
  intros Hroot Hstat Hopen Hin Hno. split; [|split].
  - rewrite (Split_byte "="), split_from_none by exact Hno. reflexivity.
  - intros curr packages. now apply world_parseApkInfo_no_equals.
  - unfold ApkWorld.readWorldFile. rewrite Hroot, Hstat, Hopen.
    now rewrite (world_scan_no_equals lines text Hin Hno).
Qed.

Lemma world_line_without_equals_panics_witness :
  length (Split "busybox" "=") = 1%nat /\
  (forall (curr : string) (packages : PackageMap),
     ApkWorld.parseApkInfo "busybox" curr packages = Panics "index out of range") /\
  ApkWorld.readWorldFile bare_world "/img" = Panics "index out of range".
Proof.
  apply (world_line_without_equals_panics bare_world "/img"
           ["musl=1.2.5-r0"; "busybox"] "busybox").
  - vm_compute. reflexivity.
  - vm_compute. reflexivity.
  - vm_compute. reflexivity.
  - simpl. auto.
  - reflexivity.
Defined.

(** ** The installed-database parser *)

Lemma installed_parseApkInfo_not_two (text curr : string) (packages : PackageMap) :
  length (Split text ":") <> 2%nat ->
  ApkInstalled.parseApkInfo text curr packages = (curr, packages).
Proof.
  intros H. unfold ApkInstalled.parseApkInfo.
  destruct (Split text ":") as [|k [|v [|x l]]]; try reflexivity.
  now destruct H.
Qed.

Lemma installed_split_value_with_colon (key value : string) :
  contains_byte ":" value = true ->
  (3 <= length (Split (key +:+ ":" +:+ value) ":"))%nat.
Proof.
  intros H. rewrite (Split_byte ":"), split_from_length.
  rewrite !count_byte_app. apply contains_byte_count in H.
  change (count_byte ":" ":") with 1%nat. lia.
Qed.

(** C10. The installed-database parser handles a line only when the split
    on ':' has exactly two fields. A line whose value has a colon of its
    own has three fields or more and is ignored: the map and the current
    package name stay as they are. An [I:] line whose value is not a
    base-10 integer records the size -1, and the reader returns no error. *)
Theorem installed_parser_skips_and_defaults
    (key value bad curr : string) (packages : PackageMap)
    (fs : FS) (root : string) (lines : list string) :
  contains_byte ":" value = true ->
  contains_byte ":" bad = false ->
  ParseInt bad = None ->
  Stat fs root = None ->
  Open fs (filepath.Join root ApkInstalled.apkInstalledPackagesFile) = inr lines ->
  (forall text : string,
     length (Split text ":") <> 2%nat ->
     ApkInstalled.parseApkInfo text curr packages = (curr, packages)) /\
  ApkInstalled.parseApkInfo (key +:+ ":" +:+ value) curr packages = (curr, packages) /\
  ApkInstalled.parseApkInfo ("I:" +:+ bad) curr packages =
    (curr, <[curr := {| Version := Version (lookup_or_zero packages curr);
                        Size := -1 |}]> packages) /\
  (ApkInstalled.readWorldFile fs root).2 = None.
Proof.
  intros Hcolon Hbad Hparse Hroot Hopen. repeat split.
  - intros text. apply installed_parseApkInfo_not_two.
  - apply installed_parseApkInfo_not_two.
    pose proof (installed_split_value_with_colon key value Hcolon). lia.
  - unfold ApkInstalled.parseApkInfo.
    rewrite (Split_byte ":").
    change ("I:" +:+ bad) with ("I" +:+ String ":" bad).
    rewrite split_from_app by reflexivity.
    rewrite split_from_none by exact Hbad.
    cbn [String.eqb Ascii.eqb Bool.eqb]. now rewrite Hparse.
  - unfold ApkInstalled.readWorldFile. rewrite Hroot, Hopen.
    destruct (Stat fs (filepath.Join _ _)); reflexivity.
Qed.

Lemma installed_parser_skips_and_defaults_witness :
  (forall text : string,
     length (Split text ":") <> 2%nat ->
     ApkInstalled.parseApkInfo text "musl" ∅ = ("musl", ∅)) /\
  ApkInstalled.parseApkInfo ("V" +:+ ":" +:+ "1:2.3-r0") "musl" ∅ = ("musl", ∅) /\
  ApkInstalled.parseApkInfo ("I:" +:+ "12kB") "musl" ∅ =
    ("musl", <[ "musl" := {| Version := Version (lookup_or_zero ∅ "musl");
                             Size := -1 |}]> ∅) /\
  (ApkInstalled.readWorldFile epoch_db "/img").2 = None.
Proof.
  apply (installed_parser_skips_and_defaults "V" "1:2.3-r0" "12kB" "musl" ∅
           epoch_db "/img" ["P:musl"; "V:1:2.3-r0"; "I:12kB"]).
  - reflexivity.
  - reflexivity.
  - reflexivity.
  - vm_compute. reflexivity.
  - vm_compute. reflexivity.
Defined.

(** ** The apk world diff scenario *)

(** C1. When the apk database of image A yields musl at 1.2.5-r0 and
    busybox at 1.36.1-r29, and that of image B yields musl at 1.2.5-r1 and
    curl at 8.8.0-r0, [ApkAnalyzer.Diff] returns no error, [Image1Only] is
    exactly busybox at 1.36.1-r29, [Image2Only] is exactly curl at 8.8.0-r0
    and [Modified] is exactly musl, 1.2.5-r0 on side A and 1.2.5-r1 on
    side B. *)
Theorem apk_world_diff_scenario (fs : FS) (A B : Image) :
  ApkWorld.ApkAnalyzer_getPackages fs A = Returns (worldA, None) ->
  ApkWorld.ApkAnalyzer_getPackages fs B = Returns (worldB, None) ->
  exists result,
    ApkWorld_Diff fs A B = Returns (result, None) /\
    PackageDiffEngine.Image1Only (PackageDiffEngine.Diff result) =
      {[ "busybox" := {| Version := "1.36.1-r29"; Size := 0 |} ]} /\
    PackageDiffEngine.Image2Only (PackageDiffEngine.Diff result) =
      {[ "curl" := {| Version := "8.8.0-r0"; Size := 0 |} ]} /\
    PackageDiffEngine.Modified (PackageDiffEngine.Diff result) =
      {[ "musl" := ({| Version := "1.2.5-r0"; Size := 0 |},
                    {| Version := "1.2.5-r1"; Size := 0 |}) ]}.
Proof.
  intros HA HB. unfold ApkWorld_Diff, PackageDiffEngine.singleVersionDiff.
  rewrite HA, HB. eexists. split; [reflexivity|].
  cbn [PackageDiffEngine.Diff PackageDiffEngine.Image1Only
       PackageDiffEngine.Image2Only PackageDiffEngine.Modified
       PackageDiffEngine.packageDiff].
  split; [|split]; vm_compute; reflexivity.
Qed.

Lemma apk_world_diff_scenario_witness :
  ApkWorld.ApkAnalyzer_getPackages scenario_fs imageA = Returns (worldA, None) /\
  ApkWorld.ApkAnalyzer_getPackages scenario_fs imageB = Returns (worldB, None) /\
  exists result,
    ApkWorld_Diff scenario_fs imageA imageB = Returns (result, None) /\
    PackageDiffEngine.Image1Only (PackageDiffEngine.Diff result) =
      {[ "busybox" := {| Version := "1.36.1-r29"; Size := 0 |} ]} /\
    PackageDiffEngine.Image2Only (PackageDiffEngine.Diff result) =
      {[ "curl" := {| Version := "8.8.0-r0"; Size := 0 |} ]} /\
    PackageDiffEngine.Modified (PackageDiffEngine.Diff result) =
      {[ "musl" := ({| Version := "1.2.5-r0"; Size := 0 |},
                    {| Version := "1.2.5-r1"; Size := 0 |}) ]}.
Proof.
  assert (HA : ApkWorld.ApkAnalyzer_getPackages scenario_fs imageA =
               Returns (worldA, None)) by (vm_compute; reflexivity).
  assert (HB : ApkWorld.ApkAnalyzer_getPackages scenario_fs imageB =
               Returns (worldB, None)) by (vm_compute; reflexivity).
  split; [exact HA|]. split; [exact HB|].
  exact (apk_world_diff_scenario scenario_fs imageA imageB HA HB).
Defined.

(** ** A missing database or tool is an empty result *)

(** C4. When the image root exists and the apk database file is absent,
    [readWorldFile] (in both definitions) returns the empty map and no
    error; when the root exists and neither [bin/rpm] nor [usr/bin/rpm]
    does, [RPMAnalyzer.getPackages] returns the empty map and no error,
    without any interaction with the host or the daemon. *)
Theorem missing_database_is_empty_result
    (env : rpm.Env) (image : Image) (w : rpm.World) :
  let fs := rpm.env_fs env in
  let root := FSPath image in
  Stat fs root = None ->
  (fs !! filepath.Join root ApkWorld.apkWorldFile = None ->
   ApkWorld.readWorldFile fs root = Returns (∅, None)) /\
  (fs !! filepath.Join root ApkInstalled.apkInstalledPackagesFile = None ->
   ApkInstalled.readWorldFile fs root = (∅, None)) /\
  (fs !! filepath.Join root "bin/rpm" = None ->
   fs !! filepath.Join root "usr/bin/rpm" = None ->
   rpm.RPMAnalyzer_getPackages env image w = rpm.Ret (∅, None) w).
Proof.
  intros fs root Hroot.
  assert (Habsent : forall p, fs !! p = None -> exists e, Stat fs p = Some e).
  { intros p Hp. unfold Stat. destruct p; [eauto|]. rewrite Hp. eauto. }
  split; [|split].
  - intros Hworld. unfold ApkWorld.readWorldFile. fold root. rewrite Hroot.
    destruct (Habsent _ Hworld) as [e ->]. reflexivity.
  - intros Hinst. unfold ApkInstalled.readWorldFile. fold root. rewrite Hroot.
    destruct (Habsent _ Hinst) as [e ->]. reflexivity.
  - intros Hbin Husr.
    unfold rpm.RPMAnalyzer_getPackages. fold fs root. rewrite Hroot.
    destruct (Habsent _ Hbin) as [e1 ->], (Habsent _ Husr) as [e2 ->].
    reflexivity.
Qed.

Lemma missing_database_is_empty_result_witness :
  ApkWorld.readWorldFile {[ "/img" := Dir ]} "/img" = Returns (∅, None) /\
  ApkInstalled.readWorldFile {[ "/img" := Dir ]} "/img" = (∅, None) /\
  rpm.RPMAnalyzer_getPackages (quiet_env {[ "/img" := Dir ]}) bare_image idle =
    rpm.Ret (∅, None) idle.
Proof.
  destruct (missing_database_is_empty_result
              (quiet_env {[ "/img" := Dir ]}) bare_image idle)
    as (Hworld & Hinstalled & Hrpm).
  - vm_compute. reflexivity.
  - split; [|split].
    + apply Hworld. vm_compute. reflexivity.
    + apply Hinstalled. vm_compute. reflexivity.
    + apply Hrpm; vm_compute; reflexivity.
Defined.

(** ** One database per definition of the apk analyzer *)


(** ** The apk layer analyzers *)

(** The loop over the layers keeps their order: when [readStatusFile]
    fails on no layer, the result has one map per layer, in layer order. *)
Lemma layers_loop_aligned
    (readStatusFile : string -> PackageMap * option error)
    (layers : list Layer) (packages : list PackageMap) :
  Forall (fun layer => (readStatusFile (LayerFSPath layer)).2 = None) layers ->
  ApkWorld.layers_loop readStatusFile layers packages =
    ((packages ++ map (fun layer => (readStatusFile (LayerFSPath layer)).1) layers)%list,
     None).
Proof.
  intros Hok. revert packages.
  induction Hok as [|layer layers Hlayer _ IH]; intros packages.
  - cbn. now rewrite app_nil_r.
  - cbn [ApkWorld.layers_loop map].
    destruct (readStatusFile (LayerFSPath layer)) as [m e].
    cbn in Hlayer. subst e. rewrite IH. cbn. now rewrite <- app_assoc.
Qed.

(** C3, at an image of one layer that holds the apk databases and no dpkg
    status file. Both definitions of [ApkLayerAnalyzer.getPackages] hand the
    layer to [readStatusFile], the reader of [var/lib/dpkg/status], and
    return one empty map for it, whatever the dpkg line parser does; the apk
    readers find musl under the same layer path. *)
Theorem apk_layer_analyzer_reads_dpkg_status
    (parseLine : string -> string -> PackageMap -> string * PackageMap) :
  let readStatusFile := apt.readStatusFile parseLine layered_fs in
  ApkWorld.ApkLayerAnalyzer_getPackages readStatusFile layered_fs layered_image =
    ([∅], None) /\
  ApkInstalled.ApkLayerAnalyzer_getPackages readStatusFile layered_fs layered_image =
    ([∅], None) /\
  ApkWorld.readWorldFile layered_fs "/layer0" =
    Returns ({[ "musl" := {| Version := "1.2.5-r0"; Size := 0 |} ]}, None) /\
  ApkInstalled.readWorldFile layered_fs "/layer0" =
    ({[ "musl" := {| Version := "1.2.5-r0"; Size := 634880 |} ]}, None).
Proof.
  repeat split; vm_compute; reflexivity.
Qed.

(** ** The rpm query output *)

Section RpmOutput.

Import rpm.

Lemma three_fields_dec (line : string) :
  (exists name version size, Split line tab = [name; version; size]) \/
  (forall name version size, Split line tab <> [name; version; size]).
Proof.
  destruct (Split line tab) as [|a [|b [|c [|d l]]]];
    try (right; intros; discriminate).
  left. exists a, b, c. reflexivity.
Qed.

Lemma parse_loop_skip (line : string) (rest : list string) (acc : PackageMap) :
  (forall name version size, Split line tab <> [name; version; size]) ->
  parse_loop (line :: rest) acc = parse_loop rest acc.
Proof.
  intros H. cbn [parse_loop].
  destruct (Split line tab) as [|a [|b [|c [|d l]]]]; try reflexivity.
  now destruct (H a b c).
Qed.

Lemma parse_loop_entry (line : string) (rest : list string) (acc : PackageMap)
    (name version size : string) :
  Split line tab = [name; version; size] ->
  parse_loop (line :: rest) acc =
    match ParseInt size with
    | None => (acc, Some (Errorf ("error converting package size: " +:+ size)))
    | Some n => parse_loop rest (<[name := {| Version := version; Size := n |}]> acc)
    end.
Proof. intros H. cbn [parse_loop]. now rewrite H. Qed.

Lemma no_entry_cons (line : string) (rest : list string) (name : string) :
  no_entry (line :: rest) name <->
  (forall version size, Split line tab <> [name; version; size]) /\
  no_entry rest name.
Proof.
  unfold no_entry. split.
  - intros H. split; [intros v s; apply H; now left|].
    intros l v s Hin. apply H. now right.
  - intros [H1 H2] l v s [<-|Hin]; [apply H1|now apply H2].
Qed.

Lemma last_entry_cons (line : string) (rest : list string) (name : string)
    (info : PackageInfo) :
  last_entry (line :: rest) name info <->
  (exists size, Split line tab = [name; Version info; size] /\
                ParseInt size = Some (Size info) /\ no_entry rest name) \/
  last_entry rest name info.
Proof.
  unfold last_entry. split.
  - intros (pre & l & post & size & Heq & Hsplit & Hparse & Hno).
    destruct pre as [|x pre]; cbn in Heq; injection Heq as -> ->.
    + left. eauto.
    + right. exists pre, l, post, size. auto.
  - intros [(size & Hsplit & Hparse & Hno)|(pre & l & post & size & -> & H)].
    + exists [], line, rest, size. auto.
    + exists (line :: pre), l, post, size. auto.
Qed.

Lemma parse_loop_spec (rpmOutput : list string) (acc : PackageMap) :
  match parse_loop rpmOutput acc with
  | (packages, None) =>
      (forall line name version size,
         In line rpmOutput -> Split line tab = [name; version; size] ->
         is_Some (ParseInt size)) /\
      (forall name info,
         packages !! name = Some info <->
         last_entry rpmOutput name info \/
         (no_entry rpmOutput name /\ acc !! name = Some info))
  | (packages, Some err) =>
      exists line name version size,
        In line rpmOutput /\ Split line tab = [name; version; size] /\
        ParseInt size = None /\
        err = Errorf ("error converting package size: " +:+ size)
  end.
Proof.
  revert acc. induction rpmOutput as [|line rest IH]; intros acc.
  - cbn [parse_loop]. split; [intros ? ? ? ? []|].
    intros name info. split; [intros H; right; split; [intros ? ? ? []|exact H]|].
    intros [(pre & l & post & size & Heq & _)|[_ H]]; [|exact H].
    now destruct pre.
  - destruct (three_fields_dec line) as [(n & v & s & Hsplit)|Hnot].
    + rewrite (parse_loop_entry _ _ _ _ _ _ Hsplit).
      destruct (ParseInt s) as [z|] eqn:Hz.
      * specialize (IH (<[n := {| Version := v; Size := z |}]> acc)).
        destruct (parse_loop rest _) as [packages [err|]].
        { destruct IH as (l & n' & v' & s' & Hin & H).
          exists l, n', v', s'. split; [now right|exact H]. }
        destruct IH as [Hvalid Hmap]. split.
        { intros l n' v' s' [<-|Hin] Hl.
          - rewrite Hsplit in Hl. injection Hl as <- <- <-. rewrite Hz. eauto.
          - eapply Hvalid; eauto. }
        intros name info. rewrite Hmap, last_entry_cons, no_entry_cons.
        destruct (decide (n = name)) as [->|Hne].
        { rewrite lookup_insert_eq. split.
          - intros [H|[Hno Hinfo]]; [auto|].
            injection Hinfo as <-. left. left. exists s. cbn. auto.
          - intros [[(s' & Hs' & Hparse & Hno)|H]|[[Hline _] _]]; [|auto|].
            + rewrite Hsplit in Hs'. injection Hs' as Hv <-.
              right. split; [exact Hno|]. rewrite Hz in Hparse.
              injection Hparse as Hsize. destruct info as [v0 z0].
              cbn in Hv, Hsize. now subst.
            + now destruct (Hline v s). }
        rewrite lookup_insert_ne by exact Hne. split.
        { intros [H|[Hno Hinfo]]; [auto|]. right. repeat split; [|exact Hno|exact Hinfo].
          intros v' s' Hl. rewrite Hsplit in Hl. now injection Hl. }
        intros [[(s' & Hs' & _)|H]|[[_ Hno] Hinfo]]; [|auto|auto].
        rewrite Hsplit in Hs'. now injection Hs'.
      * exists line, n, v, s. repeat split; [now left|exact Hsplit|exact Hz].
    + rewrite (parse_loop_skip _ _ _ Hnot). specialize (IH acc).
      destruct (parse_loop rest acc) as [packages [err|]].
      { destruct IH as (l & n' & v' & s' & Hin & H).
        exists l, n', v', s'. split; [now right|exact H]. }
      destruct IH as [Hvalid Hmap]. split.
      { intros l n' v' s' [<-|Hin] Hl; [now destruct (Hnot n' v' s')|].
        eapply Hvalid; eauto. }
      intros name info. rewrite Hmap, last_entry_cons, no_entry_cons. split.
      * intros [H|[Hno Hinfo]]; [auto|]. right. repeat split; auto.
      * intros [[(s' & Hs' & _)|H]|[[_ Hno] Hinfo]]; [|auto|auto].
        now destruct (Hnot name (Version info) s').
Qed.

End RpmOutput.

(** Two lines of three fields with the same name leave one entry, that of
    the later line: the earlier line has no entry of its own. *)
Lemma not_one_entry_per_line : ~ one_entry_per_line.
Proof.
  intros H.
  assert (Hrun : rpm.parsePackageData duplicate_rows =
                 ({[ "kernel" := {| Version := "5.14.0-2"; Size := 200 |} ]}, None))
    by (vm_compute; reflexivity).
  assert (Hsplit : Split (row "kernel" "5.14.0-1" "100") rpm.tab =
                   ["kernel"; "5.14.0-1"; "100"]) by (vm_compute; reflexivity).
  destruct (H _ _ Hrun _ _ _ _ ltac:(now left) Hsplit) as (n & Hn & Hlook).
  vm_compute in Hn. injection Hn as <-.
  vm_compute in Hlook. discriminate Hlook.
Qed.

(** C8, as the code has it. [parsePackageData] returns an error exactly
    when some line of three tab-separated fields has a size that is not a
    base-10 int64. Otherwise the map returned has one entry per name that
    is the first field of a line of three fields, with the version and the
    size of the last such line; lines of another number of fields
    contribute nothing. *)
Theorem parsePackageData_last_line_wins (rpmOutput : list string) :
  match rpm.parsePackageData rpmOutput with
  | (packages, None) =>
      (forall line name version size,
         In line rpmOutput -> Split line rpm.tab = [name; version; size] ->
         is_Some (ParseInt size)) /\
      (forall name info,
         packages !! name = Some info <-> last_entry rpmOutput name info)
  | (packages, Some err) =>
      exists line name version size,
        In line rpmOutput /\ Split line rpm.tab = [name; version; size] /\
        ParseInt size = None /\
        err = Errorf ("error converting package size: " +:+ size)
  end.
Proof.
  unfold rpm.parsePackageData.
  pose proof (parse_loop_spec rpmOutput ∅) as H.
  destruct (rpm.parse_loop rpmOutput ∅) as [packages [err|]]; [exact H|].
  destruct H as [Hvalid Hmap]. split; [exact Hvalid|].
  intros name info. rewrite Hmap. split; [|auto].
  intros [H|[_ H]]; [exact H|]. now rewrite lookup_empty in H.
Qed.

(** ** The daemon gate *)

Section Gate.

Import rpm.

Variable env : Env.

Lemma lock_loop_run (n : nat) :
  forall (err : TryLockResult) (w : World),
    mutex w = true ->
    exists x w' es,
      lock_loop env n err w = Ret x w' /\
      trace w' = (trace w ++ es)%list /\
      loop_trace n err es x /\
      match x with
      | Finished e =>
          mutex w' = true /\
          (n = O /\ e = err /\ flock w' = flock w \/
           n <> O /\ (flock w' = true <-> e = LockOk))
      | Returned _ => mutex w' = false
      end.
Proof.
  induction n as [|n IH]; intros err w Hm.
  - exists (Finished err), w, []. cbn. rewrite app_nil_r.
    split; [reflexivity|]. split; [reflexivity|]. split; [auto with gate|auto].
  - cbn [lock_loop]. unfold mbind, M_bind, TryLock at 1.
    set (r := env_tryLock env (now w)).
    destruct r eqn:Hr.
    + edestruct (IH LockOk) as (x & w' & es & Hrun & Htr & Hlt & Hx);
        [|rewrite Hrun]; [exact Hm|].
      exists x, w', (EvTryLock LockOk :: es). cbn [trace] in Htr.
      split; [reflexivity|]. split; [|split; [auto with gate|]].
      * rewrite Htr, <- app_assoc. reflexivity.
      * destruct x as [e|e]; [exact Hx|].
        destruct Hx as [Hm' [(Hn & -> & Hf)|(Hn & Hf)]]; (split; [exact Hm'|]);
          right; (split; [discriminate|]); [|exact Hf].
        rewrite Hf. cbn. tauto.
    + unfold Sleep at 1.
      edestruct (IH LockTemporary) as (x & w' & es & Hrun & Htr & Hlt & Hx);
        [|rewrite Hrun]; [exact Hm|].
      exists x, w', (EvTryLock LockTemporary :: EvSleep 2 :: es).
      cbn [trace emit] in Htr.
      split; [reflexivity|]. split; [|split; [auto with gate|]].
      * rewrite Htr, <- !app_assoc. reflexivity.
      * destruct x as [e|e]; [exact Hx|].
        destruct Hx as [Hm' [(Hn & -> & Hf)|(Hn & Hf)]]; (split; [exact Hm'|]);
          right; (split; [discriminate|]); [|exact Hf].
        rewrite Hf. cbn. split; discriminate.
    + unfold mutex_Unlock at 1. cbn [mutex]. rewrite Hm.
      eexists _, _, [EvTryLock LockFatal; EvMutexUnlock].
      unfold mret, M_ret. split; [reflexivity|]. split; [|split; [constructor|]].
      * cbn [trace]. rewrite <- app_assoc. reflexivity.
      * reflexivity.
Qed.

Lemma loop_trace_tries n err es x :
  loop_trace n err es x ->
  (tries es <= n)%nat /\
  (forall e, x = Finished e ->
             tries es = n /\ ~ In (EvTryLock LockFatal) es /\
             ~ In EvMutexUnlock es).
Proof.
  induction 1 as [err|n err es x _ [IHle IHfin]|n err es x _ [IHle IHfin]|n err];
    cbn [tries].
  - split; [lia|]. intros e _. repeat split; auto.
  - split; [lia|]. intros e He. destruct (IHfin e He) as (-> & Hf & Hu).
    repeat split; auto; intros [Hx|Hx]; [discriminate|auto|discriminate|auto].
  - split; [lia|]. intros e He. destruct (IHfin e He) as (-> & Hf & Hu).
    repeat split; auto; intros [Hx|[Hx|Hx]]; try discriminate; auto.
  - split; [lia|]. intros e He. discriminate He.
Qed.

Lemma loop_trace_returned n err es e :
  loop_trace n err es (Returned e) ->
  In (EvTryLock LockFatal) es /\ last es = Some EvMutexUnlock /\
  e = Errorf "[lock] error acquiring lock".
Proof.
  remember (Returned e) as x eqn:Hx.
  induction 1 as [err|n err es x _ IH|n err es x _ IH|n err].
  - discriminate Hx.
  - destruct (IH Hx) as (Hin & Hlast & He). repeat split; [now right| |exact He].
    destruct es; [destruct Hin|exact Hlast].
  - destruct (IH Hx) as (Hin & Hlast & He).
    repeat split; [now right; right| |exact He].
    destruct es; [destruct Hin|exact Hlast].
  - injection Hx as <-. repeat split. now left.
Qed.

Lemma loop_trace_temporary n err es x :
  loop_trace n err es x ->
  forall i : nat,
    es !! i = Some (EvTryLock LockTemporary) -> es !! S i = Some (EvSleep 2).
Proof.
  induction 1 as [err|n err es x _ IH|n err es x _ IH|n err]; intros i Hi.
  - discriminate Hi.
  - destruct i as [|i]; [discriminate Hi|]. cbn in *. auto.
  - destruct i as [|[|i]]; [reflexivity|discriminate Hi|]. cbn in *. auto.
  - destruct i as [|[|i]]; discriminate Hi.
Qed.

Lemma loop_trace_sleep n err es x :
  loop_trace n err es x ->
  forall (i : nat) (s : Z),
    es !! i = Some (EvSleep s) ->
    s = 2 /\ exists j : nat, i = S j /\ es !! j = Some (EvTryLock LockTemporary).
Proof.
  induction 1 as [err|n err es x _ IH|n err es x _ IH|n err]; intros i s Hi.
  - discriminate Hi.
  - destruct i as [|i]; [discriminate Hi|]. cbn in Hi.
    destruct (IH i s Hi) as (-> & j & -> & Hj). split; [reflexivity|].
    exists (S j). auto.
  - destruct i as [|[|i]]; [discriminate Hi| |].
    + injection Hi as <-. split; [reflexivity|]. exists O. auto.
    + cbn in Hi. destruct (IH i s Hi) as (-> & j & -> & Hj).
      split; [reflexivity|]. exists (S (S j)). auto.
  - destruct i as [|[|i]]; discriminate Hi.
Qed.

Lemma loop_trace_fatal n err es x :
  loop_trace n err es x ->
  forall i : nat,
    es !! i = Some (EvTryLock LockFatal) ->
    es !! S i = Some EvMutexUnlock /\ length es = S (S i).
Proof.
  induction 1 as [err|n err es x _ IH|n err es x _ IH|n err]; intros i Hi.
  - discriminate Hi.
  - destruct i as [|i]; [discriminate Hi|]. cbn in Hi.
    destruct (IH i Hi) as [Hnext Hlen]. cbn. auto.
  - destruct i as [|[|i]]; [discriminate Hi|discriminate Hi|]. cbn in Hi.
    destruct (IH i Hi) as [Hnext Hlen]. cbn. auto.
  - destruct i as [|[|i]]; [auto|discriminate Hi|discriminate Hi].
Qed.

(** On a locked mutex [lock] waits, and does not touch the lock file. *)
Lemma lock_waits_for_mutex (w : World) :
  mutex w = true -> lock env w = Blocked w.
Proof.
  intros Hm. unfold lock, mbind, M_bind, mutex_Lock at 1. now rewrite Hm.
Qed.

Lemma lock_run (w : World) :
  mutex w = false ->
  exists err w' es,
    lock env w = Ret err w' /\
    trace w' = (trace w ++ EvMutexLock :: es)%list /\
    lock_tail es err /\
    mutex w' = match err with Some _ => false | None => true end /\
    (tries es = 10%nat -> ~ In (EvTryLock LockFatal) es ->
     flock w' = true -> err = None) /\
    (err = None -> flock w' = true).
Proof.
  intros Hm. unfold lock, mbind, M_bind, mutex_Lock at 1. rewrite Hm.
  unfold getLockfile at 1.
  set (w1 := {| mutex := true; flock := flock w;
                trace := trace w ++ [EvMutexLock] |}).
  destruct (env_getLockfile env (now w1)) eqn:Hok.
  - destruct (lock_loop_run 10 LockOk (emit (EvGetLockfile true) w1) eq_refl)
      as (x & w' & es & Hrun & Htr & Hlt & Hx).
    rewrite Hrun. subst w1. cbn [emit trace] in Htr.
    rewrite <- !app_assoc in Htr.
    destruct x as [e|e].
    + exists (Some e), w', (EvGetLockfile true :: es).
      split; [reflexivity|]. split; [exact Htr|]. split; [auto with gate|].
      split; [exact Hx|]. split; [|discriminate].
      intros _ Hno. destruct Hno. right.
      now apply loop_trace_returned in Hlt.
    + destruct Hx as [Hm' [(Hn & _)|(_ & Hf)]]; [discriminate Hn|].
      destruct e.
      * exists None, w', (EvGetLockfile true :: es).
        split; [reflexivity|]. split; [exact Htr|]. split; [auto with gate|].
        split; [exact Hm'|]. split; [reflexivity|]. intros _. now apply Hf.
      * unfold mutex_Unlock at 1. rewrite Hm'.
        eexists _, _, (EvGetLockfile true :: es ++ [EvMutexUnlock]).
        split; [reflexivity|]. cbn [trace mutex flock].
        split; [rewrite Htr, <- !app_assoc; reflexivity|].
        split; [eauto with gate|].
        split; [reflexivity|]. split; [|discriminate].
        intros _ _ Hheld. apply Hf in Hheld. discriminate Hheld.
      * unfold mutex_Unlock at 1. rewrite Hm'.
        eexists _, _, (EvGetLockfile true :: es ++ [EvMutexUnlock]).
        split; [reflexivity|]. cbn [trace mutex flock].
        split; [rewrite Htr, <- !app_assoc; reflexivity|].
        split; [eauto with gate|].
        split; [reflexivity|]. split; [|discriminate].
        intros _ _ Hheld. apply Hf in Hheld. discriminate Hheld.
  - unfold mutex_Unlock at 1. subst w1. cbn [emit mutex].
    eexists _, _, [EvGetLockfile false; EvMutexUnlock].
    split; [reflexivity|]. cbn [trace flock emit].
    split; [rewrite <- !app_assoc; reflexivity|].
    split; [constructor|]. split; [reflexivity|]. split; [|discriminate].
    cbn. discriminate.
Qed.

Lemma loop_trace_well_paced n err es x :
  loop_trace n err es x -> well_paced es.
Proof.
  intros H. split; [|split].
  - exact (loop_trace_temporary _ _ _ _ H).
  - exact (loop_trace_sleep _ _ _ _ H).
  - exact (loop_trace_fatal _ _ _ _ H).
Qed.

Lemma well_paced_cons (e : event) (es : list event) :
  neutral e -> well_paced es -> well_paced (e :: es).
Proof.
  intros He (Htmp & Hsleep & Hfatal). split; [|split].
  - intros [|i] Hi; [injection Hi as ->; destruct He|]. cbn in *. auto.
  - intros [|i] s Hi; [injection Hi as ->; destruct He|]. cbn in Hi.
    destruct (Hsleep i s Hi) as (-> & j & -> & Hj). split; [reflexivity|].
    exists (S j). auto.
  - intros [|i] Hi; [injection Hi as ->; destruct He|]. cbn in Hi.
    destruct (Hfatal i Hi) as [Hnext Hlen]. cbn. auto.
Qed.

Lemma well_paced_snoc (es : list event) :
  well_paced es -> ~ In (EvTryLock LockFatal) es ->
  well_paced (es ++ [EvMutexUnlock]).
Proof.
  intros (Htmp & Hsleep & Hfatal) Hno. split; [|split].
  - intros i Hi. apply lookup_app_Some in Hi as [Hi|[_ Hi]].
    + apply lookup_app_l_Some. auto.
    + apply list_lookup_singleton_Some in Hi as [_ Hi]. discriminate Hi.
  - intros i s Hi. apply lookup_app_Some in Hi as [Hi|[_ Hi]].
    + destruct (Hsleep i s Hi) as (-> & j & -> & Hj). split; [reflexivity|].
      exists j. split; [reflexivity|]. now apply lookup_app_l_Some.
    + apply list_lookup_singleton_Some in Hi as [_ Hi]. discriminate Hi.
  - intros i Hi. apply lookup_app_Some in Hi as [Hi|[_ Hi]].
    + destruct Hno. apply list_elem_of_In, list_elem_of_lookup. eauto.
    + apply list_lookup_singleton_Some in Hi as [_ Hi]. discriminate Hi.
Qed.

Lemma tries_snoc_unlock (es : list event) :
  tries (es ++ [EvMutexUnlock]) = tries es.
Proof.
  induction es as [|e es IH]; [reflexivity|].
  cbn [app]. destruct e; cbn [tries]; now rewrite ?IH.
Qed.

Lemma loop_trace_no_lock n err es x :
  loop_trace n err es x -> ~ In EvMutexLock es.
Proof.
  induction 1 as [err|n err es x _ IH|n err es x _ IH|n err].
  - intros [].
  - intros [H|H]; [discriminate H|auto].
  - intros [H|[H|H]]; [discriminate H|discriminate H|auto].
  - intros [H|[H|[]]]; discriminate H.
Qed.

Lemma lock_tail_facts (es : list event) (err : option error) :
  lock_tail es err ->
  well_paced es /\
  (tries es <= 10)%nat /\
  ~ In EvMutexLock es /\
  (err = None -> tries es = 10%nat /\ ~ In (EvTryLock LockFatal) es /\
                 ~ In EvMutexUnlock es) /\
  (err <> None -> last es = Some EvMutexUnlock) /\
  (In (EvTryLock LockFatal) es -> err <> None).
Proof.
  destruct 1 as [|es Hlt|es e Hlt He|es err Hlt].
  - conjuncts.
    + split; [|split]; intros [|[|i]]; intros; discriminate.
    + cbn. lia.
    + intros [H|[H|[]]]; discriminate H.
    + discriminate.
    + reflexivity.
    + discriminate.
  - destruct (loop_trace_tries _ _ _ _ Hlt) as [Hle Hfin].
    destruct (Hfin LockOk eq_refl) as (Hten & Hnofatal & Hnounlock).
    conjuncts.
    + apply well_paced_cons; [exact I|]. eapply loop_trace_well_paced, Hlt.
    + exact Hle.
    + intros [H|H]; [discriminate H|]. now apply (loop_trace_no_lock _ _ _ _ Hlt).
    + intros _. split; [exact Hten|].
      split; (intros [H|H]; [discriminate H|auto]).
    + intros H. now destruct H.
    + intros [H|H]; [discriminate H|]. now destruct Hnofatal.
  - destruct (loop_trace_tries _ _ _ _ Hlt) as [Hle Hfin].
    destruct (Hfin e eq_refl) as (Hten & Hnofatal & Hnounlock).
    conjuncts.
    + apply well_paced_cons; [exact I|]. apply well_paced_snoc; [|exact Hnofatal].
      eapply loop_trace_well_paced, Hlt.
    + cbn [tries]. rewrite tries_snoc_unlock. exact Hle.
    + intros [H|H]; [discriminate H|]. apply in_app_or in H as [H|[H|[]]].
      * now apply (loop_trace_no_lock _ _ _ _ Hlt).
      * discriminate H.
    + discriminate.
    + intros _. change (EvGetLockfile true :: es ++ [EvMutexUnlock])%list
        with ((EvGetLockfile true :: es) ++ [EvMutexUnlock])%list.
      apply last_snoc.
    + discriminate.
  - destruct (loop_trace_tries _ _ _ _ Hlt) as [Hle _].
    destruct (loop_trace_returned _ _ _ _ Hlt) as (Hin & Hlast & _).
    conjuncts.
    + apply well_paced_cons; [exact I|]. eapply loop_trace_well_paced, Hlt.
    + exact Hle.
    + intros [H|H]; [discriminate H|]. now apply (loop_trace_no_lock _ _ _ _ Hlt).
    + discriminate.
    + intros _. destruct es; [destruct Hin|]. rewrite last_cons_cons. exact Hlast.
    + discriminate.
Qed.

(** The four runs of [unlock]. *)
Lemma unlock_cases (w : World) :
  unlock env w =
    if env_getLockfile env (now w) then
      if env_fileUnlock env (S (now w)) then
        if mutex w then
          Ret None
            {| mutex := false; flock := false;
               trace := trace w ++ [EvGetLockfile true; EvFileUnlock true;
                                    EvMutexUnlock] |}
        else
          Crash "sync: unlock of unlocked mutex"
            {| mutex := false; flock := false;
               trace := trace w ++ [EvGetLockfile true; EvFileUnlock true] |}
      else
        Ret (Some (Errorf "[unlock] error releasing lock"))
          {| mutex := mutex w;
             flock := flock w && env_lockFileLeft env (S (now w));
             trace := trace w ++ [EvGetLockfile true; EvFileUnlock false] |}
    else
      Ret (Some (Errorf "[unlock] cannot init lockfile"))
        {| mutex := mutex w; flock := flock w;
           trace := trace w ++ [EvGetLockfile false] |}.
Proof.
  unfold unlock, mbind, M_bind, getLockfile, file_Unlock, mutex_Unlock.
  destruct (env_getLockfile env (now w)); [|reflexivity].
  assert (Hnow : now (emit (EvGetLockfile true) w) = S (now w)).
  { unfold now, emit. cbn [trace]. rewrite length_app. cbn. lia. }
  rewrite Hnow. cbn [emit mutex flock trace].
  destruct (env_fileUnlock env (S (now w))).
  - destruct (mutex w) eqn:Hm; cbn; rewrite <- !app_assoc; reflexivity.
  - rewrite <- !app_assoc. reflexivity.
Qed.

Lemma lock_tail_no_file_unlock (les : list event) (err : option error) (ok : bool) :
  lock_tail les err -> ~ In (EvFileUnlock ok) les.
Proof.
  assert (Hloop : forall n e es x,
            loop_trace n e es x -> ~ In (EvFileUnlock ok) es).
  { induction 1; cbn; intuition discriminate. }
  destruct 1 as [|es H|es e H _|es err H]; cbn; intros Hin.
  - intuition discriminate.
  - destruct Hin as [Hin|Hin]; [discriminate Hin|]. exact (Hloop _ _ _ _ H Hin).
  - destruct Hin as [Hin|Hin]; [discriminate Hin|].
    apply in_app_or in Hin as [Hin|[Hin|[]]]; [|discriminate Hin].
    exact (Hloop _ _ _ _ H Hin).
  - destruct Hin as [Hin|Hin]; [discriminate Hin|]. exact (Hloop _ _ _ _ H Hin).
Qed.





End Gate.






(** ** The gate in the daemon fallback *)

(** C5, at a daemon that refuses the image. The gate is acquired, the load
    fails, and [rpmDataFromContainer] returns the load error with the mutex
    locked and the lock file held: no release is among its events. And when
    the image loads but [lock.Unlock()] fails, the container is created,
    started and removed while the gate is still held. *)
Theorem gate_held_after_failed_load :
  rpm.rpmDataFromContainer load_fails_env "image" idle =
    rpm.Ret (∅, Some (Errorf "Error loading image"))
      {| rpm.mutex := true; rpm.flock := true;
         rpm.trace :=
           ([rpm.EvNewClient true; rpm.EvMutexLock; rpm.EvGetLockfile true]
            ++ ten_attempts
            ++ [rpm.EvDaemonImage false; rpm.EvDaemonWrite false])%list |} /\
  rpm.rpmDataFromContainer unlock_fails_env "image" idle =
    rpm.Ret (∅, None)
      {| rpm.mutex := true; rpm.flock := true;
         rpm.trace :=
           ([rpm.EvNewClient true; rpm.EvMutexLock; rpm.EvGetLockfile true]
            ++ ten_attempts
            ++ [rpm.EvDaemonImage false; rpm.EvDaemonWrite true;
                rpm.EvGetLockfile true; rpm.EvFileUnlock false;
                rpm.EvCreateContainer true; rpm.EvStartContainer true;
                rpm.EvWaitContainer true; rpm.EvLogs true;
                rpm.EvRemoveContainer "c0";
                rpm.EvRemoveImage "rpm_test_image:abcdefghijkl"])%list |}.
Proof.
  split; vm_compute; reflexivity.
Qed.

(** * Further properties of the code *)

(** ** The world-file reader *)

Lemma world_parseApkInfo_fields (text curr : string) (packages : PackageMap)
    (name version : string) (rest : list string) :
  Split text "=" = name :: version :: rest ->
  ApkWorld.parseApkInfo text curr packages =
    Returns (name,
             <[name := {| Version := version;
                          Size := Size (lookup_or_zero packages name) |}]> packages).
Proof. intros H. unfold ApkWorld.parseApkInfo. now rewrite H. Qed.

Lemma split_with_separator (c : ascii) (s : string) :
  contains_byte c s = true ->
  exists first second rest, Split s (String c "") = first :: second :: rest.
Proof.
  intros H. pose proof (split_from_length c s) as Hlen.
  apply contains_byte_count in H. rewrite Split_byte.
  destruct (split_from (String c "") s 0) as [|a [|b l]]; cbn in Hlen; try lia.
  eauto.
Qed.

Lemma split_without_separator (c : ascii) (s : string) :
  contains_byte c s = false -> Split s (String c "") = [s].
Proof. intros H. rewrite Split_byte. now apply split_from_none. Qed.

Lemma world_scan_returns (lines : list string) :
  Forall (fun l => contains_byte "=" l = true) lines ->
  forall (curr : string) (packages : PackageMap),
    exists r, ApkWorld.scan lines curr packages = Returns r.
Proof.
  induction 1 as [|l lines Hl _ IH]; intros curr packages; [cbn; eauto|].
  destruct (split_with_separator "=" l Hl) as (n & v & rest & Hsplit).
  cbn [ApkWorld.scan]. rewrite (world_parseApkInfo_fields _ _ _ _ _ _ Hsplit).
  apply IH.
Qed.

Lemma world_scan_panics_or_returns (lines : list string) (curr : string)
    (packages : PackageMap) :
  ApkWorld.scan lines curr packages = Panics "index out of range" \/
  exists r, ApkWorld.scan lines curr packages = Returns r.
Proof.
  revert curr packages. induction lines as [|l lines IH]; intros curr packages.
  - right. cbn. eauto.
  - cbn [ApkWorld.scan].
    destruct (world_parseApkInfo_cases l curr packages) as [->|[[c p] ->]];
      [now left|apply IH].
Qed.

Lemma with_or_without_equals (lines : list string) :
  Forall (fun l => contains_byte "=" l = true) lines \/
  Exists (fun l => contains_byte "=" l = false) lines.
Proof.
  induction lines as [|l lines IH]; [left; constructor|].
  destruct (contains_byte "=" l) eqn:Hl; [|right; now left].
  destruct IH as [IH|IH]; [left; now constructor|right; now right].
Qed.

Lemma with_and_without_equals (lines : list string) :
  Forall (fun l => contains_byte "=" l = true) lines ->
  Exists (fun l => contains_byte "=" l = false) lines -> False.
Proof.
  intros Hall Hex. apply Exists_exists in Hex as (l & Hin & Hl).
  rewrite Forall_forall in Hall.
  rewrite (Hall l Hin) in Hl. discriminate Hl.
Qed.

(** X1. Once the world file is open, [readWorldFile] returns (with no
    error) exactly when every line has the byte '='; with any other line it
    panics. *)
Theorem world_reader_returns_iff
    (fs : FS) (root : string) (lines : list string) :
  Stat fs root = None ->
  Stat fs (filepath.Join root ApkWorld.apkWorldFile) = None ->
  Open fs (filepath.Join root ApkWorld.apkWorldFile) = inr lines ->
  ((exists packages, ApkWorld.readWorldFile fs root = Returns (packages, None)) <->
   Forall (fun l => contains_byte "=" l = true) lines) /\
  (ApkWorld.readWorldFile fs root = Panics "index out of range" <->
   Exists (fun l => contains_byte "=" l = false) lines).
Proof.
  intros Hroot Hstat Hopen.
  pose proof (with_or_without_equals lines) as Hdec.
  pose proof (with_and_without_equals lines) as Hexcl.
  unfold ApkWorld.readWorldFile. rewrite Hroot, Hstat, Hopen.
  destruct Hdec as [Hall|Hex].
  - destruct (world_scan_returns lines Hall "" ∅) as [[c m] Hscan].
    rewrite Hscan. split; split; eauto; try discriminate.
    intros Hex. destruct (Hexcl Hall Hex).
  - assert (Hpanic : ApkWorld.scan lines "" ∅ = Panics "index out of range").
    { apply Exists_exists in Hex as (l & Hin & Hl).
      apply list_elem_of_In in Hin.
      exact (world_scan_no_equals lines l Hin Hl "" ∅). }
    rewrite Hpanic. split; split; eauto.
    + intros [m Hm]. discriminate Hm.
    + intros Hall. destruct (Hexcl Hall Hex).
Qed.

Lemma world_reader_returns_iff_witness :
  ((exists packages,
      ApkWorld.readWorldFile pinned_world "/img" = Returns (packages, None)) <->
   Forall (fun l => contains_byte "=" l = true)
     ["musl=1.2.5-r0"; "curl=8.8.0-r0"; "musl=1.2.5-r1"; "zlib=1.3=r1"]) /\
  (ApkWorld.readWorldFile pinned_world "/img" = Panics "index out of range" <->
   Exists (fun l => contains_byte "=" l = false)
     ["musl=1.2.5-r0"; "curl=8.8.0-r0"; "musl=1.2.5-r1"; "zlib=1.3=r1"]).
Proof.
  apply (world_reader_returns_iff pinned_world "/img").
  - vm_compute. reflexivity.
  - vm_compute. reflexivity.
  - vm_compute. reflexivity.
Defined.

Lemma world_parseApkInfo_returns (text curr : string) (packages : PackageMap)
    (r : string * PackageMap) :
  ApkWorld.parseApkInfo text curr packages = Returns r ->
  exists name version rest,
    Split text "=" = name :: version :: rest /\
    r = (name, <[name := {| Version := version;
                            Size := Size (lookup_or_zero packages name) |}]> packages).
Proof.
  unfold ApkWorld.parseApkInfo.
  destruct (Split text "=") as [|n [|v rest]]; cbn; intros H; try discriminate H.
  injection H as <-. eauto.
Qed.

Lemma sizeless_lookup_or_zero (packages : PackageMap) (name : string) :
  sizeless packages -> Size (lookup_or_zero packages name) = 0.
Proof.
  intros H. unfold lookup_or_zero.
  destruct (packages !! name) as [info|] eqn:Hl; [exact (H _ _ Hl)|reflexivity].
Qed.

Lemma sizeless_insert (packages : PackageMap) (name version : string) :
  sizeless packages ->
  sizeless (<[name := {| Version := version; Size := 0 |}]> packages).
Proof.
  intros H n i. destruct (decide (name = n)) as [->|Hne].
  - rewrite lookup_insert_eq. now intros [= <-].
  - rewrite lookup_insert_ne by exact Hne. apply H.
Qed.

Lemma world_scan_sizeless (lines : list string) :
  forall (curr : string) (packages : PackageMap) (r : string * PackageMap),
    sizeless packages ->
    ApkWorld.scan lines curr packages = Returns r -> sizeless r.2.
Proof.
  induction lines as [|l lines IH]; intros curr packages r Hs Hscan.
  - cbn in Hscan. injection Hscan as <-. exact Hs.
  - cbn [ApkWorld.scan] in Hscan.
    destruct (ApkWorld.parseApkInfo l curr packages) as [[c p]|msg] eqn:Hp;
      [|discriminate Hscan].
    apply world_parseApkInfo_returns in Hp as (n & v & rest & _ & Hr).
    injection Hr as -> ->. rewrite (sizeless_lookup_or_zero _ _ Hs) in Hscan.
    exact (IH _ _ _ (sizeless_insert _ _ _ Hs) Hscan).
Qed.

(** X2. The world-file reader never records a size: whatever the file
    system holds, every entry of the map [readWorldFile] returns has
    size 0. *)
Theorem world_reader_records_no_size
    (fs : FS) (root : string) (packages : PackageMap) (err : option error)
    (name : string) (info : PackageInfo) :
  ApkWorld.readWorldFile fs root = Returns (packages, err) ->
  packages !! name = Some info ->
  Size info = 0.
Proof.
  unfold ApkWorld.readWorldFile.
  assert (Hempty : sizeless ∅) by (intros n i H; now rewrite lookup_empty in H).
  destruct (Stat fs root); [intros [= <- _] H; now rewrite lookup_empty in H|].
  destruct (Stat fs _); [intros [= <- _] H; now rewrite lookup_empty in H|].
  destruct (Open fs _) as [e|lines];
    [intros [= <- _] H; now rewrite lookup_empty in H|].
  destruct (ApkWorld.scan lines "" ∅) as [[c m]|msg] eqn:Hscan;
    [|discriminate].
  intros [= <- _]. exact (world_scan_sizeless _ _ _ _ Hempty Hscan name info).
Qed.

Lemma world_reader_records_no_size_witness :
  Size {| Version := "1.2.5-r1"; Size := 0 |} = 0.
Proof.
  refine (world_reader_records_no_size pinned_world "/img"
            {[ "musl" := {| Version := "1.2.5-r1"; Size := 0 |};
               "curl" := {| Version := "8.8.0-r0"; Size := 0 |};
               "zlib" := {| Version := "1.3"; Size := 0 |} ]} None
            "musl" {| Version := "1.2.5-r1"; Size := 0 |} _ _).
  - vm_compute. reflexivity.
  - vm_compute. reflexivity.
Defined.

Lemma world_entry_cons (l : string) (lines : list string) (name : string)
    (info : PackageInfo) :
  world_entry (l :: lines) name info <->
  (exists version rest,
     Split l "=" = name :: version :: rest /\
     info = {| Version := version; Size := 0 |} /\
     forall l', In l' lines -> head (Split l' "=") <> Some name) \/
  world_entry lines name info.
Proof.
  unfold world_entry. split.
  - intros (pre & line & post & v & rest & Heq & H).
    destruct pre as [|x pre]; cbn in Heq; injection Heq as -> ->.
    + left. exists v, rest. exact H.
    + right. exists pre, line, post, v, rest. auto.
  - intros [(v & rest & H)|(pre & line & post & v & rest & -> & H)].
    + exists [], l, lines, v, rest. auto.
    + exists (l :: pre), line, post, v, rest. auto.
Qed.

Lemma world_scan_spec (lines : list string) :
  Forall (fun l => contains_byte "=" l = true) lines ->
  forall (curr : string) (acc : PackageMap),
    sizeless acc ->
    exists c m,
      ApkWorld.scan lines curr acc = Returns (c, m) /\
      forall name info,
        m !! name = Some info <->
        world_entry lines name info \/
        ((forall l, In l lines -> head (Split l "=") <> Some name) /\
         acc !! name = Some info).
Proof.
  induction 1 as [|l lines Hl _ IH]; intros curr acc Hs.
  - exists curr, acc. split; [reflexivity|]. intros name info. split.
    + intros H. right. split; [intros ? []|exact H].
    + intros [(pre & line & post & v & rest & Heq & _)|[_ H]]; [|exact H].
      now destruct pre.
  - destruct (split_with_separator "=" l Hl) as (n & v & rest & Hsplit).
    cbn [ApkWorld.scan]. rewrite (world_parseApkInfo_fields _ _ _ _ _ _ Hsplit).
    rewrite (sizeless_lookup_or_zero _ _ Hs).
    destruct (IH n _ (sizeless_insert acc n v Hs)) as (c & m & Hscan & Hmap).
    exists c, m. split; [exact Hscan|].
    intros name info. rewrite Hmap, world_entry_cons.
    destruct (decide (n = name)) as [->|Hne].
    + rewrite lookup_insert_eq. split.
      * intros [H|[Hno [= <-]]]; [auto|]. left. left. eauto.
      * intros [[(v' & rest' & Hs' & -> & Hno)|H]|[Hno _]]; [|auto|].
        -- rewrite Hsplit in Hs'. injection Hs' as <- <-. auto.
        -- destruct (Hno l (or_introl eq_refl)). now rewrite Hsplit.
    + rewrite lookup_insert_ne by exact Hne. split.
      * intros [H|[Hno Hacc]]; [auto|]. right. split; [|exact Hacc].
        intros l' [<-|Hin]; [|now apply Hno].
        rewrite Hsplit. cbn. congruence.
      * intros [[(v' & rest' & Hs' & _)|H]|[Hno Hacc]]; [|auto|].
        -- rewrite Hsplit in Hs'. now injection Hs'.
        -- right. split; [|exact Hacc]. intros l' Hin. apply Hno. now right.
Qed.

(** X3. When every line of the world file has the byte '=', the map
    [readWorldFile] returns has, for each name that is the first field of a
    line, the second field of the last such line as its version (so a name
    listed twice keeps the later version, and [a=b=c] records version [b]),
    and it has no other entry. *)
Theorem world_reader_last_line_wins
    (fs : FS) (root : string) (lines : list string) :
  Stat fs root = None ->
  Stat fs (filepath.Join root ApkWorld.apkWorldFile) = None ->
  Open fs (filepath.Join root ApkWorld.apkWorldFile) = inr lines ->
  Forall (fun l => contains_byte "=" l = true) lines ->
  exists packages,
    ApkWorld.readWorldFile fs root = Returns (packages, None) /\
    forall name info,
      packages !! name = Some info <-> world_entry lines name info.
Proof.
  intros Hroot Hstat Hopen Hall.
  assert (Hempty : sizeless ∅) by (intros n i H; now rewrite lookup_empty in H).
  destruct (world_scan_spec lines Hall "" ∅ Hempty) as (c & m & Hscan & Hmap).
  exists m. unfold ApkWorld.readWorldFile. rewrite Hroot, Hstat, Hopen, Hscan.
  split; [reflexivity|]. intros name info. rewrite Hmap. split; [|auto].
  intros [H|[_ H]]; [exact H|]. now rewrite lookup_empty in H.
Qed.

Lemma world_reader_last_line_wins_witness :
  exists packages,
    ApkWorld.readWorldFile pinned_world "/img" = Returns (packages, None) /\
    forall name info,
      packages !! name = Some info <->
      world_entry ["musl=1.2.5-r0"; "curl=8.8.0-r0"; "musl=1.2.5-r1"; "zlib=1.3=r1"]
        name info.
Proof.
  apply (world_reader_last_line_wins pinned_world "/img").
  - vm_compute. reflexivity.
  - vm_compute. reflexivity.
  - vm_compute. reflexivity.
  - repeat constructor.
Defined.

(** ** The installed-database reader *)

Lemma split_key_value (key value : string) :
  contains_byte ":" key = false -> contains_byte ":" value = false ->
  Split (key +:+ ":" +:+ value) ":" = [key; value].
Proof.
  intros Hk Hv. rewrite (Split_byte ":").
  change (key +:+ ":" +:+ value) with (key +:+ String ":" value).
  rewrite split_from_app by exact Hk. now rewrite split_from_none.
Qed.

Lemma installed_parse_P (value curr : string) (packages : PackageMap) :
  contains_byte ":" value = false ->
  ApkInstalled.parseApkInfo ("P:" +:+ value) curr packages = (value, packages).
Proof.
  intros Hv. unfold ApkInstalled.parseApkInfo.
  change ("P:" +:+ value) with ("P" +:+ ":" +:+ value).
  now rewrite (split_key_value "P" value eq_refl Hv).
Qed.

Lemma installed_parse_V (value curr : string) (packages : PackageMap) :
  contains_byte ":" value = false ->
  ApkInstalled.parseApkInfo ("V:" +:+ value) curr packages =
    (curr, <[curr := {| Version := value;
                        Size := Size (lookup_or_zero packages curr) |}]> packages).
Proof.
  intros Hv. unfold ApkInstalled.parseApkInfo.
  change ("V:" +:+ value) with ("V" +:+ ":" +:+ value).
  now rewrite (split_key_value "V" value eq_refl Hv).
Qed.

Lemma installed_parse_I (value curr : string) (packages : PackageMap) (n : Z) :
  contains_byte ":" value = false -> ParseInt value = Some n ->
  ApkInstalled.parseApkInfo ("I:" +:+ value) curr packages =
    (curr, <[curr := {| Version := Version (lookup_or_zero packages curr);
                        Size := n |}]> packages).
Proof.
  intros Hv Hn. unfold ApkInstalled.parseApkInfo.
  change ("I:" +:+ value) with ("I" +:+ ":" +:+ value).
  rewrite (split_key_value "I" value eq_refl Hv). cbn. now rewrite Hn.
Qed.

(** X4. A record of the installed database, [P:name], [V:version],
    [I:size] with a size that parses, leaves the entry
    [name -> (version, size)] in the map, replacing whatever the map held
    for that name, and the size is stored as parsed (not converted). *)
Theorem installed_record_is_recorded
    (name version size : string) (n : Z)
    (rest : list string) (curr : string) (packages : PackageMap) :
  contains_byte ":" name = false ->
  contains_byte ":" version = false ->
  contains_byte ":" size = false ->
  ParseInt size = Some n ->
  ApkInstalled.scan
    (("P:" +:+ name) :: ("V:" +:+ version) :: ("I:" +:+ size) :: rest)
    curr packages =
  ApkInstalled.scan rest name
    (<[name := {| Version := version; Size := n |}]> packages).
Proof.
  intros Hname Hversion Hsize Hn. cbn [ApkInstalled.scan].
  rewrite (installed_parse_P name curr packages Hname).
  rewrite (installed_parse_V version name packages Hversion).
  rewrite (installed_parse_I size name _ n Hsize Hn).
  unfold lookup_or_zero at 1. rewrite lookup_insert_eq. cbn [default Version].
  now rewrite insert_insert_eq.
Qed.

Lemma installed_record_is_recorded_witness :
  ApkInstalled.scan
    (("P:" +:+ "musl") :: ("V:" +:+ "1.2.5-r0") :: ("I:" +:+ "634880") :: [])
    "" {[ "musl" := {| Version := "1.2.4-r2"; Size := 1 |} ]} =
  ApkInstalled.scan [] "musl"
    (<[ "musl" := {| Version := "1.2.5-r0"; Size := 634880 |}]>
       {[ "musl" := {| Version := "1.2.4-r2"; Size := 1 |} ]}).
Proof.
  apply (installed_record_is_recorded "musl" "1.2.5-r0" "634880" 634880);
    reflexivity.
Defined.

Lemma installed_parse_irrelevant (line curr : string) (packages : PackageMap) :
  relevant line = false ->
  ApkInstalled.parseApkInfo line curr packages = (curr, packages).
Proof.
  unfold relevant, ApkInstalled.parseApkInfo.
  destruct (Split line ":") as [|k [|v [|x l]]]; try reflexivity.
  destruct (String.eqb k "P"); [discriminate|].
  destruct (String.eqb k "V"); [discriminate|].
  destruct (String.eqb k "I"); [discriminate|reflexivity].
Qed.

(** X5. The installed-database reader looks only at the [P], [V] and [I]
    lines of two fields: deleting every other line (other keys, empty
    lines, lines with a second colon) from the file does not change what
    is read. *)
Theorem installed_scan_relevant_lines
    (lines : list string) (curr : string) (packages : PackageMap) :
  ApkInstalled.scan lines curr packages =
  ApkInstalled.scan (List.filter relevant lines) curr packages.
Proof.
  revert curr packages. induction lines as [|l lines IH]; intros curr packages;
    [reflexivity|].
  cbn [List.filter]. destruct (relevant l) eqn:Hl; cbn [ApkInstalled.scan].
  - destruct (ApkInstalled.parseApkInfo l curr packages). apply IH.
  - rewrite (installed_parse_irrelevant l curr packages Hl). apply IH.
Qed.

Lemma installed_parse_step (line curr : string) (packages : PackageMap) :
  let r := ApkInstalled.parseApkInfo line curr packages in
  (r.1 = curr \/ Split line ":" = ["P"; r.1]) /\
  (forall name, is_Some (r.2 !! name) -> is_Some (packages !! name) \/ name = curr) /\
  (forall name, is_Some (packages !! name) -> is_Some (r.2 !! name)).
Proof.
  unfold ApkInstalled.parseApkInfo.
  assert (Hins : forall info name,
            is_Some (<[curr := info]> packages !! name) ->
            is_Some (packages !! name) \/ name = curr).
  { intros info name. destruct (decide (curr = name)) as [->|Hne]; [auto|].
    rewrite lookup_insert_ne by exact Hne. auto. }
  assert (Hkeep : forall info name,
            is_Some (packages !! name) ->
            is_Some (<[curr := info]> packages !! name)).
  { intros info name. destruct (decide (curr = name)) as [->|Hne].
    - rewrite lookup_insert_eq. eauto.
    - now rewrite lookup_insert_ne by exact Hne. }
  destruct (Split line ":") as [|k [|v [|x l]]]; cbn zeta.
  1, 2, 4: split; [|split]; cbn; auto.
  destruct (String.eqb_spec k "P") as [->|_]; [split; [|split]; cbn; auto|].
  destruct (String.eqb k "V"); [split; [|split]; cbn; eauto|].
  destruct (String.eqb k "I"); (split; [|split]); cbn; eauto.
Qed.

Lemma installed_scan_names (lines : list string) :
  forall (curr : string) (packages : PackageMap) (name : string),
    is_Some ((ApkInstalled.scan lines curr packages).2 !! name) ->
    is_Some (packages !! name) \/ name = curr \/
    exists line, In line lines /\ Split line ":" = ["P"; name].
Proof.
  induction lines as [|l lines IH]; intros curr packages name; [cbn; auto|].
  cbn [ApkInstalled.scan].
  pose proof (installed_parse_step l curr packages) as (Hcurr & Hnew & _).
  destruct (ApkInstalled.parseApkInfo l curr packages) as [c p].
  cbn [fst snd] in Hcurr, Hnew. intros H.
  destruct (IH c p name H) as [Hp|[->|(line & Hin & Hline)]].
  - destruct (Hnew name Hp); auto.
  - destruct Hcurr as [->|Hl]; [auto|]. right. right. exists l. split; [now left|exact Hl].
  - right. right. exists line. split; [now right|exact Hline].
Qed.

(** X6. Every package name in the map the installed-database reader
    returns is the value of a two-field [P:] line of the file, or is the
    empty name (the name under which [V:] and [I:] lines are filed before
    the first [P:] line). *)
Theorem installed_names_come_from_P_lines
    (fs : FS) (root name : string) :
  is_Some ((ApkInstalled.readWorldFile fs root).1 !! name) ->
  name = "" \/
  exists lines line,
    Open fs (filepath.Join root ApkInstalled.apkInstalledPackagesFile) = inr lines /\
    In line lines /\ Split line ":" = ["P"; name].
Proof.
  unfold ApkInstalled.readWorldFile.
  assert (Hempty : forall A : Prop, is_Some ((∅ : PackageMap) !! name) -> A).
  { intros A [x Hx]. now rewrite lookup_empty in Hx. }
  destruct (Stat fs root); [apply Hempty|].
  destruct (Stat fs _); [apply Hempty|].
  destruct (Open fs _) as [e|lines]; [apply Hempty|].
  cbn [fst]. intros H.
  destruct (installed_scan_names lines "" ∅ name H) as [Hp|[->|(line & Hin & Hl)]].
  - now apply Hempty.
  - now left.
  - right. eauto.
Qed.

Lemma installed_names_come_from_P_lines_witness :
  "busybox" = "" \/
  exists lines line,
    Open alpine_db
      (filepath.Join "/img" ApkInstalled.apkInstalledPackagesFile) = inr lines /\
    In line lines /\ Split line ":" = ["P"; "busybox"].
Proof.
  apply (installed_names_come_from_P_lines alpine_db "/img" "busybox").
  vm_compute. eauto.
Defined.

Lemma join_not_empty (root rel : string) :
  root <> "" -> filepath.Join root rel <> "".
Proof.
  intros Hroot. unfold filepath.Join.
  destruct root as [|a root]; [now destruct Hroot|].
  unfold filepath.Clean.
  now destruct (_ +:+ filepath.join_elems _).
Qed.

Lemma Stat_None (fs : FS) (path : string) :
  Stat fs path = None <-> path <> "" /\ is_Some (fs !! path).
Proof.
  unfold Stat. destruct path as [|a path].
  - split; [discriminate|]. now intros [H _].
  - destruct (fs !! String a path) as [node|].
    + split; [|reflexivity]. intros _. split; [discriminate|eauto].
    + split; [discriminate|]. intros [_ [x Hx]]. discriminate Hx.
Qed.

(** X7. The installed-database reader returns an error in two cases only:
    the root cannot be stat'ed, or the database file exists and cannot be
    opened; and with an error it returns the empty map. A missing database
    file is not among them. *)
Theorem installed_reader_error_iff (fs : FS) (root : string) :
  let path := filepath.Join root ApkInstalled.apkInstalledPackagesFile in
  ((ApkInstalled.readWorldFile fs root).2 <> None <->
   Stat fs root <> None \/ fs !! path = Some NoAccess) /\
  ((ApkInstalled.readWorldFile fs root).2 <> None ->
   (ApkInstalled.readWorldFile fs root).1 = ∅).
Proof.
  intros path. unfold ApkInstalled.readWorldFile. fold path.
  destruct (Stat fs root) as [e|] eqn:Hroot.
  { cbn. split; [|reflexivity]. split; [intros _; now left|discriminate]. }
  assert (Hpath : path <> "").
  { apply join_not_empty. now apply Stat_None in Hroot. }
  destruct (Stat fs path) as [e|] eqn:Hstat.
  { cbn. split; [|reflexivity]. split; [intros H; now destruct H|].
    intros [H|H]; [now destruct H|]. unfold Stat in Hstat. rewrite H in Hstat.
    destruct path; [now destruct Hpath|discriminate Hstat]. }
  apply Stat_None in Hstat as [_ [node Hnode]]. unfold Open. rewrite Hnode.
  destruct node; cbn; (split; [|try reflexivity; intros H; now destruct H]).
  - split; [intros H; now destruct H|]. intros [H|H]; [now destruct H|discriminate H].
  - split; [intros H; now destruct H|]. intros [H|H]; [now destruct H|discriminate H].
  - split; [intros _; now right|discriminate].
Qed.

(** ** Sizes are int64 values *)

Lemma digit_bounds (c : ascii) (d : Z) : digit c = Some d -> 0 <= d <= 9.
Proof.
  unfold digit. destruct (_ && _) eqn:H; [|discriminate].
  intros [= <-]. apply andb_true_iff in H as [H1 H2]. lia.
Qed.

Lemma digits_nonneg (s : string) :
  forall acc n, 0 <= acc -> digits s acc = Some n -> 0 <= n.
Proof.
  induction s as [|c s IH]; intros acc n Hacc; cbn [digits].
  - intros [= <-]. exact Hacc.
  - destruct (digit c) as [d|] eqn:Hd; [|discriminate].
    apply digit_bounds in Hd. apply IH. lia.
Qed.

Lemma ParseUint_bounds (s : string) (n : Z) :
  ParseUint s = Some n -> 0 <= n < 2 ^ 64.
Proof.
  unfold ParseUint. destruct s as [|c s]; [discriminate|].
  destruct (digits (String c s) 0) as [m|] eqn:Hm; [|discriminate].
  destruct (m <? 2 ^ 64) eqn:Hlt; [|discriminate].
  intros [= <-]. split; [exact (digits_nonneg _ _ _ (Z.le_refl 0) Hm)|lia].
Qed.

Lemma ParseInt_int64 (s : string) (n : Z) : ParseInt s = Some n -> int64 n.
Proof.
  unfold ParseInt, int64. destruct s as [|c s]; [discriminate|].
  destruct (ParseUint _) as [un|] eqn:Hun; [|discriminate].
  apply ParseUint_bounds in Hun.
  destruct (Ascii.eqb c "-"); cbn [negb andb].
  - destruct (2 ^ 63 <? un) eqn:Hc; [discriminate|]. intros [= <-]. lia.
  - destruct (2 ^ 63 <=? un) eqn:Hc; [discriminate|]. intros [= <-]. lia.
Qed.

Lemma sizes_fit_insert (packages : PackageMap) (name : string) (info : PackageInfo) :
  sizes_fit packages -> int64 (Size info) ->
  sizes_fit (<[name := info]> packages).
Proof.
  intros H Hi n i. destruct (decide (name = n)) as [->|Hne].
  - rewrite lookup_insert_eq. now intros [= <-].
  - rewrite lookup_insert_ne by exact Hne. apply H.
Qed.

Lemma sizes_fit_lookup_or_zero (packages : PackageMap) (name : string) :
  sizes_fit packages -> int64 (Size (lookup_or_zero packages name)).
Proof.
  intros H. unfold lookup_or_zero.
  destruct (packages !! name) as [info|] eqn:Hl; [exact (H _ _ Hl)|].
  cbn. unfold int64. lia.
Qed.

Lemma installed_parse_sizes_fit (line curr : string) (packages : PackageMap) :
  sizes_fit packages ->
  sizes_fit (ApkInstalled.parseApkInfo line curr packages).2.
Proof.
  intros H. unfold ApkInstalled.parseApkInfo.
  destruct (Split line ":") as [|k [|v [|x l]]]; try exact H.
  destruct (String.eqb k "P"); [exact H|].
  destruct (String.eqb k "V").
  { apply sizes_fit_insert; [exact H|]. now apply sizes_fit_lookup_or_zero. }
  destruct (String.eqb k "I"); [|exact H].
  apply sizes_fit_insert; [exact H|]. cbn [Size].
  destruct (ParseInt v) as [n|] eqn:Hn; [exact (ParseInt_int64 _ _ Hn)|].
  unfold int64. lia.
Qed.

Lemma installed_scan_sizes_fit (lines : list string) :
  forall (curr : string) (packages : PackageMap),
    sizes_fit packages -> sizes_fit (ApkInstalled.scan lines curr packages).2.
Proof.
  induction lines as [|l lines IH]; intros curr packages H; [exact H|].
  cbn [ApkInstalled.scan].
  pose proof (installed_parse_sizes_fit l curr packages H) as Hstep.
  destruct (ApkInstalled.parseApkInfo l curr packages) as [c p]. now apply IH.
Qed.

Lemma parse_loop_sizes_fit (rpmOutput : list string) :
  forall acc : PackageMap,
    sizes_fit acc -> sizes_fit (rpm.parse_loop rpmOutput acc).1.
Proof.
  induction rpmOutput as [|line rest IH]; intros acc H; [exact H|].
  cbn [rpm.parse_loop].
  destruct (Split line rpm.tab) as [|n [|v [|s [|x l]]]]; try now apply IH.
  destruct (ParseInt s) as [z|] eqn:Hz; [|exact H].
  apply IH, sizes_fit_insert; [exact H|]. exact (ParseInt_int64 _ _ Hz).
Qed.

(** X8. Every size that the installed-database reader and the rpm output
    parser put in a map is an int64 value: a parsed number in range, the
    -1 of an unparsable [I:] value, or the 0 of a package without size. *)
Theorem recorded_sizes_are_int64
    (fs : FS) (root : string) (rpmOutput : list string) :
  sizes_fit (ApkInstalled.readWorldFile fs root).1 /\
  sizes_fit (rpm.parsePackageData rpmOutput).1.
Proof.
  assert (Hempty : sizes_fit ∅) by (intros n i H; now rewrite lookup_empty in H).
  split.
  - unfold ApkInstalled.readWorldFile.
    destruct (Stat fs root); [exact Hempty|].
    destruct (Stat fs _); [exact Hempty|].
    destruct (Open fs _) as [e|lines]; [exact Hempty|].
    now apply installed_scan_sizes_fit.
  - now apply parse_loop_sizes_fit.
Qed.

(** ** The rpm query output, continued *)

Lemma parse_loop_app (l1 l2 : list string) :
  forall acc : PackageMap,
    rpm.parse_loop (l1 ++ l2) acc =
      match rpm.parse_loop l1 acc with
      | (packages, None) => rpm.parse_loop l2 packages
      | (packages, Some err) => (packages, Some err)
      end.
Proof.
  induction l1 as [|line l1 IH]; intros acc; [reflexivity|].
  cbn [app rpm.parse_loop].
  destruct (Split line rpm.tab) as [|n [|v [|s [|x l]]]]; try apply IH.
  destruct (ParseInt s); [apply IH|reflexivity].
Qed.

(** X9. [parsePackageData] stops at the first line of three fields whose
    size does not parse: it returns the error for that size together with
    the map of the lines before it, and never looks at the lines after
    it. *)
Theorem parsePackageData_stops_at_bad_size
    (before after : list string) (line name version size : string) :
  (rpm.parsePackageData before).2 = None ->
  Split line rpm.tab = [name; version; size] ->
  ParseInt size = None ->
  rpm.parsePackageData (before ++ line :: after) =
    ((rpm.parsePackageData before).1,
     Some (Errorf ("error converting package size: " +:+ size))).
Proof.
  unfold rpm.parsePackageData. intros Hbefore Hline Hsize.
  rewrite parse_loop_app.
  destruct (rpm.parse_loop before ∅) as [packages err]. cbn in Hbefore. subst err.
  cbn [rpm.parse_loop fst]. now rewrite Hline, Hsize.
Qed.

Lemma parsePackageData_stops_at_bad_size_witness :
  rpm.parsePackageData
    ([row "bash" "5.1.8-9.el9" "7738634"] ++
     row "glibc" "2.34-100.el9" "6.4M" :: [row "zlib" "1.2.11-40.el9" "202715"]) =
    ((rpm.parsePackageData [row "bash" "5.1.8-9.el9" "7738634"]).1,
     Some (Errorf ("error converting package size: " +:+ "6.4M"))).
Proof.
  apply (parsePackageData_stops_at_bad_size
           [row "bash" "5.1.8-9.el9" "7738634"]
           [row "zlib" "1.2.11-40.el9" "202715"]
           (row "glibc" "2.34-100.el9" "6.4M") "glibc" "2.34-100.el9" "6.4M").
  - vm_compute. reflexivity.
  - vm_compute. reflexivity.
  - vm_compute. reflexivity.
Defined.

Lemma contains_byte_app (c : ascii) (a b : string) :
  contains_byte c (a +:+ b) = contains_byte c a || contains_byte c b.
Proof.
  induction a as [|x a IH]; [reflexivity|].
  rewrite append_cons. cbn [contains_byte]. rewrite IH.
  now destruct (Ascii.eqb x c).
Qed.

Lemma split_row (name version size : string) :
  plain name -> plain version -> plain size ->
  Split (row name version size) rpm.tab = [name; version; size].
Proof.
  intros [Hn _] [Hv _] [Hs _]. unfold row, rpm.tab.
  rewrite (Split_byte (ascii_of_nat 9)).
  change (name +:+ String (ascii_of_nat 9) "" +:+ version +:+
          String (ascii_of_nat 9) "" +:+ size)
    with (name +:+ String (ascii_of_nat 9) (version +:+ String (ascii_of_nat 9) size)).
  rewrite split_from_app by exact Hn. rewrite split_from_app by exact Hv.
  now rewrite split_from_none by exact Hs.
Qed.

Lemma row_one_line (name version size : string) :
  plain name -> plain version -> plain size ->
  contains_byte (ascii_of_nat 10) (row name version size) = false.
Proof.
  intros [_ Hn] [_ Hv] [_ Hs]. unfold row.
  rewrite !contains_byte_app, Hn, Hv, Hs. reflexivity.
Qed.

Lemma split_render_rows (entries : list (string * string * string)) :
  Forall well_formed_entry entries ->
  Split (render_rows entries) rpm.newline =
    (map (fun e => row e.1.1 e.1.2 e.2) entries ++ [""])%list.
Proof.
  unfold rpm.newline. rewrite (Split_byte (ascii_of_nat 10)).
  induction 1 as [|[[n v] s] entries (Hn & Hv & Hs & _) _ IH]; [reflexivity|].
  cbn [render_rows map app fst snd].
  change (row n v s +:+ rpm.newline +:+ render_rows entries)
    with (row n v s +:+ String (ascii_of_nat 10) (render_rows entries)).
  rewrite split_from_app by (now apply row_one_line). now rewrite IH.
Qed.

Lemma parse_rows (entries : list (string * string * string)) :
  Forall well_formed_entry entries ->
  NoDup (map (fun e => e.1.1) entries) ->
  forall acc : PackageMap,
    exists packages,
      rpm.parse_loop (map (fun e => row e.1.1 e.1.2 e.2) entries ++ [""]) acc =
        (packages, None) /\
      forall name info,
        packages !! name = Some info <->
        (exists size, In (name, Version info, size) entries /\
                      ParseInt size = Some (Size info)) \/
        (~ In name (map (fun e => e.1.1) entries) /\ acc !! name = Some info).
Proof.
  induction 1 as [|[[n v] s] entries (Hn & Hv & Hs & [z Hz]) _ IH];
    intros Hdup acc.
  - exists acc. split; [reflexivity|]. intros name info. split.
    + intros H. right. split; [intros []|exact H].
    + intros [(size & [] & _)|[_ H]]. exact H.
  - cbn [fst snd] in Hn, Hv, Hs, Hz. cbn [map fst snd] in Hdup.
    apply NoDup_cons in Hdup as [Hfresh Hdup].
    rewrite list_elem_of_In in Hfresh.
    cbn [map app fst snd].
    rewrite (parse_loop_entry _ _ _ _ _ _ (split_row n v s Hn Hv Hs)), Hz.
    destruct (IH Hdup (<[n := {| Version := v; Size := z |}]> acc))
      as (packages & Hrun & Hmap).
    exists packages. split; [exact Hrun|].
    intros name info. rewrite Hmap. destruct (decide (n = name)) as [->|Hne].
    + rewrite lookup_insert_eq. split.
      * intros [(size & Hin & _)|[_ [= <-]]].
        -- destruct Hfresh. apply in_map_iff. now exists (name, Version info, size).
        -- left. exists s. split; [now left|exact Hz].
      * intros [(size & [[= Hversion <-]|Hin] & Hsize)|[Hno _]].
        -- right. split; [exact Hfresh|]. rewrite Hz in Hsize.
           injection Hsize as ->. rewrite Hversion. now destruct info.
        -- destruct Hfresh. apply in_map_iff. now exists (name, Version info, size).
        -- destruct Hno. now left.
    + rewrite lookup_insert_ne by exact Hne. split.
      * intros [(size & Hin & Hsize)|[Hno Hacc]].
        -- left. exists size. split; [now right|exact Hsize].
        -- right. split; [|exact Hacc]. intros [H|H]; [now destruct Hne|auto].
      * intros [(size & [[= H _ _]|Hin] & Hsize)|[Hno Hacc]].
        -- now destruct Hne.
        -- left. eauto.
        -- right. split; [|exact Hacc]. intros H. apply Hno. now right.
Qed.

(** X10. The query output round trip: for packages of distinct names with
    plain fields and sizes that parse, splitting the output of the query
    (one row per package in the format of [rpmCmd], each ended by a
    newline) at the newlines and parsing it gives no error and a map with
    exactly those packages, each with its version and its parsed size. *)
Theorem rpm_output_round_trip (entries : list (string * string * string)) :
  Forall well_formed_entry entries ->
  NoDup (map (fun e => e.1.1) entries) ->
  exists packages,
    rpm.parsePackageData (Split (render_rows entries) rpm.newline) =
      (packages, None) /\
    forall name info,
      packages !! name = Some info <->
      exists size, In (name, Version info, size) entries /\
                   ParseInt size = Some (Size info).
Proof.
  intros Hwf Hdup. rewrite (split_render_rows entries Hwf).
  destruct (parse_rows entries Hwf Hdup ∅) as (packages & Hrun & Hmap).
  exists packages. split; [exact Hrun|]. intros name info. rewrite Hmap.
  split; [|auto]. intros [H|[_ H]]; [exact H|]. now rewrite lookup_empty in H.
Qed.

Lemma rpm_output_round_trip_witness :
  exists packages,
    rpm.parsePackageData (Split (render_rows three_packages) rpm.newline) =
      (packages, None) /\
    forall name info,
      packages !! name = Some info <->
      exists size, In (name, Version info, size) three_packages /\
                   ParseInt size = Some (Size info).
Proof.
  apply (rpm_output_round_trip three_packages).
  - repeat constructor; vm_compute; eauto.
  - cbn. repeat constructor; rewrite list_elem_of_In; cbn; intuition discriminate.
Defined.

(** ** Runs of the daemon fallback *)

Section Container.

Import rpm.

Variable env : Env.

Lemma draw_tags_run (n : nat) :
  forall w,
    draw_tags n w =
      Ret tt {| mutex := mutex w; flock := flock w;
                trace := trace w ++ draws n |}.
Proof.
  induction n as [|n IH]; intros w; [reflexivity|].
  cbn [draw_tags]. rewrite IH. unfold draws. cbn [emit mutex flock trace repeat].
  now rewrite <- !app_assoc.
Qed.

(** The run is computed: what is left is the shape of its events. *)
Ltac query_done :=
  split; [reflexivity|]; cbn [emit mutex flock trace bool_decide];
  rewrite <- ?app_assoc; repeat (split; [reflexivity|]); constructor.

Lemma run_query_run (imageName : string) (w : World) :
  exists r w' qes,
    run_query env imageName w = Ret r w' /\
    mutex w' = mutex w /\ flock w' = flock w /\
    trace w' = (trace w ++ qes)%list /\
    query_trace qes r.
Proof.
  unfold run_query, mbind, M_bind, CreateContainer.
  destruct (env_createContainer env (now w)) as [id|].
  2:{ eexists _, _, [EvCreateContainer false]. query_done. }
  unfold defer, StartContainer.
  set (w1 := emit (EvCreateContainer (bool_decide (is_Some (Some id)))) w).
  destruct (env_startContainer env (now w1)).
  2:{ eexists _, _, [EvCreateContainer true; EvStartContainer false;
                     EvRemoveContainer id].
      subst w1. query_done. }
  unfold WaitContainer.
  set (w2 := emit (EvStartContainer true) w1).
  destruct (env_waitContainer env (now w2)) as [exitCode|].
  2:{ eexists _, _, [EvCreateContainer true; EvStartContainer true;
                     EvWaitContainer false; EvRemoveContainer id].
      subst w1 w2. query_done. }
  unfold Logs.
  set (w3 := emit (EvWaitContainer (bool_decide (is_Some (Some exitCode)))) w2).
  destruct (env_logs env (now w3)) as [[outBuf errBuf]|].
  2:{ eexists _, _, [EvCreateContainer true; EvStartContainer true;
                     EvWaitContainer true; EvLogs false; EvRemoveContainer id].
      subst w1 w2 w3. query_done. }
  destruct (decide (exitCode <> 0)).
  - eexists _, _, [EvCreateContainer true; EvStartContainer true;
                   EvWaitContainer true; EvLogs true; EvRemoveContainer id].
    subst w1 w2 w3. query_done.
  - eexists _, _, [EvCreateContainer true; EvStartContainer true;
                   EvWaitContainer true; EvLogs true; EvRemoveContainer id].
    subst w1 w2 w3. query_done.
Qed.

Lemma unlock_run_held (w : World) :
  mutex w = true ->
  exists err w' ues released,
    unlock env w = Ret err w' /\
    trace w' = (trace w ++ ues)%list /\
    unlock_trace ues released /\
    mutex w' = negb released /\
    (released = true -> flock w' = false).
Proof.
  intros Hm. rewrite unlock_cases, Hm.
  destruct (env_getLockfile env (now w)).
  - destruct (env_fileUnlock env (S (now w))).
    + eexists _, _, _, true. split; [reflexivity|].
      cbn [trace mutex flock negb]. repeat (split; [reflexivity|]).
      split; [constructor|auto].
    + eexists _, _, _, false. split; [reflexivity|].
      cbn [trace mutex flock negb]. repeat (split; [reflexivity|]).
      split; [constructor|]. split; [reflexivity|discriminate].
  - eexists _, _, _, false. split; [reflexivity|].
    cbn [trace mutex flock negb]. repeat (split; [reflexivity|]).
    split; [constructor|]. split; [reflexivity|discriminate].
Qed.

Lemma container_run (image : string) (w : World) :
  mutex w = false ->
  exists r w' es,
    rpmDataFromContainer env image w = Ret r w' /\
    trace w' = (trace w ++ es)%list /\
    container_trace (flock w) es r (mutex w') (flock w').
Proof.
  intros Hm. unfold rpmDataFromContainer, mbind, M_bind, NewClientFromEnv at 1.
  destruct (env_newClient env (now w)).
  2:{ eexists _, _, [EvNewClient false]. split; [reflexivity|].
      cbn [emit trace mutex flock]. split; [reflexivity|].
      rewrite Hm. constructor. }
  destruct (lock_run env (emit (EvNewClient true) w) Hm)
    as (err & w1 & les & Hlock & Htr1 & Htail & Hmutex & _ & Hheld).
  rewrite Hlock. cbn [emit trace] in Htr1. rewrite <- app_assoc in Htr1.
  destruct err as [err|].
  { exists (∅, Some err), w1, (EvNewClient true :: EvMutexLock :: les).
    split; [reflexivity|]. split; [exact Htr1|].
    rewrite Hmutex. now constructor. }
  specialize (Hheld eq_refl).
  unfold loadImageToDaemon, generateValidImageTag, mbind, M_bind.
  rewrite draw_tags_run. unfold mret, M_ret, daemon_Write at 1.
  set (n := env_collisions env (now w1)).
  set (w2 := {| mutex := mutex w1; flock := flock w1;
                trace := trace w1 ++ draws n |}).
  destruct (env_daemonWrite env (now w2)).
  2:{ eexists _, _, (EvNewClient true :: EvMutexLock :: les ++ draws n ++
                     [EvDaemonWrite false])%list.
      split; [reflexivity|]. subst w2. cbn [emit trace mutex flock].
      split; [rewrite Htr1, <- !app_assoc; reflexivity|].
      rewrite Hmutex, Hheld. now constructor. }
  set (w3 := emit (EvDaemonWrite true) w2).
  assert (Hm3 : mutex w3 = true) by exact Hmutex.
  destruct (unlock_run_held w3 Hm3)
    as (uerr & w4 & ues & released & Hunlock & Htr4 & Hues & Hm4 & Hf4).
  rewrite Hunlock. unfold defer.
  set (name := env_tag env (now w1)).
  destruct (run_query_run name w4)
    as (r & w5 & qes & Hquery & Hm5 & Hf5 & Htr5 & Hqes).
  rewrite Hquery. unfold RemoveImage.
  exists r, (emit (EvRemoveImage name) w5),
    (EvNewClient true :: EvMutexLock :: les ++ draws n ++
     [EvDaemonWrite true] ++ ues ++ qes ++ [EvRemoveImage name])%list.
  split; [reflexivity|]. cbn [emit trace mutex flock]. split.
  - rewrite Htr5, Htr4. subst w3 w2. cbn [emit trace].
    rewrite Htr1, <- !app_assoc. reflexivity.
  - rewrite Hm5, Hf5, Hm4. now constructor.
Qed.

Lemma loop_trace_gate_events n err es x :
  loop_trace n err es x -> Forall gate_event es.
Proof.
  induction 1; repeat constructor; auto.
Qed.

Lemma lock_tail_gate_events (les : list event) (err : option error) :
  lock_tail les err -> Forall gate_event les.
Proof.
  destruct 1 as [|es H|es e H _|es err H].
  - repeat constructor.
  - constructor; [exact I|]. exact (loop_trace_gate_events _ _ _ _ H).
  - constructor; [exact I|]. apply Forall_app. split.
    + exact (loop_trace_gate_events _ _ _ _ H).
    + repeat constructor.
  - constructor; [exact I|]. exact (loop_trace_gate_events _ _ _ _ H).
Qed.

Lemma lock_tail_errors (les : list event) (err : error) :
  lock_tail les (Some err) ->
  err = Errorf "[lock] cannot init lockfile" \/
  err = Errorf "[lock] error acquiring lock: too many tries" \/
  err = Errorf "[lock] error acquiring lock".
Proof.
  inversion 1 as [| |es e Hlt _|es err' Hlt]; subst; auto.
  apply loop_trace_returned in Hlt as (_ & _ & ->). auto.
Qed.

Lemma unlock_trace_gate_events (ues : list event) (released : bool) :
  unlock_trace ues released -> Forall gate_event ues.
Proof. destruct 1; repeat constructor. Qed.

Lemma draws_daemon_events (n : nat) : Forall daemon_event (draws n).
Proof.
  unfold draws. apply Forall_app. split; [|repeat constructor].
  induction n; cbn; constructor; auto. exact I.
Qed.

Lemma query_trace_daemon_events qes r :
  query_trace qes r -> Forall daemon_event qes.
Proof. destruct 1; repeat constructor. Qed.

Lemma parsePackageData_error (rpmOutput : list string) (err : error) :
  (parsePackageData rpmOutput).2 = Some err ->
  exists size, err = Errorf ("error converting package size: " +:+ size).
Proof.
  unfold parsePackageData. pose proof (parse_loop_spec rpmOutput ∅) as H.
  destruct (parse_loop rpmOutput ∅) as [packages [e|]]; cbn; [|discriminate].
  intros [= <-]. destruct H as (_ & _ & _ & size & _ & _ & _ & ->). eauto.
Qed.

Lemma query_trace_not_load_error qes r :
  query_trace qes r -> r.2 <> Some (Errorf "Error loading image").
Proof.
  destruct 1; cbn; try discriminate.
  intros H. apply parsePackageData_error in H as (size & H). discriminate H.
Qed.

(** Gate events and daemon events are apart. *)
Lemma gate_not_daemon (e : event) : gate_event e -> daemon_event e -> False.
Proof. destruct e; cbn; tauto. Qed.

Lemma not_among (P : event -> Prop) (e : event) (es : list event) :
  Forall P es -> ~ P e -> ~ In e es.
Proof.
  intros H Hn Hin. rewrite Forall_forall in H.
  apply Hn, H, list_elem_of_In, Hin.
Qed.

(** X11. A failed load leaves the gate held, in every environment: when
    [rpmDataFromContainer], called with the mutex free, returns the error
    of the image load, the mutex is locked and the lock file is held; the
    next call in the same process then waits for the mutex for ever, right
    after it has created its docker client. *)
Theorem failed_load_blocks_next_query
    (image image' : string) (w w' : World) (r : PackageMap * option error) :
  mutex w = false ->
  rpmDataFromContainer env image w = Ret r w' ->
  r.2 = Some (Errorf "Error loading image") ->
  env_newClient env (now w') = true ->
  mutex w' = true /\ flock w' = true /\
  rpmDataFromContainer env image' w' = Blocked (emit (EvNewClient true) w').
Proof.
  intros Hm Hrun Herr Hclient.
  destruct (container_run image w Hm) as (r0 & w0 & es & Hrun0 & _ & Hshape).
  rewrite Hrun in Hrun0. injection Hrun0 as <- <-.
  assert (Hgate : mutex w' = true /\ flock w' = true).
  { destruct Hshape as [|les err held Htail|les n Htail
                        |les n ues released qes r name held _ _ Hq _].
    - discriminate Herr.
    - cbn in Herr. injection Herr as ->.
      destruct (lock_tail_errors _ _ Htail) as [H|[H|H]]; discriminate H.
    - auto.
    - destruct (query_trace_not_load_error _ _ Hq Herr). }
  destruct Hgate as [Hmutex Hflock]. split; [exact Hmutex|]. split; [exact Hflock|].
  unfold rpmDataFromContainer, mbind, M_bind, NewClientFromEnv at 1.
  rewrite Hclient. now rewrite (lock_waits_for_mutex env (emit (EvNewClient true) w')).
Qed.

Lemma draws_events (n : nat) (e : event) :
  In e (draws n) -> exists found, e = EvDaemonImage found.
Proof.
  unfold draws. intros H. apply in_app_or in H as [H|[<-|[]]]; [|eauto].
  apply repeat_spec in H. eauto.
Qed.

Lemma unique_split {A : Type} (x : A) (l1 l2 pre post : list A) :
  ~ In x l1 -> ~ In x l2 -> (l1 ++ x :: l2 = pre ++ x :: post)%list ->
  pre = l1 /\ post = l2.
Proof.
  revert pre. induction l1 as [|a l1 IH]; intros pre Hl1 Hl2 Heq.
  - destruct pre as [|b pre]; cbn in Heq.
    + injection Heq as <-. auto.
    + injection Heq as <- ->. destruct Hl2. apply in_or_app. right. now left.
  - destruct pre as [|b pre]; cbn in Heq.
    + injection Heq as -> _. destruct Hl1. now left.
    + injection Heq as <- Heq.
      destruct (IH pre) as [-> ->]; auto.
      intros H. apply Hl1. now right.
Qed.

(** The part of the events of a query before the container is created. *)
Lemma loaded_prefix_events (les ues : list event) (released : bool) (n : nat)
    (e : event) :
  lock_tail les None -> unlock_trace ues released ->
  In e (EvNewClient true :: EvMutexLock :: les ++ draws n ++
        [EvDaemonWrite true] ++ ues) ->
  gate_event e \/ (exists found, e = EvDaemonImage found) \/
  e = EvDaemonWrite true \/ e = EvNewClient true.
Proof.
  intros Hles Hues [<-|[<-|H]]; [auto|left; exact I|].
  apply in_app_or in H as [H|H].
  { left. pose proof (lock_tail_gate_events _ _ Hles) as Hg.
    rewrite Forall_forall in Hg. apply Hg, list_elem_of_In, H. }
  apply in_app_or in H as [H|H]; [right; left; exact (draws_events _ _ H)|].
  destruct H as [<-|H]; [auto|].
  left. pose proof (unlock_trace_gate_events _ _ Hues) as Hg.
  rewrite Forall_forall in Hg. apply Hg, list_elem_of_In, H.
Qed.

Lemma query_trace_head qes r :
  query_trace qes r ->
  exists created rest,
    qes = EvCreateContainer created :: rest /\
    (forall ok, ~ In (EvCreateContainer ok) rest) /\
    Forall daemon_event rest /\
    ~ In (EvDaemonWrite true) rest /\
    (created = true -> exists mid id, rest = (mid ++ [EvRemoveContainer id])%list).
Proof.
  destruct 1; eexists _, _; (split; [reflexivity|]);
    (split; [intros ok H; cbn in H; intuition discriminate|]);
    (split; [repeat constructor|]);
    (split; [intros H; cbn in H; intuition discriminate|]).
  - discriminate.
  - intros _. now exists [EvStartContainer false], id.
  - intros _. now exists [EvStartContainer true; EvWaitContainer false], id.
  - intros _.
    now exists [EvStartContainer true; EvWaitContainer true; EvLogs false], id.
  - intros _.
    now exists [EvStartContainer true; EvWaitContainer true; EvLogs true], id.
  - intros _.
    now exists [EvStartContainer true; EvWaitContainer true; EvLogs true], id.
Qed.

Lemma container_trace_facts (held0 : bool) (es : list event)
    (r : PackageMap * option error) (m f : bool) :
  container_trace held0 es r m f ->
  (forall pre post ok,
     es = (pre ++ EvCreateContainer ok :: post)%list ->
     In (EvDaemonWrite true) pre /\
     (m = false -> In (EvFileUnlock true) pre /\ In EvMutexUnlock pre)) /\
  (In (EvFileUnlock true) es -> m = false /\ f = false) /\
  (In (EvDaemonWrite true) es -> ~ In (EvFileUnlock true) es ->
   m = true /\ exists ok, In (EvCreateContainer ok) es).
Proof.
  assert (Hgate : forall les err e,
            lock_tail les err -> In e les -> gate_event e).
  { intros les err e Hles Hin. pose proof (lock_tail_gate_events _ _ Hles) as Hg.
    rewrite Forall_forall in Hg. apply Hg, list_elem_of_In, Hin. }
  destruct 1 as [|les err held Hles|les n Hles
                |les n ues released qes r name held Hles Hues Hq Hheld].
  - (* no client *)
    conjuncts.
    + intros [|e pre] post ok Heq; cbn in Heq; [discriminate Heq|].
      injection Heq as _ Heq. now destruct pre.
    + intros [H|[]]. discriminate H.
    + intros [H|[]]. discriminate H.
  - (* the lock failed *)
    assert (Hno : forall e, daemon_event e -> e <> EvNewClient true ->
                   ~ In e (EvNewClient true :: EvMutexLock :: les)).
    { intros e He Hne [H|[H|H]]; [now destruct Hne|subst e; destruct He|].
      exact (gate_not_daemon e (Hgate _ _ _ Hles H) He). }
    conjuncts.
    + intros pre post ok Heq. exfalso.
      apply (Hno (EvCreateContainer ok)); [exact I|discriminate|].
      rewrite Heq. apply in_or_app. right. now left.
    + intros [H|[H|H]]; try discriminate H.
      destruct (lock_tail_no_file_unlock _ _ _ Hles H).
    + intros H. exfalso. revert H. apply Hno; [exact I|discriminate].
  - (* the load failed *)
    assert (Hin : forall e,
              In e (EvNewClient true :: EvMutexLock :: les ++ draws n ++
                    [EvDaemonWrite false]) ->
              gate_event e \/ (exists found, e = EvDaemonImage found) \/
              e = EvDaemonWrite false \/ e = EvNewClient true).
    { intros e [<-|[<-|H]]; [auto|left; exact I|].
      apply in_app_or in H as [H|H]; [left; eauto|].
      apply in_app_or in H as [H|[<-|[]]]; [|auto].
      right. left. exact (draws_events _ _ H). }
    conjuncts.
    + intros pre post ok Heq.
      destruct (Hin (EvCreateContainer ok)) as [H|[[b H]|[H|H]]];
        try discriminate H; [|destruct H].
      rewrite Heq. apply in_or_app. right. now left.
    + intros [H|[H|H]]; try discriminate H.
      apply in_app_or in H as [H|H];
        [destruct (lock_tail_no_file_unlock _ _ _ Hles H)|].
      apply in_app_or in H as [H|[H|[]]]; [|discriminate H].
      apply draws_events in H as [b H]. discriminate H.
    + intros H. destruct (Hin _ H) as [H'|[[b H']|[H'|H']]];
        try discriminate H'. destruct H'.
  - (* the image is loaded and the query runs *)
    destruct (query_trace_head _ _ Hq)
      as (created & rest & -> & Hrest & _ & Hnowrite & Hremoved).
    set (A := (EvNewClient true :: EvMutexLock :: les ++ draws n ++
               [EvDaemonWrite true] ++ ues)%list).
    assert (Hes : (EvNewClient true :: EvMutexLock :: les ++ draws n ++
                   [EvDaemonWrite true] ++ ues ++
                   (EvCreateContainer created :: rest) ++ [EvRemoveImage name])%list =
                  (A ++ EvCreateContainer created :: rest ++ [EvRemoveImage name])%list).
    { subst A. cbn. now rewrite <- !app_assoc. }
    rewrite Hes.
    assert (HA : forall e, In e A ->
              gate_event e \/ (exists found, e = EvDaemonImage found) \/
              e = EvDaemonWrite true \/ e = EvNewClient true)
      by (intros e; apply (loaded_prefix_events les ues released n e Hles Hues)).
    assert (HnoA : forall ok, ~ In (EvCreateContainer ok) A).
    { intros ok H. destruct (HA _ H) as [H'|[[b H']|[H'|H']]];
        try discriminate H'. destruct H'. }
    assert (Htail : forall ok, ~ In (EvCreateContainer ok) (rest ++ [EvRemoveImage name])).
    { intros ok H. apply in_app_or in H as [H|[H|[]]]; [|discriminate H].
      exact (Hrest ok H). }
    assert (Hwrite : In (EvDaemonWrite true) A).
    { subst A. right. right. apply in_or_app. right. apply in_or_app. right.
      now left. }
    assert (HfuA : In (EvFileUnlock true) A -> released = true).
    { subst A. intros [H|[H|H]]; try discriminate H.
      apply in_app_or in H as [H|H];
        [destruct (lock_tail_no_file_unlock _ _ _ Hles H)|].
      apply in_app_or in H as [H|H];
        [apply draws_events in H as [b H]; discriminate H|].
      destruct H as [H|H]; [discriminate H|].
      destruct Hues; cbn in H; intuition discriminate. }
    assert (Hfu : In (EvFileUnlock true)
                    (A ++ EvCreateContainer created :: rest ++ [EvRemoveImage name]) ->
                  released = true).
    { intros H. apply in_app_or in H as [H|[H|H]]; [auto|discriminate H|].
      apply in_app_or in H as [H|[H|[]]]; [|discriminate H].
      pose proof (query_trace_daemon_events _ _ Hq) as Hd.
      apply Forall_cons in Hd as [_ Hd]. rewrite Forall_forall in Hd.
      destruct (Hd _ (proj2 (list_elem_of_In _ _) H)). }
    conjuncts.
    + intros pre post ok Heq.
      assert (ok = created) as ->.
      { assert (Hin : In (EvCreateContainer ok)
                        (A ++ EvCreateContainer created :: rest ++ [EvRemoveImage name])).
        { rewrite Heq. apply in_or_app. right. now left. }
        apply in_app_or in Hin as [Hin|[Hin|Hin]].
        - destruct (HnoA ok Hin).
        - now injection Hin.
        - destruct (Htail ok Hin). }
      destruct (unique_split _ _ _ _ _ (HnoA created) (Htail created) Heq)
        as [-> ->].
      split; [exact Hwrite|]. intros Hm. destruct released; [|discriminate Hm].
      inversion Hues; subst. subst A. cbn.
      split; right; right; apply in_or_app; right; apply in_or_app; right;
        cbn; auto.
    + intros H. pose proof (Hfu H) as Hr. split; [now rewrite Hr|auto].
    + intros _ Hno. split.
      * destruct released; [|reflexivity].
        destruct Hno. apply in_or_app. left. inversion Hues; subst. subst A.
        right. right. apply in_or_app. right. apply in_or_app. right. cbn. auto.
      * exists created. apply in_or_app. right. now left.
Qed.

(** X12. In every run of [rpmDataFromContainer] from a free mutex: a
    container is created only after the image was written to the daemon;
    when [lock.Unlock()] succeeded the gate is free at the return, and it
    was released before the container was created; and when the image was
    written and [lock.Unlock()] did not succeed, the function still calls
    [CreateContainer] and returns with the mutex locked. *)
Theorem container_runs_outside_gate (image : string) (w : World) :
  mutex w = false ->
  exists r w' es,
    rpmDataFromContainer env image w = Ret r w' /\
    trace w' = (trace w ++ es)%list /\
    (forall pre post ok,
       es = (pre ++ EvCreateContainer ok :: post)%list ->
       In (EvDaemonWrite true) pre /\
       (mutex w' = false -> In (EvFileUnlock true) pre /\ In EvMutexUnlock pre)) /\
    (In (EvFileUnlock true) es -> mutex w' = false /\ flock w' = false) /\
    (In (EvDaemonWrite true) es -> ~ In (EvFileUnlock true) es ->
     mutex w' = true /\ exists ok, In (EvCreateContainer ok) es).
Proof.
  intros Hm.
  destruct (container_run image w Hm) as (r & w' & es & Hrun & Htr & Hshape).
  destruct (container_trace_facts _ _ _ _ _ Hshape) as (H1 & H2 & H3).
  exists r, w', es. auto.
Qed.

Lemma loadImageToDaemon_run (image : string) (w : World) :
  loadImageToDaemon env image w =
    let w1 := {| mutex := mutex w; flock := flock w;
                 trace := trace w ++ draws (env_collisions env (now w)) |} in
    if env_daemonWrite env (now w1)
    then Ret (inr (env_tag env (now w))) (emit (EvDaemonWrite true) w1)
    else Ret (inl (DaemonError "daemon.Write")) (emit (EvDaemonWrite false) w1).
Proof.
  unfold loadImageToDaemon, generateValidImageTag, mbind, M_bind.
  rewrite draw_tags_run. unfold mret, M_ret, daemon_Write at 1. cbv zeta.
  now destruct (env_daemonWrite env _).
Qed.

(** The container that the query removes is the one it created. *)
Lemma run_query_removes (imageName : string) (w : World) :
  exists r w' qes,
    run_query env imageName w = Ret r w' /\
    trace w' = (trace w ++ qes)%list /\
    query_trace qes r /\
    (In (EvCreateContainer true) qes ->
     exists id w1 mid,
       CreateContainer env rpmCmd imageName w = Ret (Some id) w1 /\
       trace w' = (trace w1 ++ mid ++ [EvRemoveContainer id])%list).
Proof.
  unfold run_query, mbind, M_bind, CreateContainer.
  destruct (env_createContainer env (now w)) as [id|].
  2:{ eexists _, _, [EvCreateContainer false]. split; [reflexivity|].
      split; [reflexivity|]. split; [constructor|].
      intros [H|[]]. discriminate H. }
  unfold defer, StartContainer.
  set (w1 := emit (EvCreateContainer (bool_decide (is_Some (Some id)))) w).
  assert (Hdone : forall r w' mid,
            trace w' = (trace w1 ++ mid ++ [EvRemoveContainer id])%list ->
            query_trace (EvCreateContainer true :: mid ++ [EvRemoveContainer id]) r ->
            trace w' =
              (trace w ++ EvCreateContainer true :: mid ++ [EvRemoveContainer id])%list /\
            query_trace (EvCreateContainer true :: mid ++ [EvRemoveContainer id]) r /\
            (In (EvCreateContainer true)
               (EvCreateContainer true :: mid ++ [EvRemoveContainer id]) ->
             exists id0 w0 mid0,
               Ret (Some id) w1 = Ret (Some id0) w0 /\
               trace w' = (trace w0 ++ mid0 ++ [EvRemoveContainer id0])%list)).
  { intros r w' mid Htr Hq.
    split; [rewrite Htr; subst w1; cbn [emit trace]; now rewrite <- app_assoc|].
    split; [exact Hq|]. intros _. now exists id, w1, mid. }
  destruct (env_startContainer env (now w1)).
  2:{ eexists _, _, _. split; [reflexivity|].
      apply (Hdone _ _ [EvStartContainer false]).
      - cbn [emit trace]. now rewrite <- !app_assoc.
      - constructor. }
  unfold WaitContainer.
  set (w2 := emit (EvStartContainer true) w1).
  destruct (env_waitContainer env (now w2)) as [exitCode|].
  2:{ eexists _, _, _. split; [reflexivity|].
      apply (Hdone _ _ [EvStartContainer true; EvWaitContainer false]).
      - subst w2. cbn [emit trace bool_decide]. now rewrite <- !app_assoc.
      - constructor. }
  unfold Logs.
  set (w3 := emit (EvWaitContainer (bool_decide (is_Some (Some exitCode)))) w2).
  destruct (env_logs env (now w3)) as [[outBuf errBuf]|].
  2:{ eexists _, _, _. split; [reflexivity|].
      apply (Hdone _ _ [EvStartContainer true; EvWaitContainer true; EvLogs false]).
      - subst w2 w3. cbn [emit trace bool_decide]. now rewrite <- !app_assoc.
      - constructor. }
  destruct (decide (exitCode <> 0)).
  - eexists _, _, _. split; [reflexivity|].
    apply (Hdone _ _ [EvStartContainer true; EvWaitContainer true; EvLogs true]).
    + subst w2 w3. cbn [emit trace bool_decide]. now rewrite <- !app_assoc.
    + constructor.
  - eexists _, _, _. split; [reflexivity|].
    apply (Hdone _ _ [EvStartContainer true; EvWaitContainer true; EvLogs true]).
    + subst w2 w3. cbn [emit trace bool_decide]. now rewrite <- !app_assoc.
    + constructor.
Qed.

(** X13. The deferred calls of [rpmDataFromContainer] clean up on every
    return path: once the image was written to the daemon, the last event
    of the run removes the image under the name that [loadImageToDaemon]
    returned for it; and once a container was created, the run ends with
    the removal of the container that [CreateContainer] returned, followed
    by the removal of that image. *)
Theorem container_query_cleans_up (image : string) (w : World) :
  mutex w = false ->
  exists r w' es,
    rpmDataFromContainer env image w = Ret r w' /\
    trace w' = (trace w ++ es)%list /\
    (In (EvDaemonWrite true) es ->
     exists w0 w1 imageName post,
       loadImageToDaemon env image w0 = Ret (inr imageName) w1 /\
       (exists pre, trace w0 = (trace w ++ pre)%list) /\
       trace w' = (trace w1 ++ post ++ [EvRemoveImage imageName])%list /\
       (In (EvCreateContainer true) es ->
        exists w2 w3 id mid,
          CreateContainer env rpmCmd imageName w2 = Ret (Some id) w3 /\
          (exists pre, trace w2 = (trace w1 ++ pre)%list) /\
          trace w' =
            (trace w3 ++ mid ++ [EvRemoveContainer id; EvRemoveImage imageName])%list)).
Proof.
  intros Hm. unfold rpmDataFromContainer, mbind, M_bind, NewClientFromEnv at 1.
  destruct (env_newClient env (now w)).
  2:{ eexists _, _, [EvNewClient false]. split; [reflexivity|].
      split; [reflexivity|]. intros [H|[]]. discriminate H. }
  destruct (lock_run env (emit (EvNewClient true) w) Hm)
    as (err & w0 & les & Hlock & Htr0 & Htail & Hmutex & _).
  rewrite Hlock. cbn [emit trace] in Htr0. rewrite <- app_assoc in Htr0.
  assert (Hgate : forall e, In e les -> gate_event e).
  { intros e Hin. pose proof (lock_tail_gate_events _ _ Htail) as Hg.
    rewrite Forall_forall in Hg. apply Hg, list_elem_of_In, Hin. }
  destruct err as [err|].
  { exists (∅, Some err), w0, (EvNewClient true :: EvMutexLock :: les).
    split; [reflexivity|]. split; [exact Htr0|].
    intros [H|[H|H]]; [discriminate H|discriminate H|].
    destruct (Hgate _ H). }
  rewrite loadImageToDaemon_run. cbv zeta.
  set (n := env_collisions env (now w0)).
  set (w1 := {| mutex := mutex w0; flock := flock w0;
                trace := trace w0 ++ draws n |}).
  destruct (env_daemonWrite env (now w1)) eqn:Hwrite.
  2:{ eexists _, _, (EvNewClient true :: EvMutexLock :: les ++ draws n ++
                     [EvDaemonWrite false])%list.
      split; [reflexivity|]. subst w1. cbn [emit trace].
      split; [rewrite Htr0, <- !app_assoc; reflexivity|].
      intros [H|[H|H]]; [discriminate H|discriminate H|].
      apply in_app_or in H as [H|H]; [destruct (Hgate _ H)|].
      apply in_app_or in H as [H|[H|[]]]; [|discriminate H].
      apply draws_events in H as [found H]. discriminate H. }
  set (w2 := emit (EvDaemonWrite true) w1).
  set (name := env_tag env (now w0)).
  assert (Hload : loadImageToDaemon env image w0 = Ret (inr name) w2).
  { rewrite loadImageToDaemon_run. cbv zeta. fold n. fold w1. now rewrite Hwrite. }
  assert (Hm2 : mutex w2 = true) by exact Hmutex.
  destruct (unlock_run_held w2 Hm2)
    as (uerr & w3 & ues & released & Hunlock & Htr3 & Hues & _).
  rewrite Hunlock. unfold defer.
  destruct (run_query_removes name w3)
    as (r & w4 & qes & Hquery & Htr4 & Hq & Hcreated).
  rewrite Hquery. unfold RemoveImage.
  exists r, (emit (EvRemoveImage name) w4),
    (EvNewClient true :: EvMutexLock :: les ++ draws n ++
     [EvDaemonWrite true] ++ ues ++ qes ++ [EvRemoveImage name])%list.
  split; [reflexivity|]. cbn [emit trace].
  assert (Htr2 : trace w2 =
            (trace w ++ EvNewClient true :: EvMutexLock :: les ++ draws n ++
             [EvDaemonWrite true])%list).
  { subst w2 w1. cbn [emit trace]. rewrite Htr0, <- !app_assoc. reflexivity. }
  split.
  { rewrite Htr4, Htr3, Htr2, <- !app_assoc. cbn [app].
    rewrite <- !app_assoc. reflexivity. }
  intros _. exists w0, w2, name, (ues ++ qes)%list.
  split; [exact Hload|]. split; [eauto|].
  split; [rewrite Htr4, Htr3, <- !app_assoc; reflexivity|].
  intros Hin.
  assert (Hqes : In (EvCreateContainer true) qes).
  { replace (EvNewClient true :: EvMutexLock :: les ++ draws n ++
             [EvDaemonWrite true] ++ ues ++ qes ++ [EvRemoveImage name])%list
      with ((EvNewClient true :: EvMutexLock :: les ++ draws n ++
             [EvDaemonWrite true] ++ ues) ++ qes ++ [EvRemoveImage name])%list in Hin
      by (cbn; now rewrite <- !app_assoc).
    apply in_app_or in Hin as [Hin|Hin].
    - destruct (loaded_prefix_events _ _ _ _ _ Htail Hues Hin)
        as [H|[[found H]|[H|H]]]; try discriminate H. destruct H.
    - apply in_app_or in Hin as [Hin|[Hin|[]]]; [exact Hin|discriminate Hin]. }
  destruct (Hcreated Hqes) as (id & w5 & mid & Hcreate & Htr5).
  exists w3, w5, id, mid. split; [exact Hcreate|]. split; [eauto|].
  rewrite Htr5, <- !app_assoc. reflexivity.
Qed.

Lemma loop_trace_sleeps n err es x :
  loop_trace n err es x -> (sleeps es <= n)%nat.
Proof. induction 1; cbn [sleeps]; lia. Qed.

Lemma sleeps_snoc_unlock (es : list event) :
  sleeps (es ++ [EvMutexUnlock]) = sleeps es.
Proof.
  induction es as [|e es IH]; [reflexivity|].
  cbn [app]. destruct e; cbn [sleeps]; now rewrite ?IH.
Qed.

(** X14. [lock] has no early exit on success: from a free mutex, once the
    lock file is initialised and no attempt fails for good, it calls
    [TryLock] exactly 10 times, whether or not an earlier attempt
    succeeded; and it sleeps at most 10 times (20 seconds). *)
Theorem lock_always_tries_ten (w : World) :
  mutex w = false ->
  exists err w' es,
    lock env w = Ret err w' /\
    trace w' = (trace w ++ es)%list /\
    (In (EvGetLockfile true) es -> ~ In (EvTryLock LockFatal) es ->
     tries es = 10%nat) /\
    (sleeps es <= 10)%nat.
Proof.
  intros Hm.
  destruct (lock_run env w Hm) as (err & w' & es & Hrun & Htr & Htail & _).
  exists err, w', (EvMutexLock :: es). split; [exact Hrun|]. split; [exact Htr|].
  destruct Htail as [|es Hlt|es e Hlt He|es err Hlt]; cbn [tries sleeps].
  - split; [|lia]. intros [H|[H|[H|[]]]]; discriminate H.
  - split; [|exact (loop_trace_sleeps _ _ _ _ Hlt)]. intros _ _.
    destruct (loop_trace_tries _ _ _ _ Hlt) as [_ Hfin].
    now destruct (Hfin LockOk eq_refl) as [-> _].
  - rewrite tries_snoc_unlock, sleeps_snoc_unlock.
    split; [|exact (loop_trace_sleeps _ _ _ _ Hlt)]. intros _ _.
    destruct (loop_trace_tries _ _ _ _ Hlt) as [_ Hfin].
    now destruct (Hfin e eq_refl) as [-> _].
  - split; [|exact (loop_trace_sleeps _ _ _ _ Hlt)]. intros _ Hno.
    destruct Hno. right. right. now apply loop_trace_returned in Hlt.
Qed.

(** X15. [unlock] after a [lock] that succeeded always returns; when it
    returns [nil] the mutex is free and the lock file released, and when it
    returns an error the mutex is still locked, so that no later [lock] in
    the process can pass. *)
Theorem unlock_after_lock (w w1 : World) :
  mutex w = false ->
  lock env w = Ret None w1 ->
  exists err w2,
    unlock env w1 = Ret err w2 /\
    (err = None -> mutex w2 = false /\ flock w2 = false) /\
    (err <> None -> mutex w2 = true /\ lock env w2 = Blocked w2).
Proof.
  intros Hm Hlock.
  destruct (lock_run env w Hm) as (err & w' & es & Hrun & _ & _ & Hmutex & _).
  rewrite Hlock in Hrun. injection Hrun as <- <-. cbn in Hmutex.
  rewrite unlock_cases, Hmutex.
  destruct (env_getLockfile env (now w1)).
  - destruct (env_fileUnlock env (S (now w1))).
    + eexists _, _. split; [reflexivity|]. split; [auto|]. intros H. now destruct H.
    + eexists _, _. split; [reflexivity|]. split; [discriminate|]. intros _.
      split; [reflexivity|]. now apply lock_waits_for_mutex.
  - eexists _, _. split; [reflexivity|]. split; [discriminate|]. intros _.
    split; [reflexivity|]. now apply lock_waits_for_mutex.
Qed.

End Container.

Lemma failed_load_blocks_next_query_witness :
  exists w',
    rpm.mutex w' = true /\ rpm.flock w' = true /\
    rpm.rpmDataFromContainer load_fails_env "next" w' =
      rpm.Blocked (rpm.emit (rpm.EvNewClient true) w').
Proof.
  eexists.
  apply (failed_load_blocks_next_query load_fails_env "image" "next" idle _
           (∅, Some (Errorf "Error loading image"))).
  - reflexivity.
  - vm_compute. reflexivity.
  - reflexivity.
  - reflexivity.
Defined.

Lemma container_runs_outside_gate_witness :
  exists r w' es,
    rpm.rpmDataFromContainer unlock_fails_env "image" idle = rpm.Ret r w' /\
    rpm.trace w' = (rpm.trace idle ++ es)%list /\
    (forall pre post ok,
       es = (pre ++ rpm.EvCreateContainer ok :: post)%list ->
       In (rpm.EvDaemonWrite true) pre /\
       (rpm.mutex w' = false ->
        In (rpm.EvFileUnlock true) pre /\ In rpm.EvMutexUnlock pre)) /\
    (In (rpm.EvFileUnlock true) es -> rpm.mutex w' = false /\ rpm.flock w' = false) /\
    (In (rpm.EvDaemonWrite true) es -> ~ In (rpm.EvFileUnlock true) es ->
     rpm.mutex w' = true /\ exists ok, In (rpm.EvCreateContainer ok) es).
Proof.
  apply (container_runs_outside_gate unlock_fails_env "image" idle). reflexivity.
Defined.

Lemma container_query_cleans_up_witness :
  exists r w' es,
    rpm.rpmDataFromContainer (quiet_env ∅) "image" idle = rpm.Ret r w' /\
    rpm.trace w' = (rpm.trace idle ++ es)%list /\
    (In (rpm.EvDaemonWrite true) es ->
     exists w0 w1 imageName post,
       rpm.loadImageToDaemon (quiet_env ∅) "image" w0 = rpm.Ret (inr imageName) w1 /\
       (exists pre, rpm.trace w0 = (rpm.trace idle ++ pre)%list) /\
       rpm.trace w' = (rpm.trace w1 ++ post ++ [rpm.EvRemoveImage imageName])%list /\
       (In (rpm.EvCreateContainer true) es ->
        exists w2 w3 id mid,
          rpm.CreateContainer (quiet_env ∅) rpm.rpmCmd imageName w2 =
            rpm.Ret (Some id) w3 /\
          (exists pre, rpm.trace w2 = (rpm.trace w1 ++ pre)%list) /\
          rpm.trace w' =
            (rpm.trace w3 ++ mid ++
             [rpm.EvRemoveContainer id; rpm.EvRemoveImage imageName])%list)).
Proof.
  apply (container_query_cleans_up (quiet_env ∅) "image" idle). reflexivity.
Defined.

Lemma lock_always_tries_ten_witness :
  exists err w' es,
    rpm.lock busy_env idle = rpm.Ret err w' /\
    rpm.trace w' = (rpm.trace idle ++ es)%list /\
    (In (rpm.EvGetLockfile true) es -> ~ In (rpm.EvTryLock rpm.LockFatal) es ->
     tries es = 10%nat) /\
    (sleeps es <= 10)%nat.
Proof.
  apply (lock_always_tries_ten busy_env idle). reflexivity.
Defined.

Lemma unlock_after_lock_witness :
  exists w1 err w2,
    rpm.lock unlock_fails_env idle = rpm.Ret None w1 /\
    rpm.unlock unlock_fails_env w1 = rpm.Ret err w2 /\
    (err = None -> rpm.mutex w2 = false /\ rpm.flock w2 = false) /\
    (err <> None ->
     rpm.mutex w2 = true /\ rpm.lock unlock_fails_env w2 = rpm.Blocked w2).
Proof.
  eexists.
  assert (Hlock : rpm.lock unlock_fails_env idle = rpm.Ret None _)
    by (vm_compute; reflexivity).
  destruct (unlock_after_lock unlock_fails_env idle _ eq_refl Hlock)
    as (err & w2 & H).
  exists err, w2. split; [exact Hlock|exact H].
Defined.

(** ** The lock file after [lock] *)

Section LockFile.

Import rpm.

Variable env : Env.

(** When the attempt loop is left by its [return], the lock file is as
    the attempt that failed for good left it. *)
Lemma lock_loop_fatal (n : nat) :
  forall (err : TryLockResult) (w w' : World) (e : error),
    mutex w = true ->
    lock_loop env n err w = Ret (Returned e) w' ->
    exists pre,
      trace w' = (trace w ++ pre ++ [EvTryLock LockFatal; EvMutexUnlock])%list /\
      flock w' = env_lockFileLeft env (now w + length pre).
Proof.
  induction n as [|n IH]; intros err w w' e Hm Hrun; [discriminate Hrun|].
  cbn [lock_loop] in Hrun. unfold mbind, M_bind, TryLock at 1 in Hrun.
  destruct (env_tryLock env (now w)).
  - apply IH in Hrun as (pre & Htr & Hf); [|exact Hm].
    exists (EvTryLock LockOk :: pre). cbn [trace] in Htr.
    split; [rewrite Htr, <- app_assoc; reflexivity|].
    rewrite Hf. f_equal. unfold now. cbn [trace length].
    rewrite length_app. cbn. lia.
  - unfold Sleep at 1 in Hrun.
    apply IH in Hrun as (pre & Htr & Hf); [|exact Hm].
    exists (EvTryLock LockTemporary :: EvSleep 2 :: pre). cbn [trace emit] in Htr.
    split; [rewrite Htr, <- !app_assoc; reflexivity|].
    rewrite Hf. f_equal. unfold now, emit. cbn [trace length].
    rewrite !length_app. cbn. lia.
  - unfold mutex_Unlock at 1 in Hrun. cbn [mutex] in Hrun. rewrite Hm in Hrun.
    unfold mret, M_ret in Hrun. injection Hrun as _ <-. exists [].
    cbn [trace flock app length]. split; [now rewrite <- app_assoc|].
    f_equal. lia.
Qed.

Lemma lock_fatal_flock (w w' : World) (err : option error) (pre : list event) :
  mutex w = false ->
  lock env w = Ret err w' ->
  trace w' = (trace w ++ pre ++ [EvTryLock LockFatal; EvMutexUnlock])%list ->
  flock w' = env_lockFileLeft env (now w + length pre).
Proof.
  intros Hm Hlock Htrace.
  destruct (lock_run env w Hm) as (err0 & w0 & es & Hrun & Htr & Htail & _).
  rewrite Hlock in Hrun. injection Hrun as <- <-.
  rewrite Htr in Htrace. apply app_inv_head in Htrace.
  assert (Hin : In (EvTryLock LockFatal) es).
  { assert (H : In (EvTryLock LockFatal) (EvMutexLock :: es)).
    { rewrite Htrace. apply in_or_app. right. now left. }
    destruct H as [H|H]; [discriminate H|exact H]. }
  unfold lock, mbind, M_bind, mutex_Lock at 1 in Hlock. rewrite Hm in Hlock.
  unfold getLockfile at 1 in Hlock.
  set (w1 := {| mutex := true; flock := flock w;
                trace := trace w ++ [EvMutexLock] |}) in Hlock.
  destruct (env_getLockfile env (now w1)).
  2:{ exfalso. unfold mutex_Unlock at 1 in Hlock. subst w1.
      cbn [emit mutex] in Hlock. unfold mret, M_ret in Hlock.
      injection Hlock as _ <-. cbn [trace emit] in Htr.
      rewrite <- !app_assoc in Htr. apply app_inv_head in Htr.
      cbn in Htr. injection Htr as <-.
      destruct Hin as [H|[H|[]]]; discriminate H. }
  set (w2 := emit (EvGetLockfile true) w1) in Hlock.
  destruct (lock_loop_run env 10 LockOk w2 eq_refl)
    as (x & w3 & les & Hloop & Htr3 & Hlt & Hx).
  rewrite Hloop in Hlock. destruct x as [e|e].
  - unfold mret, M_ret in Hlock. injection Hlock as _ <-.
    destruct (lock_loop_fatal 10 LockOk w2 w3 e eq_refl Hloop) as (pre0 & Htr0 & Hf).
    rewrite Hf. f_equal.
    assert (Hlen : length (trace w3) = (length (trace w) + length pre + 2)%nat).
    { rewrite Htr, Htrace, !length_app. cbn. lia. }
    rewrite Htr0 in Hlen. subst w2 w1. unfold now, emit in *.
    cbn [trace] in *. rewrite !length_app in Hlen. rewrite !length_app.
    cbn in *. lia.
  - exfalso. apply loop_trace_tries in Hlt as [_ Hlt].
    destruct (Hlt e eq_refl) as (_ & Hno & _).
    assert (Hes : In (EvTryLock LockFatal) (EvGetLockfile true :: les) ->
                  False).
    { intros [H|H]; [discriminate H|auto]. }
    destruct e.
    + unfold mret, M_ret in Hlock. injection Hlock as _ <-.
      rewrite Htr3 in Htr. subst w2 w1. cbn [emit trace] in Htr.
      rewrite <- !app_assoc in Htr. apply app_inv_head in Htr.
      cbn in Htr. injection Htr as <-. auto.
    + destruct Hx as [Hm3 _]. unfold mutex_Unlock at 1 in Hlock.
      rewrite Hm3 in Hlock. unfold mret, M_ret in Hlock.
      injection Hlock as _ <-. cbn [trace] in Htr. rewrite Htr3 in Htr.
      subst w2 w1. cbn [emit trace] in Htr.
      rewrite <- !app_assoc in Htr. apply app_inv_head in Htr.
      cbn in Htr. injection Htr as <-.
      destruct Hin as [H|H]; [discriminate H|].
      apply in_app_or in H as [H|[H|[]]]; [auto|discriminate H].
    + destruct Hx as [Hm3 _]. unfold mutex_Unlock at 1 in Hlock.
      rewrite Hm3 in Hlock. unfold mret, M_ret in Hlock.
      injection Hlock as _ <-. cbn [trace] in Htr. rewrite Htr3 in Htr.
      subst w2 w1. cbn [emit trace] in Htr.
      rewrite <- !app_assoc in Htr. apply app_inv_head in Htr.
      cbn in Htr. injection Htr as <-.
      destruct Hin as [H|H]; [discriminate H|].
      apply in_app_or in H as [H|[H|[]]]; [auto|discriminate H].
Qed.

(** X16. [lock] never calls [lock.Unlock()], also when it returns an
    error after one of its attempts has taken the lock file: when an
    attempt succeeds and the next attempt fails for good (the loop goes on
    after a success), [lock] returns an error with the mutex released, no
    release of the lock file among its events, and the lock file as the
    failed attempt left it. *)
Theorem lock_error_keeps_lock_file
    (w w' : World) (err : option error) (pre : list event) :
  mutex w = false ->
  lock env w = Ret err w' ->
  trace w' =
    (trace w ++ pre ++
     [EvTryLock LockOk; EvTryLock LockFatal; EvMutexUnlock])%list ->
  err <> None /\ mutex w' = false /\
  (forall ok,
     ~ In (EvFileUnlock ok)
         (pre ++ [EvTryLock LockOk; EvTryLock LockFatal; EvMutexUnlock])) /\
  flock w' = env_lockFileLeft env (now w + S (length pre)).
Proof.
  intros Hm Hlock Htrace.
  destruct (lock_run env w Hm) as (err2 & w2 & es & Hrun & Htr & Htail & Hmutex & _).
  rewrite Hlock in Hrun. injection Hrun as <- <-.
  assert (Hes : (EvMutexLock :: es =
                 pre ++ [EvTryLock LockOk; EvTryLock LockFatal; EvMutexUnlock])%list).
  { rewrite Htr in Htrace. now apply app_inv_head in Htrace. }
  assert (Herr : err <> None).
  { destruct (lock_tail_facts es err Htail) as (_ & _ & _ & _ & _ & Hfatal).
    apply Hfatal.
    assert (Hin : In (EvTryLock LockFatal) (EvMutexLock :: es)).
    { rewrite Hes. apply in_or_app. right. cbn. auto. }
    destruct Hin as [Hin|Hin]; [discriminate Hin|exact Hin]. }
  split; [exact Herr|]. split; [|split].
  - rewrite Hmutex. destruct err; [reflexivity|now destruct Herr].
  - intros ok Hin. rewrite <- Hes in Hin.
    destruct Hin as [Hin|Hin]; [discriminate Hin|].
    exact (lock_tail_no_file_unlock _ _ ok Htail Hin).
  - rewrite (lock_fatal_flock w w' err (pre ++ [EvTryLock LockOk]) Hm Hlock).
    + f_equal. rewrite length_app. cbn. lia.
    + rewrite Htrace, <- !app_assoc. reflexivity.
Qed.

End LockFile.

Lemma lock_error_keeps_lock_file_witness :
  exists err w',
    rpm.lock late_fatal_env idle = rpm.Ret err w' /\
    err <> None /\ rpm.mutex w' = false /\
    (forall ok,
       ~ In (rpm.EvFileUnlock ok)
           ([rpm.EvMutexLock; rpm.EvGetLockfile true;
             rpm.EvTryLock rpm.LockTemporary; rpm.EvSleep 2;
             rpm.EvTryLock rpm.LockOk] ++
            [rpm.EvTryLock rpm.LockOk; rpm.EvTryLock rpm.LockFatal;
             rpm.EvMutexUnlock])) /\
    rpm.flock w' = true.
Proof.
  eexists _, _.
  assert (Hlock : rpm.lock late_fatal_env idle = rpm.Ret _ _)
    by (vm_compute; reflexivity).
  split; [exact Hlock|].
  apply (lock_error_keeps_lock_file late_fatal_env idle _ _
           [rpm.EvMutexLock; rpm.EvGetLockfile true;
            rpm.EvTryLock rpm.LockTemporary; rpm.EvSleep 2;
            rpm.EvTryLock rpm.LockOk]).
  - reflexivity.
  - exact Hlock.
  - reflexivity.
Defined.

(** ** The host path of the rpm analyzer *)

Section HostPath.

Import rpm.

Variable env : Env.

Lemma within_ret {A : Type} (P : event -> Prop) (n : nat) (a : A) :
  within P n (mret a).
Proof.
  intros w. exists a, w, []. cbn. rewrite app_nil_r.
  repeat (split; [reflexivity|]). split; [constructor|lia].
Qed.

Lemma within_bind {A B : Type} (P : event -> Prop) (n k : nat)
    (m : M A) (f : A -> M B) :
  within P n m -> (forall a, within P k (f a)) ->
  within P (n + k) (mbind f m).
Proof.
  intros Hm Hf w.
  destruct (Hm w) as (a & w1 & es1 & Hrun1 & Hm1 & Hf1 & Htr1 & HP1 & Hlen1).
  destruct (Hf a w1) as (b & w2 & es2 & Hrun2 & Hm2 & Hf2 & Htr2 & HP2 & Hlen2).
  exists b, w2, (es1 ++ es2)%list. unfold mbind, M_bind. rewrite Hrun1.
  split; [exact Hrun2|]. split; [congruence|]. split; [congruence|].
  split; [rewrite Htr2, Htr1; now rewrite app_assoc|].
  split; [now apply Forall_app|]. rewrite length_app. lia.
Qed.

Lemma within_weaken {A : Type} (P : event -> Prop) (n k : nat) (m : M A) :
  (n <= k)%nat -> within P n m -> within P k m.
Proof.
  intros Hle Hm w.
  destruct (Hm w) as (a & w1 & es & Hrun & Hm1 & Hf1 & Htr & HP & Hlen).
  exists a, w1, es. repeat (split; [assumption|]). lia.
Qed.

Lemma within_exec (args : list string) :
  within host_event 1 (exec_Output env args).
Proof.
  intros w. eexists _, _, [EvExec args _]. unfold exec_Output.
  split; [reflexivity|]. cbn. repeat (split; [reflexivity|]).
  split; [repeat constructor|lia].
Qed.

Lemma within_macros_loop (rootFSPath : string) (lines : list string) :
  within host_event 1 (macros_loop env rootFSPath lines).
Proof.
  induction lines as [|text lines IH]; cbn [macros_loop]; [apply within_ret|].
  destruct (HasPrefix _ _); [|exact IH].
  destruct (Fields _) as [|key [|macro more]]; try apply within_ret.
  apply (within_bind host_event 1 0); [apply within_exec|].
  intros [out|]; apply within_ret.
Qed.

Lemma within_rpmEnvCheck (rootFSPath : string) :
  within host_event 2 (rpmEnvCheck env rootFSPath).
Proof.
  unfold rpmEnvCheck. apply (within_bind host_event 1 1); [apply within_exec|].
  intros [version|]; [|apply within_ret].
  destruct (Open _ _) as [err|lines]; [apply within_ret|].
  apply within_macros_loop.
Qed.

Lemma within_rpmDataFromFS (fsPath dbPath : string) :
  within host_event 1 (rpmDataFromFS env fsPath dbPath).
Proof.
  unfold rpmDataFromFS. destruct (Stat _ _); [apply within_ret|].
  apply (within_bind host_event 1 0); [apply within_exec|].
  intros [out|]; apply within_ret.
Qed.

(** X17. Reading the rpm database in place never touches the gate or the
    daemon and always returns: [rpmDataFromImageFS] leaves mutex and lock
    file as they were, and its events are at most three commands of the
    host ([rpm --version], [rpm -E], the query). *)
Theorem host_path_runs_three_commands (image : Image) :
  within host_event 3 (rpmDataFromImageFS env image).
Proof.
  unfold rpmDataFromImageFS.
  apply (within_bind host_event 2 1); [apply within_rpmEnvCheck|].
  intros [dbPath [err|]]; [apply within_ret|apply within_rpmDataFromFS].
Qed.

Lemma macros_loop_no_dbpath (rootFSPath : string) (lines : list string) (w : World) :
  Forall (fun l => HasPrefix (TrimSpace l) "%_dbpath" = false) lines ->
  macros_loop env rootFSPath lines w =
    Ret ("", Some (Errorf "Failed parsing macros file")) w.
Proof.
  induction 1 as [|l lines Hl _ IH]; [reflexivity|].
  cbn [macros_loop]. now rewrite Hl.
Qed.



(** X19. When no line of the macros file starts (after trimming) with
    [%_dbpath], [rpmEnvCheck] fails with "Failed parsing macros file" after
    the one command [rpm --version]; [RPMAnalyzer.getPackages], with an rpm
    binary at [bin/rpm] or at [usr/bin/rpm] of the image, then goes on to
    the daemon. *)
Theorem rpmEnvCheck_without_dbpath
    (image : Image) (w : World) (lines : list string) (version : string) :
  let root := FSPath image in
  let w1 := emit (EvExec ["rpm"; "--version"] true) w in
  Stat (env_fs env) root = None ->
  (Stat (env_fs env) (filepath.Join root "bin/rpm") = None \/
   Stat (env_fs env) (filepath.Join root "usr/bin/rpm") = None) ->
  env_exec env (now w) ["rpm"; "--version"] = Some version ->
  Open (env_fs env) (filepath.Join root rpmMacros) = inr lines ->
  Forall (fun l => HasPrefix (TrimSpace l) "%_dbpath" = false) lines ->
  rpmEnvCheck env root w =
    Ret ("", Some (Errorf "Failed parsing macros file")) w1 /\
  RPMAnalyzer_getPackages env image w = rpmDataFromContainer env (Image_ image) w1.
Proof.
  intros root w1 Hroot Hbin Hversion Hopen Hlines.
  assert (Hcheck : rpmEnvCheck env root w =
                   Ret ("", Some (Errorf "Failed parsing macros file")) w1).
  { unfold rpmEnvCheck, mbind, M_bind, exec_Output at 1.
    rewrite Hversion, Hopen. now rewrite macros_loop_no_dbpath. }
  split; [exact Hcheck|].
  assert (Hhost : rpmDataFromImageFS env image w =
                  Ret (∅, Some (Errorf "Failed parsing macros file")) w1).
  { unfold rpmDataFromImageFS, mbind, M_bind. fold root. now rewrite Hcheck. }
  unfold RPMAnalyzer_getPackages. fold root. rewrite Hroot.
  destruct Hbin as [Hbin|Hbin]; rewrite Hbin.
  - unfold mbind, M_bind. now rewrite Hhost.
  - destruct (Stat (env_fs env) (filepath.Join root "bin/rpm"));
      unfold mbind, M_bind; cbv beta; now rewrite Hhost.
Qed.

(** X20. On a host without rpm ([rpm --version] fails),
    [RPMAnalyzer.getPackages] of an image that has an rpm binary does not
    read the image's macros file: after that one failed command it runs the
    query in a container. *)
Theorem host_without_rpm_falls_back (image : Image) (w : World) :
  let root := FSPath image in
  Stat (env_fs env) root = None ->
  (Stat (env_fs env) (filepath.Join root "bin/rpm") = None \/
   Stat (env_fs env) (filepath.Join root "usr/bin/rpm") = None) ->
  env_exec env (now w) ["rpm"; "--version"] = None ->
  RPMAnalyzer_getPackages env image w =
    rpmDataFromContainer env (Image_ image)
      (emit (EvExec ["rpm"; "--version"] false) w).
Proof.
  intros root Hroot Hbin Hversion.
  unfold RPMAnalyzer_getPackages. fold root. rewrite Hroot.
  assert (Hhost : rpmDataFromImageFS env image w =
                  Ret (∅, Some (ExecError "rpm --version"))
                    (emit (EvExec ["rpm"; "--version"] false) w)).
  { unfold rpmDataFromImageFS, mbind, M_bind, rpmEnvCheck.
    unfold mbind, M_bind, exec_Output. fold root. now rewrite Hversion. }
  destruct Hbin as [Hbin|Hbin]; rewrite Hbin.
  - unfold mbind, M_bind. now rewrite Hhost.
  - destruct (Stat (env_fs env) (filepath.Join root "bin/rpm"));
      unfold mbind, M_bind; cbv beta; now rewrite Hhost.
Qed.

End HostPath.


Lemma rpmEnvCheck_without_dbpath_witness :
  rpm.rpmEnvCheck plain_macros_env "/img" idle =
    rpm.Ret ("", Some (Errorf "Failed parsing macros file"))
      (rpm.emit (rpm.EvExec ["rpm"; "--version"] true) idle) /\
  rpm.RPMAnalyzer_getPackages plain_macros_env bare_image idle =
    rpm.rpmDataFromContainer plain_macros_env "scratch"
      (rpm.emit (rpm.EvExec ["rpm"; "--version"] true) idle).
Proof.
  refine (rpmEnvCheck_without_dbpath plain_macros_env bare_image idle
            ["# macros"; "%_topdir /usr/src"] "RPM version 4.16.1.3" _ _ _ _ _).
  - vm_compute. reflexivity.
  - right. vm_compute. reflexivity.
  - reflexivity.
  - vm_compute. reflexivity.
  - repeat constructor.
Defined.

Lemma host_without_rpm_falls_back_witness :
  rpm.RPMAnalyzer_getPackages (quiet_env suse_fs) bare_image idle =
    rpm.rpmDataFromContainer (quiet_env suse_fs) "scratch"
      (rpm.emit (rpm.EvExec ["rpm"; "--version"] false) idle).
Proof.
  refine (host_without_rpm_falls_back (quiet_env suse_fs) bare_image idle _ _ _).
  - vm_compute. reflexivity.
  - right. vm_compute. reflexivity.
  - reflexivity.
Defined.

(** ** The layer analyzers *)

Lemma layers_loop_first_failure
    (readStatusFile : string -> PackageMap * option error)
    (before : list Layer) (bad : Layer) (after : list Layer) (err : error)
    (packages : list PackageMap) :
  Forall (fun layer => (readStatusFile (LayerFSPath layer)).2 = None) before ->
  (readStatusFile (LayerFSPath bad)).2 = Some err ->
  ApkWorld.layers_loop readStatusFile (before ++ bad :: after) packages =
    ((packages ++ map (fun layer => (readStatusFile (LayerFSPath layer)).1) before)%list,
     Some err).
Proof.
  intros Hok Hbad. revert packages.
  induction Hok as [|layer layers Hlayer _ IH]; intros packages.
  - cbn [app ApkWorld.layers_loop map].
    destruct (readStatusFile (LayerFSPath bad)) as [m e].
    cbn in Hbad. subst e. now rewrite app_nil_r.
  - cbn [app ApkWorld.layers_loop map].
    destruct (readStatusFile (LayerFSPath layer)) as [m e].
    cbn in Hlayer. subst e. rewrite IH. cbn. now rewrite <- app_assoc.
Qed.

(** X21. Both definitions of [ApkLayerAnalyzer.getPackages] return one map
    per layer, in layer order, each the result of [readStatusFile] on that
    layer's path, when the image root and the apk database of the flat
    root exist and [readStatusFile] fails on no layer. *)
Theorem apk_layers_one_map_per_layer
    (readStatusFile : string -> PackageMap * option error)
    (fs : FS) (image : Image) :
  Stat fs (FSPath image) = None ->
  Forall (fun layer => (readStatusFile (LayerFSPath layer)).2 = None)
    (Layers image) ->
  let maps := map (fun layer => (readStatusFile (LayerFSPath layer)).1)
                (Layers image) in
  (Stat fs (filepath.Join (FSPath image) ApkWorld.apkWorldFile) = None ->
   ApkWorld.ApkLayerAnalyzer_getPackages readStatusFile fs image = (maps, None)) /\
  (Stat fs (filepath.Join (FSPath image) ApkInstalled.apkInstalledPackagesFile) = None ->
   ApkInstalled.ApkLayerAnalyzer_getPackages readStatusFile fs image = (maps, None)).
Proof.
  intros Hroot Hok maps. split; intros Hdb.
  - unfold ApkWorld.ApkLayerAnalyzer_getPackages. rewrite Hroot, Hdb.
    now rewrite layers_loop_aligned.
  - unfold ApkInstalled.ApkLayerAnalyzer_getPackages. rewrite Hroot, Hdb.
    now rewrite layers_loop_aligned.
Qed.

(** X22. Both definitions of [ApkLayerAnalyzer.getPackages] stop at the
    first layer on which [readStatusFile] fails: they return that error
    together with the maps of the layers before it, and the layers after it
    are not read. *)
Theorem apk_layers_stop_at_first_failure
    (readStatusFile : string -> PackageMap * option error)
    (fs : FS) (image : Image)
    (before : list Layer) (bad : Layer) (after : list Layer) (err : error) :
  Stat fs (FSPath image) = None ->
  Layers image = (before ++ bad :: after)%list ->
  Forall (fun layer => (readStatusFile (LayerFSPath layer)).2 = None) before ->
  (readStatusFile (LayerFSPath bad)).2 = Some err ->
  let maps := map (fun layer => (readStatusFile (LayerFSPath layer)).1) before in
  (Stat fs (filepath.Join (FSPath image) ApkWorld.apkWorldFile) = None ->
   ApkWorld.ApkLayerAnalyzer_getPackages readStatusFile fs image =
     (maps, Some err)) /\
  (Stat fs (filepath.Join (FSPath image) ApkInstalled.apkInstalledPackagesFile) = None ->
   ApkInstalled.ApkLayerAnalyzer_getPackages readStatusFile fs image =
     (maps, Some err)).
Proof.
  intros Hroot Hlayers Hok Hbad maps. split; intros Hdb.
  - unfold ApkWorld.ApkLayerAnalyzer_getPackages. rewrite Hroot, Hdb, Hlayers.
    now rewrite (layers_loop_first_failure _ _ _ _ err).
  - unfold ApkInstalled.ApkLayerAnalyzer_getPackages. rewrite Hroot, Hdb, Hlayers.
    now rewrite (layers_loop_first_failure _ _ _ _ err).
Qed.

Lemma apk_layers_one_map_per_layer_witness :
  let readStatusFile := apt.readStatusFile no_parse layered_fs in
  ApkWorld.ApkLayerAnalyzer_getPackages readStatusFile layered_fs layered_image =
    ([∅], None) /\
  ApkInstalled.ApkLayerAnalyzer_getPackages readStatusFile layered_fs layered_image =
    ([∅], None).
Proof.
  intros readStatusFile.
  destruct (apk_layers_one_map_per_layer readStatusFile layered_fs layered_image)
    as [Hworld Hinstalled].
  - vm_compute. reflexivity.
  - repeat constructor.
  - split; [apply Hworld|apply Hinstalled]; vm_compute; reflexivity.
Defined.

Lemma apk_layers_stop_at_first_failure_witness :
  let readStatusFile := apt.readStatusFile no_parse layered_fs in
  exists err,
    ApkWorld.ApkLayerAnalyzer_getPackages readStatusFile layered_fs
      broken_layer_image = ([∅], Some err) /\
    ApkInstalled.ApkLayerAnalyzer_getPackages readStatusFile layered_fs
      broken_layer_image = ([∅], Some err).
Proof.
  intros readStatusFile. eexists.
  destruct (apk_layers_stop_at_first_failure readStatusFile layered_fs
              broken_layer_image
              [ {| Index := 0; LayerDigest := ""; LayerFSPath := "/layer0";
                   LayerSize := 0 |} ]
              {| Index := 1; LayerDigest := ""; LayerFSPath := "/layer1";
                 LayerSize := 0 |}
              [ {| Index := 2; LayerDigest := ""; LayerFSPath := "/layer0";
                   LayerSize := 0 |} ]
              (PathError "stat" "/layer1"))
    as [Hworld Hinstalled].
  - vm_compute. reflexivity.
  - reflexivity.
  - repeat constructor.
  - vm_compute. reflexivity.
  - split; [apply Hworld|apply Hinstalled]; vm_compute; reflexivity.
Defined.

Section LayerAnalyzer.

Import rpm rpm_layers.

Variable env : Env.
Variable random_Image : error + string.
Variable image_Layers : string -> error + list string.
Variable mutate_AppendLayers : string -> string -> error + string.

Lemma layer_fs_loop_run (dbPath : string) (layers : list Layer) :
  forall (packages : list PackageMap) (w : World),
  exists more err w' es,
    layer_fs_loop env dbPath layers packages w =
      Ret ((packages ++ more)%list, err) w' /\
    mutex w' = mutex w /\ flock w' = flock w /\
    trace w' = (trace w ++ es)%list /\
    Forall host_event es /\ (length es <= length layers)%nat /\
    (err = None -> length more = length layers) /\
    (err <> None -> (length more < length layers)%nat).
Proof.
  induction layers as [|layer layers IH]; intros packages w.
  - exists [], None, w, []. cbn. rewrite !app_nil_r.
    repeat (split; [reflexivity|]). split; [constructor|].
    split; [lia|]. split; [reflexivity|]. intros H. now destruct H.
  - cbn [layer_fs_loop]. unfold mbind, M_bind.
    destruct (within_rpmDataFromFS env (LayerFSPath layer) dbPath w)
      as ([layerPackages [err|]] & w1 & es1 & Hrun & Hm1 & Hf1 & Htr1 & HP1 & Hlen1);
      rewrite Hrun.
    + exists [], (Some err), w1, es1. rewrite app_nil_r.
      split; [reflexivity|]. repeat (split; [assumption|]).
      cbn [length]. split; [lia|]. split; [discriminate|]. intros _. lia.
    + destruct (IH (packages ++ [layerPackages])%list w1)
        as (more & err & w2 & es2 & Hloop & Hm2 & Hf2 & Htr2 & HP2 & Hlen2 & Hok & Hko).
      exists (layerPackages :: more), err, w2, (es1 ++ es2)%list.
      rewrite Hloop, <- app_assoc. split; [reflexivity|].
      split; [congruence|]. split; [congruence|].
      split; [rewrite Htr2, Htr1; now rewrite app_assoc|].
      split; [now apply Forall_app|]. rewrite length_app. cbn [length].
      split; [lia|]. split; [intros H; now rewrite (Hok H)|].
      intros H. specialize (Hko H). lia.
Qed.

Lemma rpmDataFromLayerFS_run (image : Image) (w : World) :
  exists packages err w' es,
    rpmDataFromLayerFS env image w = Ret (packages, err) w' /\
    mutex w' = mutex w /\ flock w' = flock w /\
    trace w' = (trace w ++ es)%list /\
    Forall host_event es /\ (length es <= 2 + length (Layers image))%nat /\
    (err = None -> length packages = length (Layers image)) /\
    (err <> None -> Layers image <> [] ->
     (length packages < length (Layers image))%nat).
Proof.
  unfold rpmDataFromLayerFS, mbind, M_bind.
  destruct (within_rpmEnvCheck env (FSPath image) w)
    as ([dbPath [err|]] & w1 & es1 & Hrun & Hm1 & Hf1 & Htr1 & HP1 & Hlen1);
    rewrite Hrun.
  - exists [], (Some err), w1, es1. split; [reflexivity|].
    repeat (split; [assumption|]). split; [lia|]. split; [discriminate|].
    intros _ Hlayers. destruct (Layers image); [now destruct Hlayers|cbn; lia].
  - destruct (layer_fs_loop_run dbPath (Layers image) [] w1)
      as (more & err & w2 & es2 & Hloop & Hm2 & Hf2 & Htr2 & HP2 & Hlen2 & Hok & Hko).
    exists more, err, w2, (es1 ++ es2)%list. split; [exact Hloop|].
    split; [congruence|]. split; [congruence|].
    split; [rewrite Htr2, Htr1; now rewrite app_assoc|].
    split; [now apply Forall_app|]. rewrite length_app.
    split; [lia|]. split; [exact Hok|]. intros H _. exact (Hko H).
Qed.

Lemma containers_loop_length (layers : list string) :
  forall (tmpImage : string) (packages all : list PackageMap)
         (err : option error) (w w' : World),
  containers_loop env mutate_AppendLayers layers tmpImage packages w =
    Ret (all, err) w' ->
  exists more,
    all = (packages ++ more)%list /\
    (err = None -> length more = length layers) /\
    (err <> None -> (length more < length layers)%nat).
Proof.
  induction layers as [|layer layers IH]; intros tmpImage packages all err w w' Hrun.
  - injection Hrun as <- <- <-. exists []. rewrite app_nil_r.
    split; [reflexivity|]. split; [reflexivity|]. intros H. now destruct H.
  - cbn [containers_loop] in Hrun.
    destruct (mutate_AppendLayers tmpImage layer) as [e|tmpImage'].
    { injection Hrun as <- <- <-. exists []. rewrite app_nil_r.
      split; [reflexivity|]. split; [discriminate|]. intros _. cbn. lia. }
    unfold mbind, M_bind in Hrun.
    destruct (rpmDataFromContainer env tmpImage' w)
      as [[layerPackages [e|]] w1|msg w1|w1]; try discriminate Hrun.
    { injection Hrun as <- <- <-. exists []. rewrite app_nil_r.
      split; [reflexivity|]. split; [discriminate|]. intros _. cbn. lia. }
    destruct (IH _ _ _ _ _ _ Hrun) as (more & -> & Hok & Hko).
    exists (layerPackages :: more). rewrite <- app_assoc.
    split; [reflexivity|]. cbn [length].
    split; [intros H; now rewrite (Hok H)|]. intros H. specialize (Hko H). lia.
Qed.

(** X23. Querying the layers in place never touches the gate or the
    daemon and always returns: [rpmDataFromLayerFS] leaves mutex and lock
    file as they were, runs at most two commands of the host and one more
    per layer, returns one map per layer when it returns no error, and
    fewer maps than layers when it returns an error. *)
Theorem layer_host_path_one_map_per_layer (image : Image) (w : World) :
  exists packages err w' es,
    rpmDataFromLayerFS env image w = Ret (packages, err) w' /\
    mutex w' = mutex w /\ flock w' = flock w /\
    trace w' = (trace w ++ es)%list /\
    Forall host_event es /\ (length es <= 2 + length (Layers image))%nat /\
    (err = None -> length packages = length (Layers image)) /\
    (err <> None -> Layers image <> [] ->
     (length packages < length (Layers image))%nat).
Proof. exact (rpmDataFromLayerFS_run image w). Qed.

(** X24. When [rpmDataFromLayeredContainers] returns, it returns one map
    per layer of the registry image if it returns no error, and fewer maps
    than layers if it returns an error. *)
Theorem layered_containers_one_map_per_layer
    (image tmpImage : string) (layers : list string)
    (w w' : World) (packages : list PackageMap) (err : option error) :
  random_Image = inr tmpImage ->
  image_Layers image = inr layers ->
  rpmDataFromLayeredContainers env random_Image image_Layers
    mutate_AppendLayers image w = Ret (packages, err) w' ->
  (err = None -> length packages = length layers) /\
  (err <> None -> (length packages < length layers)%nat).
Proof.
  intros Hrandom Hlayers Hrun. unfold rpmDataFromLayeredContainers in Hrun.
  rewrite Hrandom, Hlayers in Hrun.
  destruct (containers_loop_length _ _ _ _ _ _ _ Hrun) as (more & -> & Hok & Hko).
  auto.
Qed.

(** X25. The loop of [rpmDataFromLayeredContainers] waits for ever after a
    query that did not release the gate: when the image has at least two
    layers and the query of the first returns no error although
    [lock.Unlock()] did not succeed, the query of the second layer creates
    its docker client and then blocks on [daemonMutex]. *)
Theorem layered_containers_stall
    (image tmp0 tmp1 tmp2 layer1 layer2 : string) (rest : list string)
    (w w1 : World) (packages1 : PackageMap) (es : list event) :
  mutex w = false ->
  random_Image = inr tmp0 ->
  image_Layers image = inr (layer1 :: layer2 :: rest) ->
  mutate_AppendLayers tmp0 layer1 = inr tmp1 ->
  mutate_AppendLayers tmp1 layer2 = inr tmp2 ->
  rpmDataFromContainer env tmp1 w = Ret (packages1, None) w1 ->
  trace w1 = (trace w ++ es)%list ->
  ~ In (EvFileUnlock true) es ->
  env_newClient env (now w1) = true ->
  rpmDataFromLayeredContainers env random_Image image_Layers
    mutate_AppendLayers image w = Blocked (emit (EvNewClient true) w1).
Proof.
  intros Hm Hrandom Hlayers Happend1 Happend2 Hrun Htr Hno Hclient.
  assert (Hheld : mutex w1 = true).
  { destruct (container_run env tmp1 w Hm) as (r & w0 & es0 & Hrun0 & Htr0 & Hshape).
    rewrite Hrun in Hrun0. injection Hrun0 as Hr <-.
    assert (Herr : r.2 = None) by now rewrite <- Hr.
    rewrite Htr in Htr0. apply app_inv_head in Htr0. subst es0. clear Hr Hrun.
    destruct Hshape as [|les err held Htail|les n Htail
                        |les n ues released qes r name held _ Hunlock _ _];
      try discriminate Herr.
    destruct Hunlock; try reflexivity.
    destruct Hno. do 2 right. rewrite !in_app_iff. cbn. auto 10. }
  unfold rpmDataFromLayeredContainers. rewrite Hrandom, Hlayers.
  cbn [containers_loop]. rewrite Happend1. unfold mbind, M_bind. rewrite Hrun.
  cbn [containers_loop]. rewrite Happend2.
  unfold rpmDataFromContainer, mbind, M_bind, NewClientFromEnv at 1.
  rewrite Hclient.
  now rewrite (lock_waits_for_mutex env (emit (EvNewClient true) w1)).
Qed.

(** X26. What [RPMLayerAnalyzer.getPackages] returns without error is
    aligned with one of two layer lists, or with none: it is empty when no
    rpm binary is found in the image, whatever layers the image has;
    otherwise it has one map per unpacked layer (queried in place), or one
    map per layer of the registry image (queried in containers). *)
Theorem rpm_layers_result_alignment
    (image : Image) (w w' : World) (packages : list PackageMap) :
  RPMLayerAnalyzer_getPackages env random_Image image_Layers
    mutate_AppendLayers image w = Ret (packages, None) w' ->
  let root := FSPath image in
  (Stat (env_fs env) (filepath.Join root "bin/rpm") <> None /\
   Stat (env_fs env) (filepath.Join root "usr/bin/rpm") <> None /\
   packages = [] /\ w' = w) \/
  length packages = length (Layers image) \/
  (exists layers,
     image_Layers (Image_ image) = inr layers /\
     length packages = length layers).
Proof.
  intros Hrun root. unfold RPMLayerAnalyzer_getPackages in Hrun. fold root in Hrun.
  destruct (Stat (env_fs env) root); [discriminate Hrun|].
  assert (Hgo :
    (x ← rpmDataFromLayerFS env image;
     let '(packages, err) := x in
     match err with
     | Some _ => rpmDataFromLayeredContainers env random_Image image_Layers
                   mutate_AppendLayers (Image_ image)
     | None => mret (packages, None)
     end) w = Ret (packages, None) w' ->
    length packages = length (Layers image) \/
    (exists layers,
       image_Layers (Image_ image) = inr layers /\
       length packages = length layers)).
  { clear Hrun. intros Hrun. unfold mbind, M_bind in Hrun.
    destruct (rpmDataFromLayerFS_run image w)
      as (ps & err & w1 & es & Hhost & _ & _ & _ & _ & _ & Hok & _).
    rewrite Hhost in Hrun. destruct err as [err|].
    - right. unfold rpmDataFromLayeredContainers in Hrun.
      destruct random_Image as [e|tmpImage]; [discriminate Hrun|].
      destruct (image_Layers (Image_ image)) as [e|layers]; [discriminate Hrun|].
      exists layers. split; [reflexivity|].
      destruct (containers_loop_length _ _ _ _ _ _ _ Hrun) as (more & -> & Hlen & _).
      exact (Hlen eq_refl).
    - left. injection Hrun as <- <-. exact (Hok eq_refl). }
  destruct (Stat (env_fs env) (filepath.Join root "bin/rpm")) as [e1|];
    [|right; exact (Hgo Hrun)].
  destruct (Stat (env_fs env) (filepath.Join root "usr/bin/rpm")) as [e2|];
    [|right; exact (Hgo Hrun)].
  left. injection Hrun as <- <-. repeat (split; [discriminate || reflexivity|]).
  reflexivity.
Qed.

End LayerAnalyzer.

Lemma layered_containers_one_map_per_layer_witness :
  exists packages w',
    rpm_layers.rpmDataFromLayeredContainers (quiet_env ∅) empty_image two_layers
      append_layer "alpine" idle = rpm.Ret (packages, None) w' /\
    length packages = 2%nat.
Proof.
  eexists _, _. split; [vm_compute; reflexivity|].
  refine (proj1 (layered_containers_one_map_per_layer (quiet_env ∅) empty_image
                   two_layers append_layer "alpine" "empty"
                   ["sha256:aa"; "sha256:bb"] idle _ _ None _ _ _) eq_refl).
  - reflexivity.
  - reflexivity.
  - vm_compute. reflexivity.
Defined.

Lemma layered_containers_stall_witness :
  exists w1,
    rpm.rpmDataFromContainer unlock_fails_env "empty+sha256:aa" idle =
      rpm.Ret (∅, None) w1 /\
    rpm_layers.rpmDataFromLayeredContainers unlock_fails_env empty_image two_layers
      append_layer "alpine" idle =
      rpm.Blocked (rpm.emit (rpm.EvNewClient true) w1).
Proof.
  eexists. split; [vm_compute; reflexivity|].
  refine (layered_containers_stall unlock_fails_env empty_image two_layers
            append_layer "alpine" "empty" "empty+sha256:aa"
            "empty+sha256:aa+sha256:bb" "sha256:aa" "sha256:bb" [] idle _ ∅ _
            _ _ _ _ _ _ _ _ _).
  - reflexivity.
  - reflexivity.
  - reflexivity.
  - reflexivity.
  - reflexivity.
  - vm_compute. reflexivity.
  - reflexivity.
  - cbn. intros H. decompose [or] H; discriminate || assumption.
  - reflexivity.
Defined.

Lemma rpm_layers_result_alignment_witness :
  exists packages w',
    rpm_layers.RPMLayerAnalyzer_getPackages suse_env empty_image two_layers
      append_layer suse_image idle = rpm.Ret (packages, None) w' /\
    ((Stat suse_fs (filepath.Join "/img" "bin/rpm") <> None /\
      Stat suse_fs (filepath.Join "/img" "usr/bin/rpm") <> None /\
      packages = [] /\ w' = idle) \/
     length packages = 2%nat \/
     (exists layers,
        two_layers "opensuse" = inr layers /\ length packages = length layers)).
Proof.
  eexists _, _. split; [vm_compute; reflexivity|].
  refine (rpm_layers_result_alignment suse_env empty_image two_layers
            append_layer suse_image idle _ _ _).
  vm_compute. reflexivity.
Defined.

(** ** One database per definition of the apk analyzer, in full *)




